(* ===== verification/_CoqProject ===== *)
-Q . S2P
Prelude.v
JsCore.v
PapaParse.v
Decoder.v
Aggregator.v
Sequencer.v
Projector.v
Emitters.v
Component.v
