(* ===== verification/Prelude.v ===== *)
(** * A verification development for the CSV corner-point parser/exporter

    The program is one React component, [src/src/modules/CsvParserExporter/
    CsvParserExporter.jsx].  It reads an uploaded CSV file with Papa.parse,
    turns every row whose first cell looks like [12a/10/20/30] into a
    fragment (identifier [12], corner tag [a], coordinates x y z), merges
    the fragments of one identifier into one row object, sorts the rows by
    identifier, keeps them as React state, and on a button click projects
    every row onto thirteen labelled columns and hands them to Papa.unparse
    (CSV) or SheetJS (XLSX) for download.  Data flows
    Papa.parse -> [Decoder] -> [Aggregator] -> [Sequencer] -> React state
    -> [Projector] -> [Emitters] -> file-saver, and [Component] drives it.

    ** Layout of the library (one file per part of the program)

    - [Prelude] (this file): the scope [csv_scope], the tactics [invc] and
      [decide_comparisons], the hint databases [csv] and [csv_rw], and
      generic lemmas on strings ([+:+]) and sorted lists.
    - [JsCore]: the ECMAScript built-ins the component relies on, written
      from the language definition: the JS number (NaN or an integer),
      strict equality [===], subtraction, the [SortCompare] rule of
      [Array.prototype.sort], the cell values ([undefined] or a string),
      [??], [String.prototype.split] with a one-character separator,
      [slice(-1)], [parseInt] (whitespace, sign, [0x] prefix, radix
      digits), and a TypeError result type [result] with its bind.
    - [PapaParse] (Module [PapaParse]): Papa.parse, a library, written from
      its documented behaviour with the component's default options: the
      guess of the line ending and of the delimiter, the fast path for a
      text without quotes, and the general loop over quoted fields, with
      fuel; and the [complete]/[error] callback a selected [file] gets.
      Its lemmas read files of plain lines and comma-separated tables
      back, and show the fast path reads what the loop reads.
    - [Decoder] (Module [Decoder]): lines 46-52 of [processFile]: one Papa
      row to a [fragment] record, throwing on an empty row.
    - [Aggregator] (Module [Aggregator]): lines 43-64: the [forEach] that
      finds ([list_find] with [===]) or pushes the row object of an
      identifier and writes its three cells; the row object is shared
      between [entry] and [result[i]], so the write is an [alter] at the
      found index.  A row object's own properties are a [gmap string value].
      The abstract specification is a [gmap Z] from identifier to cells
      built by last-write-wins insertion ([spec_aggregate]); [abs] maps the
      list to it, and NaN rows are kept apart ([nan_rows]).
    - [Sequencer] (Module [Sequencer]): line 66.  What [Array.prototype.sort]
      promises is the class [ArraySort] (permutation; sorted when the
      comparator is consistent); [sort_rows] and its theorems are proved
      against the class.  Two instances: a stable merge sort (stdpp's
      [merge_sort]) and an insertion sort, the two shapes engines run.
    - [Projector] (Module [Projector]): lines 8-22, 73-89 and 98-114:
      [COLUMN_NAMES] and the projections [csvData] and [xlsxData].
    - [Emitters] (Module [Emitters]): Papa.unparse and SheetJS's
      [json_to_sheet], which live in node_modules and are written from their
      documented behaviour; with a reading of CSV text per RFC 4180
      ([read_csv]) to state what the exported file contains.
    - [Component] (Module [Component]): lines 25-69, 71-127, 129-141:
      [processFile], [handleFileUpload] (which queues the callback
      [PapaParse] computes for the file), the Papa callbacks, the export
      handlers and the [disabled] conditions, as a [step] function over the
      component [state] (the React state [parsedData], the Papa callbacks
      still [pending], the [downloads] made) and an inductive [reachable].
      The callback of an upload is its own event, so interleavings of two
      uploads are explicit sequences of events.  The Section [WithSort]
      takes the engine's [ArraySort] as a context.

    ** The theorems (claims C1-C33, see each file)

    End to end (C1, C4, C7, C8, C10, C12, C23, C24, C25): a successful
    [processFile] stores a table with pairwise-distinct identifiers, sorted,
    whose every cell is the last one written for it; a file of lines
    separated by LF or CRLF is read one row per line, and a final line break
    adds a NaN row; a comma-separated file in the spec's input format
    uploads to a table with every cell undefined, and so does the
    component's own CSV export; every reachable state keeps a valid table;
    any readable file replaces the table, since Papa never yields the empty
    row on which [processFile] throws, and a file with an unclosed quote,
    reported as an error, still replaces it by one row. Component (C9, C18,
    C19, C21, C28, C32, C33): the pending callbacks, run in order, settle on
    the last successful parse; row objects hold only [a]/[b]/[c] plus a
    one-character tag; the callbacks of two uploads run out of order leave
    the older file's table; the tokenizer's loop terminates, and its fast
    path for a text without quotes reads the rows the loop reads; the CSV
    header; disabled exports on an empty table.  Numbers (C22, C26, C27):
    identifiers are exact up to 15 digits, beyond that [parseInt] rounds to
    the nearest double, ties to even, and two digit runs that round alike
    merge into one row.  Aggregator (C2, C3, C14, C16, C31): refinement of
    the map specification, cell contents, the distinct-identifier invariant,
    the row count with NaN rows never merging.  Decoder (C5, C29, C30): the
    documented cell grammar, the [parseInt] divergences (whitespace, sign,
    hex prefix), throwing.  Sequencer (C6, C15, C20): ascending order,
    independence of the engine, and, with a NaN row, an inconsistent
    comparator and two engines that disagree.  Export (C11, C13, C17): the
    CSV file reads back as the header and the cells, by the RFC 4180 reading
    and, for cells without special characters, by Papa.parse itself; the
    XLSX export is one sheet, Sheet1, with the same header and the same
    texts.

    ** Bounds and fuel

    Identifiers are doubles: [parseInt] rounds the exact value of the digits
    to 53 significant bits (ties to even) and to an infinity from 2^1024 on
    ([JsCore.to_number]; ±2^1024 stand for ±Infinity, which [===], the
    sign SortCompare reads and the merge treat alike).  C27 shows an
    identifier is the nearest double to its digits, C26 that up to 15 digits no rounding
    happens, C22 that two identifiers above 2^53 can merge.  Subtraction
    in the sort comparator rounds its exact difference the same way, and
    Number::toString prints the shortest digits that round back.
    [read_csv] runs [read_records] with fuel [length s + 2]: every record
    read consumes at least one character or ends the text, and the
    roundtrip proof derives the needed fuel from the text length.
    Papa's general loop gets [length s + 1] turns; each turn consumes a
    delimiter, a line ending or a quoted field or ends the parse, and C28
    shows the bound is never reached.  The line-ending guess reads the
    first MiB of the text; the theorems on line files assume a file below
    1 MiB, which is also below Papa's 10 MiB chunk, so a file is parsed
    in one piece.

    ** Not modelled

    Papa.parse's chunked streaming of files above 10 MiB, its worker and
    the options the component does not set, and the decoding of the
    file's bytes (a text is a string of code units below 256); XLSX.write's zip
    container and file-saver's [saveAs] (a download is recorded as a file
    name and a blob holding the text or the sheet); the DOM, the JSX markup
    and style.css. *)

From stdpp Require Export base list gmap strings sorting.
From Stdlib Require Export ZArith Ascii.
From Stdlib Require String.

Declare Scope csv_scope.
Delimit Scope csv_scope with csv.
Open Scope csv_scope.

(** String concatenation (JS [+] and template literals on strings) is
    stdpp's [s1 +:+ s2], [String.append]. *)

Create HintDb csv.
Create Rewrite HintDb csv_rw.

(** ** Tactics *)

(** Invert a hypothesis and clean up. *)
Ltac invc H := inversion H; subst; clear H.

(** Case on the comparisons of [Z] and [nat] in the goal, simplifying after
    each one, and close the arithmetic cases. *)
Ltac decide_comparisons :=
  repeat (match goal with
          | |- context [(?a <=? ?b)%Z] => destruct (Z.leb_spec a b)
          | |- context [(?a <? ?b)%Z] => destruct (Z.ltb_spec a b)
          | |- context [(?a =? ?b)%Z] => destruct (Z.eqb_spec a b)
          | |- context [(?a <=? ?b)%nat] => destruct (Nat.leb_spec a b)
          | |- context [(?a =? ?b)%nat] => destruct (Nat.eqb_spec a b)
          | |- context [(?a <? ?b)%nat] => destruct (Nat.ltb_spec a b)
          end; cbn [andb orb negb]); try lia.

(** ** Generic lemmas on strings *)

Lemma string_app_cons c (s t : string) : String c s +:+ t = String c (s +:+ t).
Proof. reflexivity. Qed.

Lemma string_app_nil_l (t : string) : EmptyString +:+ t = t.
Proof. reflexivity. Qed.

#[export] Hint Rewrite string_app_cons string_app_nil_l : csv_rw.

Lemma string_app_assoc (s t u : string) : s +:+ (t +:+ u) = (s +:+ t) +:+ u.
Proof. induction s as [|c s IH]; [done|]. by rewrite !string_app_cons, IH. Qed.

Lemma string_length_append (s t : string) :
  String.length (s +:+ t) = String.length s + String.length t.
Proof. induction s as [|c s IH]; [done|]. rewrite string_app_cons. simpl. by rewrite IH. Qed.

Lemma string_app_nil_r (s : string) : s +:+ EmptyString = s.
Proof. induction s as [|c s IH]; [done|]. by rewrite string_app_cons, IH. Qed.

(** ** Generic lemmas on sorted lists *)

Section SortedLocal.
Context {A : Type} (R : relation A).

(** [Sorted] gives [StronglySorted] when [R] is transitive on the elements
    of the list only (the comparator of line 66 is not transitive on NaN). *)
Lemma Sorted_Forall_head (a : A) (l : list A) :
  (forall x y z, x ∈ a :: l -> y ∈ a :: l -> z ∈ a :: l -> R x y -> R y z -> R x z) ->
  Sorted R (a :: l) -> Forall (R a) l.
Proof.
  revert a. induction l as [|b l IH]; intros a Htr Hs; [constructor|].
  inversion Hs as [|? ? Hs' Hhd]; subst. inversion Hhd as [|? ? Hab]; subst.
  assert (Hb : Forall (R b) l).
  { apply IH; [|done]. intros x y z ???. apply Htr; set_solver. }
  constructor; [done|]. rewrite Forall_forall in Hb |- *. intros y Hy.
  eapply (Htr a b y); [set_solver..|done|by apply Hb].
Qed.

Lemma Sorted_StronglySorted_on (l : list A) :
  (forall x y z, x ∈ l -> y ∈ l -> z ∈ l -> R x y -> R y z -> R x z) ->
  Sorted R l -> StronglySorted R l.
Proof.
  induction l as [|a l IH]; intros Htr Hs; constructor.
  - invc Hs. apply IH; [|done]. intros x y z ???. apply Htr; set_solver.
  - by apply Sorted_Forall_head.
Qed.
End SortedLocal.

(** A list of integers sorted for [<=] and without duplicates is sorted
    for [<]. *)
Lemma StronglySorted_Zle_lt (l : list Z) :
  StronglySorted Z.le l -> NoDup l -> StronglySorted Z.lt l.
Proof.
  induction 1 as [|x l Hs IH Hf]; intros Hnd; constructor.
  - apply IH. by apply NoDup_cons in Hnd as [_ ?].
  - apply NoDup_cons in Hnd as [Hx _]. rewrite Forall_forall in Hf |- *.
    intros y Hy. assert (x <> y) by (intros ->; by apply Hx, list_elem_of_In).
    specialize (Hf y Hy). lia.
Qed.
