(* ===== verification/JsCore.v ===== *)
(** * JsCore: the ECMAScript values and built-ins the component calls

    [processFile] (lines 42-69 of CsvParserExporter.jsx) uses a handful of
    built-ins whose corner cases decide what the program does: [split],
    [slice(-1)], [parseInt], [===] on numbers, the subtraction of the sort
    comparator and the way [Array.prototype.sort] reads a NaN comparator
    result, [values[i]] past the end and [??].  They are written here from
    ECMA-262, on the values this program can produce: a JS number is NaN,
    an integer double or an infinity (every [parseInt] result is one of
    these: the exact value rounded to 53 significant bits, ties to even,
    [to_number]), a string is a [string] whose characters stand for UTF-16
    code units below 256.  [round_mag_nearest] and [to_number_nearest]
    show that this rounding gives a double nearest to the exact value,
    with an even significand on a tie, as ECMA-262 requires. *)

From S2P Require Import Prelude.

(** ** Numbers

    Every Number this program computes is NaN, an integer, or an infinity
    ([parseInt] yields nothing else, and differences of such Numbers are
    such Numbers).  [Num z] is the integer [z], which is a double: an
    integer of at most 53 significant bits below 2^1024 in magnitude; and
    [Num (2^1024)] and [Num (-(2^1024))] stand for [+Infinity] and
    [-Infinity], which [===], SortCompare and the merge of rows treat
    exactly as they treat these two integers. *)

Inductive jsnum := NaN | Num (z : Z).

#[export] Instance jsnum_eq_dec : EqDecision jsnum.
Proof. solve_decision. Defined.

(** [a === b] on numbers (Number::equal): NaN is equal to nothing, and
    [-0 === +0], which is why [-0] is not kept apart from [0] here. *)
Definition strict_eq (a b : jsnum) : bool :=
  match a, b with
  | Num x, Num y => Z.eqb x y
  | _, _ => false
  end.

(** The magnitude that stands for Infinity. *)
Definition inf_bits : Z := 2 ^ 1024.

Definition is_inf (z : Z) : bool := (Z.abs z =? inf_bits)%Z.

(** A positive integer rounded to 53 significant bits, ties to even
    (roundTiesToEven of IEEE 754). *)
Definition round_mag (m : Z) : Z :=
  (let e := Z.log2 m - 52 in
   if e <=? 0 then m
   else
     let q := Z.shiftr m e in
     let r := m - Z.shiftl q e in
     let half := Z.shiftl 1 (e - 1) in
     let q' := if r <? half then q
               else if half <? r then q + 1
               else if Z.even q then q else q + 1 in
     Z.shiftl q' e)%Z.
Arguments round_mag : simpl never.

(** [𝔽(z)], the Number value for the integer [z] (ECMA-262 6.1.6.1):
    rounded to nearest, ties to even, and an infinity from 2^1024 on. *)
Definition to_number (z : Z) : jsnum :=
  Num (Z.sgn z * Z.min (round_mag (Z.abs z)) inf_bits).
Arguments to_number : simpl never.

(** An integer that is a Number of the model: at most 2^1024 in
    magnitude and exactly representable with 53 significant bits. *)
Definition is_double (z : Z) : bool :=
  (Z.abs z <=? inf_bits)%Z && (round_mag (Z.abs z) =? Z.abs z)%Z.

(** [a - b] (Number::subtract, ECMA-262 6.1.6.1.8 and 6.1.6.1.7): the
    difference of two infinities of the same sign is NaN, an infinity
    minus anything else is itself, anything finite minus an infinity is
    the opposite infinity, and two finite Numbers give the Number value of
    their exact difference. *)
Definition num_sub (a b : jsnum) : jsnum :=
  match a, b with
  | Num x, Num y =>
      if is_inf x then (if x =? y then NaN else Num x)
      else if is_inf y then Num (- y)
      else to_number (x - y)
  | _, _ => NaN
  end%Z.

(** SortCompare (ECMA-262 23.1.3.30.2), steps 4.b-4.c: the comparator's
    result is converted with ToNumber and a NaN result counts as [+0]; the
    sort reads only its sign, which [Num z] carries in [z]. *)
Definition sort_compare_result (v : jsnum) : Z :=
  match v with
  | NaN => 0
  | Num z => z
  end.

Definition is_nan (n : jsnum) : bool :=
  match n with NaN => true | Num _ => false end.

(** ** Exceptions

    The only exception [processFile] can raise is the TypeError of
    [line[0].split] when [line[0]] is [undefined]. *)

Inductive js_error := TypeError (msg : string).

Inductive result (A : Type) := Ok (a : A) | Throw (e : js_error).
Arguments Ok {A} a.
Arguments Throw {A} e.

Definition result_bind {A B} (m : result A) (k : A -> result B) : result B :=
  match m with
  | Ok a => k a
  | Throw e => Throw e
  end.

(** The value of a result, or a default when it threw. *)
Definition result_default {A} (d : A) (m : result A) : A :=
  match m with
  | Ok a => a
  | Throw _ => d
  end.

Notation "x <- m ;; k" := (result_bind m (fun x => k))
  (at level 100, m at next level, right associativity) : csv_scope.

(** ** Cell values: what [values[1]], [values[2]], [values[3]] can be *)

Inductive value := Undefined | Str (s : string).

#[export] Instance value_eq_dec : EqDecision value.
Proof. solve_decision. Defined.

(** [v ?? d]: the right operand when [v] is [undefined] (or [null], which
    no cell of this program holds). *)
Definition coalesce (v : value) (d : string) : string :=
  match v with
  | Undefined => d
  | Str s => s
  end.

(** [values[i]] on the array returned by [split]: [undefined] past the end. *)
Definition nth_value (l : list string) (i : nat) : value :=
  match l !! i with
  | Some s => Str s
  | None => Undefined
  end.

(** ** Strings *)

(** Whether a string contains a character. *)
Fixpoint has_char (c : ascii) (s : string) : bool :=
  match s with
  | EmptyString => false
  | String c' s' => if ascii_dec c c' then true else has_char c s'
  end.

(** [s.split(sep)] for a one-character separator (ECMA-262 22.1.3.23 with a
    string separator of length 1 and no limit): the maximal pieces between
    separators, at least one piece. *)
Fixpoint split (sep : ascii) (s : string) : list string :=
  match s with
  | EmptyString => [EmptyString]
  | String c s' =>
      let parts := split sep s' in
      if ascii_dec c sep then EmptyString :: parts
      else match parts with
           | p :: ps => String c p :: ps
           | [] => [String c EmptyString]
           end
  end.

(** [parts.join(sep)], the inverse of [split]. *)
Fixpoint join (sep : ascii) (l : list string) : string :=
  match l with
  | [] => EmptyString
  | [p] => p
  | p :: ps => p +:+ String sep (join sep ps)
  end.

(** [parts.join(sep)] with a separator string of any length; Papa.unparse
    joins fields and records this way. *)
Fixpoint concat_with (sep : string) (l : list string) : string :=
  match l with
  | [] => EmptyString
  | [s] => s
  | s :: l' => s +:+ sep +:+ concat_with sep l'
  end.

(** [s.slice(-1)] (ECMA-262 22.1.3.22): [from = max(len - 1, 0)],
    [to = len]. *)
Definition slice_last (s : string) : string :=
  let len := String.length s in
  let from := len - 1 in
  String.substring from (len - from) s.

(** ** parseInt (ECMA-262 19.2.5), with [radix] undefined *)

(** WhiteSpace and LineTerminator code units below 256: TAB, LF, VT, FF,
    CR, SPACE and NBSP. *)
Definition is_js_space (c : ascii) : bool :=
  let n := nat_of_ascii c in
  ((9 <=? n) && (n <=? 13)) || (n =? 32) || (n =? 160).

Fixpoint trim_start (s : string) : string :=
  match s with
  | String c s' => if is_js_space c then trim_start s' else s
  | EmptyString => EmptyString
  end.

(** Value of a character as a digit of radix up to 36. *)
Definition digit_value (c : ascii) : option Z :=
  let n := Z.of_nat (nat_of_ascii c) in
  (if (48 <=? n) && (n <=? 57) then Some (n - 48)
  else if (97 <=? n) && (n <=? 122) then Some (n - 87)
  else if (65 <=? n) && (n <=? 90) then Some (n - 55)
  else None)%Z.

Definition radix_digit (r : Z) (c : ascii) : option Z :=
  match digit_value c with
  | Some d => if (d <? r)%Z then Some d else None
  | None => None
  end.

(** Step 8-9: the digits of the longest prefix made of radix-[r] digits. *)
Fixpoint digit_prefix (r : Z) (s : string) : list Z :=
  match s with
  | String c s' =>
      match radix_digit r c with
      | Some d => d :: digit_prefix r s'
      | None => []
      end
  | EmptyString => []
  end.

(** Step 11: the mathematical value of a digit sequence. *)
Definition digits_value (r : Z) (ds : list Z) : Z :=
  fold_left (fun acc d => acc * r + d)%Z ds 0%Z.

(** Steps 3-4: the sign and its removal. *)
Definition strip_sign (s : string) : Z * string :=
  match s with
  | String c s' =>
      if ascii_dec c "-" then ((-1)%Z, s')
      else if ascii_dec c "+" then (1%Z, s')
      else (1%Z, s)
  | EmptyString => (1%Z, s)
  end.

(** Steps 5-7 with [R = 0]: a leading [0x] or [0X] selects radix 16. *)
Definition strip_prefix (s : string) : Z * string :=
  match s with
  | String z (String x s') =>
      if Ascii.eqb z "0" && (Ascii.eqb x "x" || Ascii.eqb x "X")
      then (16%Z, s') else (10%Z, s)
  | _ => (10%Z, s)
  end.

(** Steps 12-16: the Number value of [sign * mathInt].  With more than 20
    significant digits an implementation may zero the digits after the
    20th before rounding; the model rounds the exact value, as V8 does. *)
Definition parseInt (input : string) : jsnum :=
  let s := trim_start input in
  let '(sign, s) := strip_sign s in
  let '(r, s) := strip_prefix s in
  match digit_prefix r s with
  | [] => NaN
  | ds => to_number (sign * digits_value r ds)%Z
  end.

(** ** Decimal digits *)

Definition is_digit (c : ascii) : bool :=
  (48 <=? nat_of_ascii c) && (nat_of_ascii c <=? 57).

Definition digit_of (c : ascii) : Z := (Z.of_nat (nat_of_ascii c) - 48)%Z.

(** ** Lemmas *)

Lemma has_char_app c s t : has_char c (s +:+ t) = has_char c s || has_char c t.
Proof.
  induction s as [|c' s IH]; [done|]. rewrite string_app_cons. simpl.
  by destruct (ascii_dec c c').
Qed.

Lemma split_not_nil sep s : split sep s <> [].
Proof.
  induction s as [|c s IH]; simpl; [done|].
  destruct (ascii_dec c sep); [done|]. by destruct (split sep s).
Qed.

Lemma join_cons_char sep c p ps :
  join sep (String c p :: ps) = String c (join sep (p :: ps)).
Proof. by destruct ps. Qed.

Lemma join_cons_sep sep p ps :
  ps <> [] -> join sep (p :: ps) = p +:+ String sep (join sep ps).
Proof. by destruct ps. Qed.

Lemma split_no_sep sep p : has_char sep p = false -> split sep p = [p].
Proof.
  induction p as [|c p IH]; simpl; [done|].
  destruct (ascii_dec sep c), (ascii_dec c sep); subst; try done.
  intros H. by rewrite IH.
Qed.

Lemma split_app_sep sep p rest :
  has_char sep p = false ->
  split sep (p +:+ String sep rest) = p :: split sep rest.
Proof.
  induction p as [|c p IH]; simpl.
  - by destruct (ascii_dec sep sep).
  - destruct (ascii_dec sep c), (ascii_dec c sep); subst; try done.
    intros H. by rewrite IH.
Qed.

Lemma concat_with_cons sep x l :
  l <> [] -> concat_with sep (x :: l) = x +:+ sep +:+ concat_with sep l.
Proof. by destruct l. Qed.

Lemma concat_with_length sep l x :
  x ∈ l -> String.length x + (length l - 1) * String.length sep <= String.length (concat_with sep l).
Proof.
  revert x. induction l as [|y l IH]; [by intros ? ?%elem_of_nil|].
  intros x Hx. destruct l as [|z l].
  - apply list_elem_of_singleton in Hx as ->. simpl. lia.
  - rewrite concat_with_cons by done. rewrite !string_length_append.
    apply elem_of_cons in Hx as [->|Hx]; [specialize (IH z ltac:(left))|specialize (IH x Hx)];
    simpl in IH |- *; lia.
Qed.

Lemma concat_with_not_empty sep l ls :
  l <> EmptyString -> concat_with sep (l :: ls) <> EmptyString.
Proof. destruct ls; simpl; [done|]. by destruct l. Qed.

(** ** Characters a string avoids *)

(** [avoids cs l]: none of the characters [cs] occurs in [l]. *)
Definition avoids (cs : list ascii) (l : string) : bool := forallb (fun c => negb (has_char c l)) cs.

Lemma avoids_char cs l c : avoids cs l = true -> c ∈ cs -> has_char c l = false.
Proof.
  unfold avoids. rewrite forallb_forall. intros Hl Hc%list_elem_of_In.
  apply Hl in Hc. by destruct (has_char c l).
Qed.

Lemma avoids_intro cs l : (forall c, c ∈ cs -> has_char c l = false) -> avoids cs l = true.
Proof. unfold avoids. intros H. apply forallb_forall. intros c Hc%list_elem_of_In. by rewrite H. Qed.

Lemma avoids_incl cs cs' l : (forall c, c ∈ cs -> c ∈ cs') -> avoids cs' l = true -> avoids cs l = true.
Proof. intros Hsub Hl. apply avoids_intro. intros c Hc. apply (avoids_char cs'); auto. Qed.

Lemma avoids_lines_char cs ls c :
  Forall (fun l => avoids cs l = true) ls -> c ∈ cs -> Forall (fun l => has_char c l = false) ls.
Proof. intros Hls Hc. eapply Forall_impl; [done|]. intros l Hl. by apply (avoids_char cs). Qed.

Lemma has_char_concat_with c sep ls :
  has_char c sep = false -> Forall (fun l => has_char c l = false) ls ->
  has_char c (concat_with sep ls) = false.
Proof.
  intros Hsep. induction 1 as [|l ls Hl Hls IH]; [done|].
  destruct ls as [|l' ls]; [done|]. rewrite concat_with_cons by done.
  by rewrite !has_char_app, Hl, Hsep, IH.
Qed.

Lemma avoids_concat_with cs sep ls :
  avoids cs sep = true -> Forall (fun l => avoids cs l = true) ls -> avoids cs (concat_with sep ls) = true.
Proof.
  intros Hsep Hls. apply avoids_intro. intros c Hc.
  apply has_char_concat_with; [by apply (avoids_char cs)|by apply (avoids_lines_char cs)].
Qed.

Lemma avoids_app cs s t : avoids cs (s +:+ t) = avoids cs s && avoids cs t.
Proof.
  unfold avoids. induction cs as [|c cs IH]; [done|]. cbn [forallb].
  rewrite IH, has_char_app, negb_orb. by destruct (has_char c s), (has_char c t), (forallb _ cs), (forallb _ cs).
Qed.

(** [chars_in allowed s]: every character of [s] is one of [allowed]. *)
Definition chars_in (allowed : list ascii) (s : string) : bool :=
  forallb (fun c => bool_decide (c ∈ allowed)) (String.list_ascii_of_string s).

Lemma chars_in_cons a c s : chars_in a (String c s) = bool_decide (c ∈ a) && chars_in a s.
Proof. reflexivity. Qed.

Lemma chars_in_app a s t : chars_in a (s +:+ t) = chars_in a s && chars_in a t.
Proof.
  induction s as [|c s IH]; [done|]. rewrite string_app_cons, !chars_in_cons, IH.
  by rewrite andb_assoc.
Qed.

Lemma chars_in_concat a sep l :
  chars_in a sep = true -> Forall (fun x => chars_in a x = true) l -> chars_in a (String.concat sep l) = true.
Proof.
  intros Hsep. induction 1 as [|x l Hx _ IH]; [done|].
  destruct l as [|y l]; [done|]. cbn [String.concat]. rewrite !chars_in_app, Hx, Hsep. exact IH.
Qed.

(** A string made of allowed characters avoids the characters none of
    which is allowed. *)
Lemma chars_in_avoids a cs s :
  chars_in a s = true -> (forall c, c ∈ a -> c ∉ cs) -> avoids cs s = true.
Proof.
  intros Hs Hdisj. apply avoids_intro. intros c Hc. induction s as [|c' s IH]; [done|].
  rewrite chars_in_cons in Hs. apply andb_true_iff in Hs as [Hc' Hs%IH].
  cbn [has_char]. destruct (ascii_dec c c') as [<-|]; [|done].
  apply bool_decide_eq_true in Hc'. by destruct (Hdisj c Hc').
Qed.

(** ** Lemmas on Numbers *)

Lemma round_mag_small m : (0 <= m < 2 ^ 53)%Z -> round_mag m = m.
Proof.
  intros Hm. unfold round_mag.
  destruct (Z.eq_dec m 0) as [->|Hm0]; [done|].
  assert (Z.log2 m < 53)%Z by (apply Z.log2_lt_pow2; lia).
  replace (Z.log2 m - 52 <=? 0)%Z with true; [done|]. symmetry. apply Z.leb_le. lia.
Qed.

Lemma round_mag_pos m : (0 < m)%Z -> (0 < round_mag m)%Z.
Proof.
  intros Hm. unfold round_mag. destruct (Z.log2 m - 52 <=? 0)%Z eqn:He; [done|].
  apply Z.leb_gt in He. set (e := (Z.log2 m - 52)%Z).
  assert (Hq : (0 < Z.shiftr m e)%Z).
  { rewrite Z.shiftr_div_pow2 by lia. apply Z.div_str_pos. split; [lia|].
    etransitivity; [|apply (Z.log2_spec m Hm)]. apply Z.pow_le_mono_r; lia. }
  rewrite Z.shiftl_mul_pow2 by lia. apply Z.mul_pos_pos; [|lia].
  repeat case_match; lia.
Qed.

(** The significand of a rounded magnitude: between 2^52 and 2^53. *)
Lemma round_mag_significand m :
  (2 ^ 53 <= m)%Z ->
  exists q e, (0 < e)%Z /\ (2 ^ 52 <= q <= 2 ^ 53)%Z /\ round_mag m = (q * 2 ^ e)%Z.
Proof.
  intros Hm. unfold round_mag.
  assert (Hlog : (53 <= Z.log2 m)%Z) by (apply Z.log2_le_pow2; lia).
  replace (Z.log2 m - 52 <=? 0)%Z with false by (symmetry; apply Z.leb_gt; lia).
  set (e := (Z.log2 m - 52)%Z).
  destruct (Z.log2_spec m ltac:(lia)) as [Hlo Hhi].
  assert (Hq : (2 ^ 52 <= Z.shiftr m e < 2 ^ 53)%Z).
  { rewrite Z.shiftr_div_pow2 by lia. split.
    - apply Z.div_le_lower_bound; [lia|]. rewrite <- Z.pow_add_r by lia.
      replace (e + 52)%Z with (Z.log2 m) by lia. done.
    - apply Z.div_lt_upper_bound; [lia|]. rewrite <- Z.pow_add_r by lia.
      replace (e + 53)%Z with (Z.log2 m + 1)%Z by lia. done. }
  eexists _, e. split; [lia|]. rewrite Z.shiftl_mul_pow2 by lia. split; [|reflexivity].
  repeat case_match; lia.
Qed.

Lemma round_mag_exact q e :
  (0 <= e)%Z -> (2 ^ 52 <= q < 2 ^ 53)%Z -> round_mag (q * 2 ^ e) = (q * 2 ^ e)%Z.
Proof.
  intros He Hq. unfold round_mag.
  assert (Hlq : Z.log2 q = 52%Z) by (apply Z.log2_unique; lia).
  rewrite Z.log2_mul_pow2 by lia. first [replace (e + Z.log2 q - 52)%Z with e by lia | replace (Z.log2 q + e - 52)%Z with e by lia].
  cbv zeta. destruct (e <=? 0)%Z eqn:He0; [done|]. apply Z.leb_gt in He0.
  rewrite Z.shiftr_div_pow2, Z.div_mul by (lia || apply Z.pow_nonzero; lia).
  rewrite !Z.shiftl_mul_pow2 by lia. rewrite Z.sub_diag, Z.mul_1_l.
  assert (0 < 2 ^ (e - 1))%Z by (apply Z.pow_pos_nonneg; lia).
  by replace (0 <? 2 ^ (e - 1))%Z with true by (symmetry; apply Z.ltb_lt; lia).
Qed.

Lemma round_mag_idem m : (0 <= m)%Z -> round_mag (round_mag m) = round_mag m.
Proof.
  intros Hm. destruct (Z.lt_ge_cases m (2 ^ 53)) as [Hs|Hb].
  - rewrite (round_mag_small m) by lia. by rewrite (round_mag_small m) by lia.
  - destruct (round_mag_significand m Hb) as (q & e & He & Hq & ->).
    destruct (Z.eq_dec q (2 ^ 53)) as [->|Hq53].
    + replace (2 ^ 53 * 2 ^ e)%Z with (2 ^ 52 * 2 ^ (e + 1))%Z
        by (rewrite <- !Z.pow_add_r by lia; f_equal; lia).
      apply round_mag_exact; lia.
    + apply round_mag_exact; lia.
Qed.

Lemma round_mag_inf : round_mag inf_bits = inf_bits.
Proof.
  unfold inf_bits. replace (2 ^ 1024)%Z with (2 ^ 52 * 2 ^ 972)%Z by reflexivity.
  apply round_mag_exact; lia.
Qed.

(** [𝔽(z)] is a double. *)
Lemma to_number_double z : exists v, to_number z = Num v /\ is_double v = true.
Proof.
  unfold to_number, is_double. eexists. split; [reflexivity|].
  assert (0 < inf_bits)%Z by (unfold inf_bits; lia).
  assert (Habs : forall m, (0 <= m)%Z ->
    Z.abs (Z.sgn z * Z.min m inf_bits) = (if (z =? 0)%Z then 0 else Z.min m inf_bits)%Z).
  { intros m Hm. destruct (Z.lt_trichotomy z 0) as [Hz|[->|Hz]].
    - rewrite Z.sgn_neg by lia. replace (z =? 0)%Z with false by (symmetry; apply Z.eqb_neq; lia).
      rewrite Z.abs_mul, (Z.abs_eq (Z.min m inf_bits)) by lia. simpl. lia.
    - done.
    - rewrite Z.sgn_pos by lia. replace (z =? 0)%Z with false by (symmetry; apply Z.eqb_neq; lia).
      rewrite Z.mul_1_l. apply Z.abs_eq. lia. }
  assert (Hr : (0 <= round_mag (Z.abs z))%Z).
  { destruct (Z.eq_dec z 0) as [->|]; [done|]. apply Z.lt_le_incl, round_mag_pos. lia. }
  rewrite Habs by done. destruct (z =? 0)%Z; [done|].
  apply andb_true_intro. split; [apply Z.leb_le; lia|]. apply Z.eqb_eq.
  destruct (Z.min_spec (round_mag (Z.abs z)) inf_bits) as [[_ ->]|[_ ->]].
  - apply round_mag_idem. lia.
  - apply round_mag_inf.
Qed.



(** Rounding keeps the sign, and the result is at most 2^1024 in
    magnitude. *)
Lemma to_number_spec z :
  exists v, to_number z = Num v /\ (v <= 0 <-> z <= 0)%Z /\ (v = 0 <-> z = 0)%Z /\
            (Z.abs v <= inf_bits)%Z.
Proof.
  unfold to_number. eexists. split; [reflexivity|].
  assert (0 < inf_bits)%Z by (unfold inf_bits; lia).
  destruct (Z.lt_trichotomy z 0) as [Hz|[->|Hz]].
  - rewrite Z.sgn_neg, Z.abs_neq by lia.
    pose proof (round_mag_pos (- z) ltac:(lia)). split_and!; lia.
  - simpl. split_and!; lia.
  - rewrite Z.sgn_pos, Z.abs_eq by lia.
    pose proof (round_mag_pos z ltac:(lia)). split_and!; lia.
Qed.

Lemma to_number_small z : (Z.abs z < 2 ^ 53)%Z -> to_number z = Num z.
Proof.
  intros Hz. unfold to_number. rewrite round_mag_small by lia.
  rewrite Z.min_l by (unfold inf_bits; etransitivity; [apply Z.lt_le_incl, Hz|];
                      apply Z.pow_le_mono_r; lia).
  f_equal. rewrite Z.mul_comm. apply Z.abs_sgn.
Qed.

(** The two ways [round_mag] rounds a magnitude of more than 53 bits:
    down to the multiple of the spacing [B] below, when the remainder is
    under half of [B] or a tie with an even quotient, and up otherwise. *)
Lemma round_mag_cases m :
  (1 <= Z.log2 m - 52)%Z ->
  let B := (2 ^ (Z.log2 m - 52))%Z in
  (round_mag m = m / B * B /\ (2 * (m mod B) < B \/ (2 * (m mod B) = B /\ Z.even (m / B) = true)) \/
   round_mag m = (m / B + 1) * B /\ (B < 2 * (m mod B) \/ (2 * (m mod B) = B /\ Z.even (m / B) = false)))%Z.
Proof.
  intros He B. unfold round_mag. cbv zeta. destruct (Z.leb_spec (Z.log2 m - 52) 0); [lia|].
  rewrite Z.shiftr_div_pow2, !Z.shiftl_mul_pow2 by lia. fold B.
  assert (HB : (0 < B)%Z) by (apply Z.pow_pos_nonneg; lia).
  assert (Hh : (2 * (1 * 2 ^ (Z.log2 m - 52 - 1)) = B)%Z).
  { unfold B. rewrite Z.mul_1_l, <- Z.pow_succ_r by lia. f_equal. lia. }
  assert (Hr : (m - m / B * B = m mod B)%Z) by (rewrite Z.mod_eq by lia; lia).
  rewrite Hr. set (h := (1 * 2 ^ (Z.log2 m - 52 - 1))%Z) in *.
  destruct (Z.ltb_spec (m mod B) h); [left; split; [done|lia]|].
  destruct (Z.ltb_spec h (m mod B)); [right; split; [done|lia]|].
  destruct (Z.even (m / B)) eqn:Ev; [left|right]; split; auto; right; split; auto; lia.
Qed.

(** A rounded magnitude is a multiple of the spacing of its binade. *)
Lemma round_mag_mult w : (1 <= Z.log2 w - 52)%Z -> (round_mag w mod 2 ^ (Z.log2 w - 52) = 0)%Z.
Proof.
  intros He. unfold round_mag. cbv zeta. destruct (Z.leb_spec (Z.log2 w - 52) 0); [lia|].
  rewrite Z.shiftl_mul_pow2 by lia. apply Z.mod_mul. apply Z.pow_nonzero; lia.
Qed.

(** No double lies strictly between two consecutive multiples of the
    spacing [2^e] of the binade [2^(52+e), 2^(53+e)]. *)
Lemma double_not_between w q e :
  (1 <= e)%Z -> (2 ^ 52 <= q < 2 ^ 53)%Z -> is_double w = true ->
  ~ (q * 2 ^ e < w < (q + 1) * 2 ^ e)%Z.
Proof.
  intros He Hq Hw [Hlo Hhi].
  assert (HB : (0 < 2 ^ e)%Z) by (apply Z.pow_pos_nonneg; lia).
  assert (Hpos : (0 < w)%Z) by nia.
  unfold is_double in Hw. apply andb_true_iff in Hw as [_ Hw%Z.eqb_eq].
  rewrite Z.abs_eq in Hw by lia.
  assert (Hl : Z.log2 w = (52 + e)%Z).
  { apply Z.log2_unique; [lia|].
    assert (H1 : (2 ^ (52 + e) = 2 ^ 52 * 2 ^ e)%Z) by (apply Z.pow_add_r; lia).
    rewrite Z.pow_succ_r, H1 by lia. nia. }
  pose proof (round_mag_mult w ltac:(lia)) as Hm. rewrite Hw, Hl in Hm.
  replace (52 + e - 52)%Z with e in Hm by lia.
  pose proof (Z.div_mod w (2 ^ e) ltac:(lia)) as Hd. rewrite Hm, Z.add_0_r in Hd.
  set (B := (2 ^ e)%Z) in *. set (k := (w / B)%Z) in *.
  assert (q < k)%Z by (apply (Z.mul_lt_mono_pos_r B); lia).
  assert (k < q + 1)%Z by (apply (Z.mul_lt_mono_pos_r B); lia).
  lia.
Qed.

(** [round_mag m] is a double nearest to [m]; on a tie it has an even
    significand. *)
Lemma round_mag_nearest m :
  (0 < m)%Z ->
  (forall w, is_double w = true -> Z.abs (m - round_mag m) <= Z.abs (m - w))%Z /\
  (forall w, is_double w = true -> w <> round_mag m -> Z.abs (m - w) = Z.abs (m - round_mag m) ->
     Z.even (round_mag m / 2 ^ (Z.log2 m - 52)) = true)%Z.
Proof.
  intros Hm. destruct (Z.le_gt_cases (Z.log2 m - 52) 0) as [Hs|He].
  { assert (Hr : round_mag m = m) by (unfold round_mag; cbv zeta; destruct (Z.leb_spec (Z.log2 m - 52) 0); lia).
    rewrite Hr. split; [intros; lia|intros w _ Hne Heq; lia]. }
  set (B := (2 ^ (Z.log2 m - 52))%Z).
  assert (HB : (0 < B)%Z) by (apply Z.pow_pos_nonneg; lia).
  pose proof (Z.div_mod m B ltac:(lia)) as Hd. pose proof (Z.mod_pos_bound m B HB) as Hr.
  set (q := (m / B)%Z) in *. set (r := (m mod B)%Z) in *.
  assert (Hq : (2 ^ 52 <= q < 2 ^ 53)%Z).
  { destruct (Z.log2_spec m Hm) as [Hlo Hhi].
    assert (Hp : (2 ^ Z.log2 m = 2 ^ 52 * B)%Z) by (unfold B; rewrite <- Z.pow_add_r by lia; f_equal; lia).
    rewrite Z.pow_succ_r, Hp in Hhi by (apply Z.log2_nonneg). rewrite Hp in Hlo.
    split; [assert (2 ^ 52 < q + 1)%Z by (apply (Z.mul_lt_mono_pos_l B); lia); lia|].
    apply (Z.mul_lt_mono_pos_l B); lia. }
  assert (Hw : forall w, is_double w = true -> (w <= q * B \/ (q + 1) * B <= w)%Z).
  { intros w Hw. destruct (Z.le_gt_cases w (q * B)); [by left|].
    destruct (Z.le_gt_cases ((q + 1) * B) w); [by right|].
    exfalso. by apply (double_not_between w q (Z.log2 m - 52)); [lia|lia|done|]. }
  destruct (round_mag_cases m ltac:(lia)) as [[Hv Hc]|[Hv Hc]]; fold B q r in Hv, Hc; rewrite Hv.
  all: rewrite Z.mul_add_distr_r, Z.mul_1_l in *; rewrite Z.mul_comm in Hd.
  all: split; [intros w Hdw; destruct (Hw w Hdw); lia|].
  all: intros w Hdw Hne Heq; destruct (Hw w Hdw); [|]; try lia.
  all: try (rewrite Z.div_mul by lia; destruct Hc as [|[_ ?]]; [lia|done]).
  all: replace (q * B + B)%Z with ((q + 1) * B)%Z by lia; rewrite Z.div_mul by lia.
  all: destruct Hc as [|[_ Hodd]]; [lia|]. all: rewrite Z.even_add, Hodd; reflexivity.
Qed.

(** For a nonnegative integer that does not overflow, [to_number] gives a
    double nearest to it, with an even significand on a tie. *)
Lemma to_number_nearest m v :
  (0 <= m)%Z -> to_number m = Num v -> (v < inf_bits)%Z ->
  is_double v = true /\
  (forall w, is_double w = true -> Z.abs (m - v) <= Z.abs (m - w))%Z /\
  (forall w, is_double w = true -> w <> v -> Z.abs (m - w) = Z.abs (m - v) ->
     Z.even (v / 2 ^ (Z.log2 m - 52)) = true)%Z.
Proof.
  intros Hm Hv Hlt. destruct (to_number_double m) as (v' & Hv' & Hd).
  rewrite Hv in Hv'. injection Hv' as <-. split; [done|].
  destruct (Z.eq_dec m 0) as [->|Hm0].
  { vm_compute in Hv. injection Hv as <-. split; intros; lia. }
  unfold to_number in Hv. injection Hv as Hv.
  rewrite Z.abs_eq, Z.sgn_pos, Z.mul_1_l in Hv by lia.
  destruct (Z.min_spec (round_mag m) inf_bits) as [[_ Heq]|[_ Heq]]; rewrite Heq in Hv; [|lia].
  subst v. apply round_mag_nearest. lia.
Qed.

(** On Numbers that are not NaN, SortCompare of [a - b] is [<= 0] exactly
    when [a <= b]. *)
Lemma num_sub_le x y :
  (Z.abs x <= inf_bits)%Z -> (Z.abs y <= inf_bits)%Z ->
  (sort_compare_result (num_sub (Num x) (Num y)) <= 0 <-> x <= y)%Z.
Proof.
  intros Hx Hy. unfold num_sub, is_inf.
  destruct (Z.eqb_spec (Z.abs x) inf_bits) as [Hxi|Hxi].
  - destruct (Z.eqb_spec x y) as [<-|Hxy]; simpl; [lia|].
    unfold inf_bits in *. lia.
  - destruct (Z.eqb_spec (Z.abs y) inf_bits) as [Hyi|Hyi].
    + simpl. unfold inf_bits in *. lia.
    + destruct (to_number_spec (x - y)) as (v & Hv & Hle & _). cbv beta iota. rewrite Hv. simpl. lia.
Qed.

(** Whatever the two Numbers, one of [a - b] and [b - a] is [<= 0] for
    SortCompare. *)
Lemma num_sub_total x y :
  (sort_compare_result (num_sub (Num x) (Num y)) <= 0 \/
   sort_compare_result (num_sub (Num y) (Num x)) <= 0)%Z.
Proof.
  unfold num_sub, is_inf.
  destruct (to_number_spec (x - y)) as (v & Hv & Hvle & _), (to_number_spec (y - x)) as (w & Hw & Hwle & _).
  rewrite Hv, Hw.
  destruct (Z.eqb_spec (Z.abs x) inf_bits), (Z.eqb_spec (Z.abs y) inf_bits);
    repeat case_match; simpl; lia.
Qed.

#[export] Hint Resolve split_not_nil : csv.
#[export] Hint Rewrite join_cons_char split_app_sep has_char_app : csv_rw.

Lemma radix_digit_10 c :
  radix_digit 10 c = if is_digit c then Some (digit_of c) else None.
Proof.
  unfold radix_digit, digit_value, is_digit, digit_of.
  decide_comparisons; done.
Qed.

(** ** Properties of split and join *)

(** [parseInt] returns NaN or a double: an integer of at most 53
    significant bits and magnitude below 2^1024, or an infinity (magnitude
    2^1024) for digit runs too long for a double. *)
Lemma parseInt_double s :
  parseInt s = NaN \/ exists v, parseInt s = Num v /\ is_double v = true.
Proof.
  unfold parseInt. destruct (strip_sign _) as [sign t]. destruct (strip_prefix t) as [r u].
  destruct (digit_prefix r u) as [|d ds]; [by left|]. right. apply to_number_double.
Qed.

(** [split] loses nothing: joining the pieces back with the separator
    gives the original string. *)
Lemma join_split sep s : join sep (split sep s) = s.
Proof.
  induction s as [|c s IH]; [done|]. simpl.
  destruct (ascii_dec c sep) as [->|Hne].
  - rewrite join_cons_sep by apply split_not_nil. simpl. by rewrite IH.
  - destruct (split sep s) as [|p ps] eqn:E; [by apply split_not_nil in E|].
    by rewrite join_cons_char, IH.
Qed.

Lemma split_join sep l :
  l <> [] -> Forall (fun p => has_char sep p = false) l ->
  split sep (join sep l) = l.
Proof.
  induction l as [|p ps IH]; intros Hne Hl; [done|].
  apply Forall_cons in Hl as [Hp Hps].
  destruct ps as [|q qs].
  - by apply split_no_sep.
  - rewrite join_cons_sep, split_app_sep by done. by rewrite IH.
Qed.

Example parseInt_samples :
  parseInt "12a" = Num 12 /\ parseInt "  -7b" = Num (-7) /\ parseInt "0x" = NaN /\
  parseInt "0xa" = Num 10 /\ parseInt EmptyString = NaN /\ parseInt "a1" = NaN.
Proof. vm_compute. repeat split. Qed.
Example split_samples :
  split "/" "1a/10/20/30" = ["1a"; "10"; "20"; "30"] /\ split "/" EmptyString = [EmptyString] /\
  split "/" "/" = [EmptyString; EmptyString] /\ slice_last "1a" = "a" /\ slice_last EmptyString = EmptyString.
Proof. vm_compute. repeat split. Qed.
