(* ===== verification/PapaParse.v ===== *)
(** * PapaParse: [Papa.parse(file, { complete, error })] (lines 31-38)

    Papa.parse is a library the component calls, not code of this
    repository; it is written here from its documented behaviour with the
    default configuration the component leaves in place: no header row,
    no dynamic typing, empty lines kept, the quote character and the
    escape character both the double quote (code 34), the line ending guessed from the text and
    the delimiter guessed among [, TAB | ;] and the record and unit
    separators, with [,] as the fallback.  The parser proper has two
    paths: a fast one, taken when the text has no quote character, which
    splits the text at every line ending and every line at every
    delimiter; and the general loop over a cursor, which reads a quoted
    field up to its closing quote (a doubled quote inside stands for one
    quote, spaces between the closing quote and the next delimiter or line
    ending are skipped, any other text there is an [InvalidQuotes] error
    and the search for the closing quote goes on; no closing quote at all
    is a [MissingQuotes] error and the field is the rest of the text).
    With the line endings and the one-character delimiters Papa guesses,
    the two paths read the same rows of a text without a quote
    ([parse_fast_slow]), so [parse] is the loop on every non-empty text
    ([parse_reference]).

    The general loop runs on the suffix of the text after the cursor and
    is given [length + 1] units of fuel: each turn consumes a delimiter, a
    line ending or a quoted field, or ends the parse, and [papa_parse_terminates]
    shows the fuel is never exhausted.  A file is read as one chunk, which
    Papa does for files below its 10 MiB chunk size; the characters are
    the code units of the decoded text, below 256. *)

From S2P Require Import Prelude JsCore.
From Stdlib Require Import QArith.
Local Close Scope Q_scope.

Module PapaParse.

(** ** String built-ins used by the parser *)

Definition quote_char : ascii := "034".
Definition cr_char : ascii := "013".
Definition lf_char : ascii := "010".

(** [s.indexOf(pat)], with [None] for [-1]. *)
Fixpoint index_of (pat s : string) : option nat :=
  if String.prefix pat s then Some 0
  else match s with
       | EmptyString => None
       | String _ s' => S <$> index_of pat s'
       end.

(** [s.substring(0, n)] and [s.substring(n)]. *)
Fixpoint str_take (n : nat) (s : string) : string :=
  match n, s with
  | 0, _ | _, EmptyString => EmptyString
  | S n', String c s' => String c (str_take n' s')
  end.

Fixpoint str_drop (n : nat) (s : string) : string :=
  match n, s with
  | 0, _ | _, EmptyString => s
  | S n', String _ s' => str_drop n' s'
  end.

(** [s.split(sep)] for a non-empty string separator: after a match, the
    [length sep - 1] characters left of the separator are skipped. *)
Fixpoint split_go (sep : string) (skip : nat) (cur : string) (s : string) : list string :=
  match s with
  | EmptyString => [cur]
  | String c s' =>
      match skip with
      | S k => split_go sep k cur s'
      | 0 =>
          if String.prefix sep s then cur :: split_go sep (String.length sep - 1) EmptyString s'
          else split_go sep 0 (cur +:+ String c EmptyString) s'
      end
  end.

Definition split_str (sep s : string) : list string := split_go sep 0 EmptyString s.

(** [t.trim() === ''] *)
Definition blank (t : string) : bool := forallb is_js_space (String.list_ascii_of_string t).

(** [value.replace(quoteCharRegex, quoteChar)]: every doubled quote
    character, left to right, becomes one. *)
Fixpoint unescape (s : string) : string :=
  match s with
  | String c ((String c2 s'') as s') =>
      if Ascii.eqb c quote_char && Ascii.eqb c2 quote_char then String quote_char (unescape s'')
      else String c (unescape s')
  | _ => s
  end.

(** ** The parser *)

Record config := mk_config {
  delimiter : string;
  newline : string;
  preview : nat    (** [0]: no preview *)
}.

Inductive parse_error := MissingQuotes | InvalidQuotes | UndetectableDelimiter.

#[export] Instance parse_error_eq_dec : EqDecision parse_error.
Proof. solve_decision. Defined.

Record parse_result := mk_result { data : list (list string); errors : list parse_error }.

Definition no_rows : parse_result := mk_result [] [].

(** [if (preview && i >= preview) data = data.slice(0, preview)] *)
Definition take_preview {A} (n : nat) (l : list A) : list A :=
  match n with 0 => l | _ => take n l end.

(** The fast path: [input.split(newline)], each row [.split(delim)]. *)
Definition parse_fast (cfg : config) (input : string) : parse_result :=
  mk_result (take_preview (preview cfg) (split_str (delimiter cfg) <$> split_str (newline cfg) input)) [].

(** [extraSpaces(index)] on the text [t] after a closing quote: the length
    of [t.substring(0, index)] when that is non-empty and blank. *)
Definition extra_spaces (t : string) (index : option nat) : nat :=
  match index with
  | Some i => let between := str_take i t in
              if negb (String.eqb between EmptyString) && blank between then i else 0
  | None => 0
  end.

(** [checkUpTo]: [nextDelim] when there is no line ending ahead, else
    [Math.min(nextDelim, nextNewline)], which is [-1] when there is no
    delimiter ahead. *)
Definition check_up_to (nd nn : option nat) : option nat :=
  match nn, nd with
  | None, _ => nd
  | Some _, None => None
  | Some n, Some d => Some (Nat.min d n)
  end.

(** Where a quoted field ends. *)
Inductive quoted_end :=
  | QMissing                              (** no closing quote *)
  | QLast (raw : string)                  (** the closing quote ends the text *)
  | QDelim (raw : string) (rest : string) (** a delimiter follows *)
  | QNewline (raw : string) (rest : string). (** a line ending follows *)

(** The inner [for (;;)] of a quoted field: [acc] is the raw text read
    since the opening quote, [t] the text after it. *)
Fixpoint scan_quoted (delim nl : string) (acc t : string) : list parse_error * quoted_end :=
  match t with
  | EmptyString => ([MissingQuotes], QMissing)
  | String c t' =>
      if Ascii.eqb c quote_char then
        match t' with
        | EmptyString => ([], QLast acc)
        | String c2 t'' =>
            if Ascii.eqb c2 quote_char then
              scan_quoted delim nl (acc +:+ String c (String c2 EmptyString)) t''
            else
              let sp1 := extra_spaces t' (check_up_to (index_of delim t') (index_of nl t')) in
              if String.prefix delim (str_drop sp1 t') then
                ([], QDelim acc (str_drop (sp1 + String.length delim) t'))
              else
                let sp2 := extra_spaces t' (index_of nl t') in
                if String.prefix nl (str_drop sp2 t') then
                  ([], QNewline acc (str_drop (sp2 + String.length nl) t'))
                else
                  let '(es, e) := scan_quoted delim nl (acc +:+ String c EmptyString) t' in
                  (InvalidQuotes :: es, e)
        end
      else scan_quoted delim nl (acc +:+ String c EmptyString) t'
  end.

(** [if (preview && data.length >= preview)] *)
Definition preview_reached (cfg : config) (rows : list (list string)) : bool :=
  match preview cfg with 0 => false | n => n <=? length rows end.

(** The unquoted branch: [nextDelim < nextNewline] or no line ending
    ahead reads up to the delimiter ([true]); otherwise a line ending ahead
    ends the row ([false]); with neither, the loop breaks. *)
Definition next_break (nd nn : option nat) : option (bool * nat) :=
  match nd, nn with
  | Some d, None => Some (true, d)
  | Some d, Some n => if d <? n then Some (true, d) else Some (false, n)
  | None, Some n => Some (false, n)
  | None, None => None
  end.

(** [input[cursor] === quoteChar] *)
Definition starts_quoted (s : string) : option string :=
  match s with
  | String c body => if Ascii.eqb c quote_char then Some body else None
  | EmptyString => None
  end.

(** The outer [for (;;)], on the text [rest] after the cursor; [row] is the
    row being read and [rows] the rows saved so far.  [finish] pushes the
    row with its last field. *)
Fixpoint parse_slow_go (fuel : nat) (cfg : config) (row : list string)
    (rows : list (list string)) (errs : list parse_error) (rest : string) : option parse_result :=
  match fuel with
  | 0 => None
  | S fuel =>
      let delim := delimiter cfg in
      let nl := newline cfg in
      match starts_quoted rest with
      | Some body =>
          let '(es, e) := scan_quoted delim nl EmptyString body in
          match e with
          | QMissing => Some (mk_result (rows ++ [row ++ [body]]) (errs ++ es))
          | QLast raw => Some (mk_result (rows ++ [row ++ [unescape raw]]) (errs ++ es))
          | QDelim raw rest' => parse_slow_go fuel cfg (row ++ [unescape raw]) rows (errs ++ es) rest'
          | QNewline raw rest' =>
              let rows' := rows ++ [row ++ [unescape raw]] in
              if preview_reached cfg rows' then Some (mk_result rows' (errs ++ es))
              else parse_slow_go fuel cfg [] rows' (errs ++ es) rest'
          end
      | None =>
          match next_break (index_of delim rest) (index_of nl rest) with
          | Some (true, d) =>
              parse_slow_go fuel cfg (row ++ [str_take d rest]) rows errs
                (str_drop (d + String.length delim) rest)
          | Some (false, n) =>
              let rows' := rows ++ [row ++ [str_take n rest]] in
              if preview_reached cfg rows' then Some (mk_result rows' errs)
              else parse_slow_go fuel cfg [] rows' errs (str_drop (n + String.length nl) rest)
          | None => Some (mk_result (rows ++ [row ++ [rest]]) errs)
          end
      end
  end.

(** [Parser.parse(input)]: no rows for the empty text, the fast path when
    the text has no quote character, the loop otherwise. *)
Definition parse (cfg : config) (input : string) : parse_result :=
  if String.eqb input EmptyString then no_rows
  else if negb (has_char quote_char input) then parse_fast cfg input
  else default no_rows (parse_slow_go (S (String.length input)) cfg [] [] [] input).

(** ** Guessing the line ending and the delimiter *)

(** [input.replace(re, '')] with [re] matching a quote, the shortest text,
    and a quote: every quoted stretch is removed;
    an opening quote with no closing one is kept with the rest. *)
Fixpoint strip_quoted_go (open : option string) (s : string) : string :=
  match s with
  | EmptyString => default EmptyString open
  | String c s' =>
      match open with
      | None =>
          if Ascii.eqb c quote_char then strip_quoted_go (Some (String c EmptyString)) s'
          else String c (strip_quoted_go None s')
      | Some raw =>
          if Ascii.eqb c quote_char then strip_quoted_go None s'
          else strip_quoted_go (Some (raw +:+ String c EmptyString)) s'
      end
  end.

Definition first_code_unit (s : string) : option ascii :=
  match s with String c _ => Some c | EmptyString => None end.

(** [input.substring(0, 1024 * 1024)] *)
Definition first_mib (s : string) : string :=
  if (N.of_nat (String.length s) <=? 1048576)%N then s else str_take (N.to_nat 1048576) s.

(** [guessLineEndings(input, quoteChar)] *)
Definition guess_line_endings (input : string) : string :=
  let s := strip_quoted_go None (first_mib input) in
  let r := JsCore.split cr_char s in
  let n := JsCore.split lf_char s in
  let n_appears_first :=
    (1 <? length n) && (String.length (default EmptyString (head n)) <?
                        String.length (default EmptyString (head r))) in
  if (length r =? 1) || n_appears_first then String lf_char EmptyString
  else
    let num_with_n := length (filter (fun p => first_code_unit p = Some lf_char) r) in
    if length r <=? 2 * num_with_n then String cr_char (String lf_char EmptyString)
    else String cr_char EmptyString.

(** [Papa.DefaultDelimiter] and the candidates of [guessDelimiter]. *)
Definition default_delimiter : string := ",".

Definition delimiters_to_guess : list string :=
  [","; String "009"%char EmptyString; "|"; ";"; String "030"%char EmptyString; String "031"%char EmptyString].

(** The field counts of the first ten rows, parsed with [delim]: the sum
    of the changes between consecutive counts ([delta]), and the average
    count (zero when there is no row). *)
Fixpoint count_delta (prev : nat) (counts : list nat) : nat :=
  match counts with
  | [] => 0
  | c :: cs => if 0 <? c then (Nat.max c prev - Nat.min c prev) + count_delta c cs
               else count_delta prev cs
  end.

Definition delim_stats (nl delim : string) (input : string) : nat * Q :=
  let counts := length <$> data (parse (mk_config delim nl 10) input) in
  let delta := match counts with [] => 0 | c :: cs => count_delta c cs end in
  let avg := match counts with
             | [] => 0%Q
             | _ => (Z.of_nat (sum_list counts) # Pos.of_nat (length counts))%Q
             end in
  (delta, avg).

(** One turn of [guessDelimiter]'s loop: the best delimiter so far, with
    its delta and average. *)
Definition guess_step (nl input : string) (best : option (string * nat * Q)) (delim : string) :
    option (string * nat * Q) :=
  let '(delta, avg) := delim_stats nl delim input in
  let better :=
    match best with
    | None => true
    | Some (_, best_delta, max_avg) => (delta <=? best_delta) && negb (Qle_bool avg max_avg)
    end in
  if better && negb (Qle_bool avg (199 # 100)%Q) then Some (delim, delta, avg) else best.

Definition guess_delimiter (nl input : string) : option string :=
  (fun b => b.1.1) <$> fold_left (guess_step nl input) delimiters_to_guess None.

(** [ParserHandle.parse] on the whole text: guess the line ending, then the
    delimiter (falling back on [,] with an [UndetectableDelimiter] error),
    then parse. *)
Definition papa_parse (input : string) : parse_result :=
  let nl := guess_line_endings input in
  match guess_delimiter nl input with
  | Some delim => parse (mk_config delim nl 0) input
  | None =>
      let r := parse (mk_config default_delimiter nl 0) input in
      mk_result (data r) (errors r ++ [UndetectableDelimiter])
  end.

(** ** [Papa.parse(file, { complete, error })] *)

(** A selected file: its text, or a read error of the [FileReader]. *)
Inductive file := Readable (text : string) | Unreadable (msg : string).

(** The callback Papa.parse runs: [complete(result)] or [error(error)]. *)
Inductive papa_result := PapaComplete (rows : list (list string)) | PapaError (msg : string).

Definition papa_parse_file (f : file) : papa_result :=
  match f with
  | Readable text => PapaComplete (data (papa_parse text))
  | Unreadable msg => PapaError msg
  end.

(** ** Files of plain lines

    The component's input files are lines of the form [12a/10/20/30]: no
    quote, no line break, and none of the candidate delimiters inside a
    line.  These definitions state that shape; they are not code. *)

Definition lf_nl : string := String lf_char EmptyString.
Definition crlf_nl : string := String cr_char (String lf_char EmptyString).

Definition special_chars : list ascii :=
  [quote_char; cr_char; lf_char; ","%char; "009"%char; "|"%char; ";"%char; "030"%char; "031"%char].

Definition plain_line (l : string) : bool := avoids special_chars l.

(** The characters that end a line or open a quoted field, and the special
    characters but the comma: a comma-separated line of plain cells has
    none of them. *)
Definition line_chars : list ascii := [quote_char; cr_char; lf_char].

Definition table_chars : list ascii :=
  [quote_char; cr_char; lf_char; "009"%char; "|"%char; ";"%char; "030"%char; "031"%char].

(** ** Lemmas on the string built-ins *)

Ltac special_char := apply list_elem_of_In; cbn; tauto.

Lemma prefix_length (p s : string) : String.prefix p s = true -> String.length p <= String.length s.
Proof.
  revert s. induction p as [|c p IH]; intros [|c' s] H; simpl in *; try (done || lia).
  destruct (ascii_dec c c'); [|done]. specialize (IH s H). lia.
Qed.

Lemma str_drop_length n s : String.length (str_drop n s) = String.length s - n.
Proof. revert s. induction n as [|n IH]; intros [|c s]; simpl; rewrite ?IH; done. Qed.

Lemma str_take_length_le n s : String.length (str_take n s) <= n.
Proof. revert s. induction n as [|n IH]; intros [|c s]; simpl; try lia. specialize (IH s). lia. Qed.

Lemma index_of_Some pat s i :
  index_of pat s = Some i ->
  String.prefix pat (str_drop i s) = true /\ i + String.length pat <= String.length s.
Proof.
  revert i. induction s as [|c s IH]; intros i; cbn [index_of].
  - destruct (String.prefix pat EmptyString) eqn:Hp; [|intros; discriminate]. intros [= <-].
    split; [done|]. by apply prefix_length in Hp.
  - destruct (String.prefix pat (String c s)) eqn:Hp.
    + intros [= <-]. split; [done|]. by apply prefix_length in Hp.
    + destruct (index_of pat s) as [j|] eqn:Hj; [|intros; discriminate]. intros [= <-].
      destruct (IH j eq_refl) as [Hpre Hlen]. cbn [str_drop String.length]. split; [done|lia].
Qed.

Lemma index_of_lt pat s i :
  pat <> EmptyString -> index_of pat s = Some i -> i + String.length pat <= String.length s /\ 0 < String.length pat.
Proof. intros Hne [_ Hlen]%index_of_Some. destruct pat; [done|]. simpl in *. lia. Qed.

(** ** [split] with a string separator *)

Lemma prefix_nil (s : string) : String.prefix EmptyString s = true.
Proof. by destruct s. Qed.

Lemma prefix_app (p rest : string) : String.prefix p (p +:+ rest) = true.
Proof.
  induction p as [|c p IH]; [by destruct rest|].
  rewrite string_app_cons. cbn [String.prefix]. by destruct (ascii_dec c c).
Qed.

Lemma split_go_skip sep t cur rest :
  split_go sep (String.length t) cur (t +:+ rest) = split_go sep 0 cur rest.
Proof. induction t as [|c t IH]; [done|]. by rewrite string_app_cons. Qed.

Lemma split_go_sep sep cur rest :
  sep <> EmptyString -> split_go sep 0 cur (sep +:+ rest) = cur :: split_go sep 0 EmptyString rest.
Proof.
  destruct sep as [|c sep']; [done|]. intros _. rewrite string_app_cons. cbn [split_go].
  rewrite <- string_app_cons, prefix_app. cbn [String.length]. replace (S (String.length sep') - 1) with (String.length sep') by lia.
  f_equal. apply split_go_skip.
Qed.

(** A piece holding no first character of the separator is read whole. *)
Lemma split_go_app c sep cur l rest :
  has_char c l = false ->
  split_go (String c sep) 0 cur (l +:+ rest) = split_go (String c sep) 0 (cur +:+ l) rest.
Proof.
  revert cur. induction l as [|c' l IH]; intros cur Hl.
  - by rewrite string_app_nil_l, string_app_nil_r.
  - cbn [has_char] in Hl. destruct (ascii_dec c c'); [done|].
    rewrite string_app_cons. cbn [split_go String.prefix].
    destruct (ascii_dec c c'); [done|]. rewrite IH by done.
    by rewrite <- string_app_assoc, string_app_cons, string_app_nil_l.
Qed.

Lemma split_go_concat_with c sep cur l ls :
  Forall (fun l => has_char c l = false) (l :: ls) ->
  split_go (String c sep) 0 cur (concat_with (String c sep) (l :: ls)) = (cur +:+ l) :: ls.
Proof.
  revert cur l. induction ls as [|l' ls IH]; intros cur l Hls;
    apply Forall_cons in Hls as [Hl Hls].
  - rewrite <- (string_app_nil_r l) at 1. cbn [concat_with].
    rewrite split_go_app by done. by destruct (cur +:+ l).
  - rewrite concat_with_cons by done. rewrite split_go_app, split_go_sep by done.
    rewrite IH by done. by rewrite string_app_nil_l.
Qed.

(** Splitting lines joined by a separator gives the lines back. *)
Lemma split_str_concat_with c sep ls :
  ls <> [] -> Forall (fun l => has_char c l = false) ls ->
  split_str (String c sep) (concat_with (String c sep) ls) = ls.
Proof.
  destruct ls as [|l ls]; [done|]. intros _ Hls. unfold split_str.
  rewrite split_go_concat_with by done. by rewrite string_app_nil_l.
Qed.

(** With a one-character separator, [split_str] is [split]. *)
Lemma split_go_char d cur s :
  split_go (String d EmptyString) 0 cur s =
  match JsCore.split d s with p :: ps => (cur +:+ p) :: ps | [] => [cur] end.
Proof.
  revert cur. induction s as [|c s IH]; intros cur; cbn [split_go JsCore.split].
  - by rewrite string_app_nil_r.
  - cbn [String.prefix]. destruct (ascii_dec d c) as [<-|Hdc].
    + destruct (ascii_dec d d); [|done]. rewrite prefix_nil. cbn [String.length]. rewrite IH.
      destruct (JsCore.split d s) as [|p ps] eqn:E; [by apply split_not_nil in E|].
      by rewrite string_app_nil_r, string_app_nil_l.
    + destruct (ascii_dec c d); [congruence|]. rewrite IH.
      destruct (JsCore.split d s) as [|p ps] eqn:E; [by apply split_not_nil in E|].
      by rewrite <- string_app_assoc, string_app_cons, string_app_nil_l.
Qed.

Lemma split_str_char d s : split_str (String d EmptyString) s = JsCore.split d s.
Proof.
  unfold split_str. rewrite split_go_char.
  destruct (JsCore.split d s) as [|p ps] eqn:E; [by apply split_not_nil in E|]. by rewrite string_app_nil_l.
Qed.

(** ** Termination of the general loop *)

Lemma scan_quoted_rest delim nl acc t es raw r :
  scan_quoted delim nl acc t = (es, QDelim raw r) \/ scan_quoted delim nl acc t = (es, QNewline raw r) ->
  String.length r < String.length t.
Proof.
  revert acc es. induction t as [t IH] using (induction_ltof1 _ String.length); intros acc es.
  destruct t as [|c t']; [simpl; intros [H|H]; discriminate|]. simpl.
  destruct (Ascii.eqb c quote_char).
  2: { intros H. specialize (IH t' ltac:(unfold ltof; simpl; lia) _ _ H). simpl. lia. }
  destruct t' as [|c2 t'']; [intros [H|H]; discriminate|].
  destruct (Ascii.eqb c2 quote_char).
  { intros H. specialize (IH t'' ltac:(unfold ltof; simpl; lia) _ _ H). simpl. lia. }
  cbv zeta.
  destruct (String.prefix delim _).
  { intros [[= _ _ <-]|H]; [|discriminate]. rewrite str_drop_length. simpl. lia. }
  destruct (String.prefix nl _).
  { intros [H|[= _ _ <-]]; [discriminate|]. rewrite str_drop_length. simpl. lia. }
  destruct (scan_quoted _ _ _ (String c2 t'')) as [es' e] eqn:He.
  intros H. assert (Hr : scan_quoted delim nl (acc +:+ String c EmptyString) (String c2 t'') = (es', QDelim raw r) \/
                         scan_quoted delim nl (acc +:+ String c EmptyString) (String c2 t'') = (es', QNewline raw r)).
  { rewrite He. destruct H as [[= _ ->]|[= _ ->]]; auto. }
  specialize (IH (String c2 t'') ltac:(unfold ltof; simpl; lia) _ _ Hr). simpl in *. lia.
Qed.

Lemma starts_quoted_Some rest body :
  starts_quoted rest = Some body -> String.length body < String.length rest.
Proof.
  destruct rest as [|c body']; [done|]. simpl.
  destruct (Ascii.eqb c quote_char); [intros [= <-]; lia|done].
Qed.

Lemma next_break_Some nd nn b k :
  next_break nd nn = Some (b, k) -> if b then nd = Some k else nn = Some k.
Proof. destruct nd, nn; simpl; try destruct (_ <? _); by intros [= <- <-]. Qed.

(** The progress the loop makes at a delimiter or a line ending found at
    [k] in [rest]. *)
Lemma drop_after_progress (sep rest : string) k :
  sep <> EmptyString -> index_of sep rest = Some k ->
  String.length (str_drop (k + String.length sep) rest) < String.length rest.
Proof. intros Hne Hk. rewrite str_drop_length. apply index_of_lt in Hk; [lia|done]. Qed.

Section Fuel.
Context (cfg : config) (Hdelim : delimiter cfg <> EmptyString) (Hnl : newline cfg <> EmptyString).

(** Every turn of the loop consumes at least one character, so
    [length rest + 1] turns are enough, and more fuel changes nothing. *)
Lemma parse_slow_go_fuel fuel :
  forall row rows errs rest, String.length rest < fuel ->
  is_Some (parse_slow_go fuel cfg row rows errs rest) /\
  forall fuel', fuel <= fuel' ->
    parse_slow_go fuel' cfg row rows errs rest = parse_slow_go fuel cfg row rows errs rest.
Proof.
  induction fuel as [|fuel IH]; intros row rows errs rest Hlt; [lia|].
  assert (Hrec : forall row' rows' errs' rest', String.length rest' < String.length rest ->
    is_Some (parse_slow_go fuel cfg row' rows' errs' rest') /\
    forall fuel'', fuel <= fuel'' ->
      parse_slow_go fuel'' cfg row' rows' errs' rest' = parse_slow_go fuel cfg row' rows' errs' rest').
  { intros. apply IH. lia. }
  split; [|intros [|fuel'] Hle; [lia|]]; cbn [parse_slow_go].
  all: destruct (starts_quoted rest) as [body|] eqn:Hq.
  all: try (pose proof (starts_quoted_Some _ _ Hq);
            destruct (scan_quoted _ _ EmptyString body) as [es [|raw|raw rest'|raw rest']] eqn:Hs).
  all: try (destruct (next_break _ _) as [[[] k]|] eqn:Hb;
            try (pose proof (next_break_Some _ _ _ _ Hb) as Hk; simpl in Hk);
            [pose proof (drop_after_progress _ _ _ Hdelim Hk)
            |pose proof (drop_after_progress _ _ _ Hnl Hk)|]).
  all: try destruct (preview_reached _ _).
  all: try done.
  all: try (pose proof (scan_quoted_rest _ _ _ _ es raw rest' ltac:(by (left + right)))).
  all: first [apply Hrec; lia | apply (proj2 (Hrec _ _ _ _ ltac:(lia))); lia].
Qed.

End Fuel.

(** ** Reading a file of plain lines *)

Lemma plain_line_char l c :
  plain_line l = true -> c ∈ special_chars -> has_char c l = false.
Proof. apply avoids_char. Qed.

Lemma plain_lines_char ls c :
  Forall (fun l => plain_line l = true) ls -> c ∈ special_chars ->
  Forall (fun l => has_char c l = false) ls.
Proof. intros Hls Hc. eapply Forall_impl; [done|]. intros l Hl. by apply plain_line_char. Qed.

Lemma strip_quoted_go_plain s :
  has_char quote_char s = false -> strip_quoted_go None s = s.
Proof.
  induction s as [|c s IH]; [done|]. cbn [has_char strip_quoted_go].
  destruct (ascii_dec quote_char c) as [<-|Hc]; [done|]. intros Hs.
  replace (Ascii.eqb c quote_char) with false; [by rewrite IH|].
  symmetry. apply Ascii.eqb_neq. congruence.
Qed.

Lemma first_mib_small s : (N.of_nat (String.length s) <= 1048576)%N -> first_mib s = s.
Proof. unfold first_mib. intros H. by apply N.leb_le in H as ->. Qed.

Lemma crlf_app t : crlf_nl +:+ t = String cr_char (String lf_char t).
Proof. unfold crlf_nl. by rewrite !string_app_cons, string_app_nil_l. Qed.

Lemma split_cr_crlf l ls :
  Forall (fun l => has_char cr_char l = false) (l :: ls) ->
  JsCore.split cr_char (concat_with crlf_nl (l :: ls)) = l :: (String lf_char <$> ls).
Proof.
  revert l. induction ls as [|l' ls IH]; intros l Hls; apply Forall_cons in Hls as [Hl Hls].
  - by apply split_no_sep.
  - rewrite concat_with_cons, crlf_app by done. rewrite split_app_sep by done.
    cbn [JsCore.split]. rewrite IH by done. done.
Qed.

Lemma split_lf_cr l t :
  has_char lf_char l = false ->
  JsCore.split lf_char (l +:+ String cr_char (String lf_char t)) =
  (l +:+ String cr_char EmptyString) :: JsCore.split lf_char t.
Proof.
  intros Hl. rewrite <- split_app_sep by (by rewrite has_char_app, Hl).
  by rewrite <- string_app_assoc, string_app_cons, string_app_nil_l.
Qed.

Lemma filter_lf_prefixed (ls : list string) :
  filter (fun p => first_code_unit p = Some lf_char) (String lf_char <$> ls) = String lf_char <$> ls.
Proof. induction ls as [|l ls IH]; [done|]. csimpl. rewrite filter_cons_True by done. by f_equal. Qed.

(** The line ending guessed for lines with no quote and no line break. *)
Lemma guess_line_endings_lf ls :
  Forall (fun l => avoids line_chars l = true) ls ->
  (N.of_nat (String.length (concat_with lf_nl ls)) <= 1048576)%N ->
  guess_line_endings (concat_with lf_nl ls) = lf_nl.
Proof.
  intros Hls Hsize. unfold guess_line_endings. rewrite first_mib_small by done.
  rewrite strip_quoted_go_plain by (apply has_char_concat_with; [done|apply (avoids_lines_char line_chars); [done|special_char]]).
  rewrite split_no_sep; [done|]. apply has_char_concat_with; [done|].
  apply (avoids_lines_char line_chars); [done|special_char].
Qed.

Lemma guess_line_endings_crlf l ls :
  ls <> [] -> Forall (fun l => avoids line_chars l = true) (l :: ls) ->
  (N.of_nat (String.length (concat_with crlf_nl (l :: ls))) <= 1048576)%N ->
  guess_line_endings (concat_with crlf_nl (l :: ls)) = crlf_nl.
Proof.
  intros Hne Hls Hsize. unfold guess_line_endings. rewrite first_mib_small by done.
  rewrite strip_quoted_go_plain by (apply has_char_concat_with; [done|apply (avoids_lines_char line_chars); [done|special_char]]).
  rewrite split_cr_crlf by (apply (avoids_lines_char line_chars); [done|special_char]).
  destruct ls as [|l' ls]; [done|].
  pose proof (avoids_lines_char _ _ lf_char Hls ltac:(special_char)) as Hlf.
  apply Forall_cons in Hlf as [Hl_lf _].
  rewrite concat_with_cons, crlf_app by done. rewrite split_lf_cr by done.
  cbn [head default id]. rewrite string_length_append.
  assert (Hfirst : first_code_unit l <> Some lf_char).
  { destruct l as [|c l]; [done|]. cbn [has_char] in Hl_lf. simpl.
    destruct (ascii_dec lf_char c); [done|congruence]. }
  rewrite filter_cons_False by done.
  rewrite filter_lf_prefixed.
  cbn [length String.length]. rewrite !length_fmap. cbn [length]. decide_comparisons; reflexivity.
Qed.

Lemma plain_lines_avoid ls :
  Forall (fun l => plain_line l = true) ls -> Forall (fun l => avoids line_chars l = true) ls.
Proof.
  intros Hls. eapply Forall_impl; [done|]. intros l. apply avoids_incl.
  intros c Hc. revert Hc. rewrite !list_elem_of_In. cbn. tauto.
Qed.

(** The line separators Papa guesses for such a file. *)
Definition line_separator (nl : string) : Prop := nl = lf_nl \/ nl = crlf_nl.

Lemma line_separator_shape nl :
  line_separator nl -> exists c sep, nl = String c sep /\ c ∈ special_chars /\
                                     has_char quote_char nl = false.
Proof.
  intros [-> | ->]; [exists lf_char, EmptyString | exists cr_char, (String lf_char EmptyString)];
    (split; [done|split; [special_char|reflexivity]]).
Qed.

(** On a text without a quote, lines with no first character of the line
    ending are the rows of [parse], each split at the delimiter. *)
Lemma parse_lines delim c sep p ls :
  has_char quote_char (String c sep) = false -> ls <> [] ->
  Forall (fun l => has_char c l = false) ls -> Forall (fun l => has_char quote_char l = false) ls ->
  concat_with (String c sep) ls <> EmptyString ->
  parse (mk_config delim (String c sep) p) (concat_with (String c sep) ls) =
  mk_result (take_preview p (split_str delim <$> ls)) [].
Proof.
  intros Hsep Hne Hc Hq Htext. unfold parse.
  destruct (String.eqb_spec (concat_with (String c sep) ls) EmptyString); [done|].
  rewrite has_char_concat_with by done.
  unfold parse_fast. cbn [delimiter newline preview negb].
  by rewrite split_str_concat_with by done.
Qed.

Lemma parse_plain d c sep p ls :
  d ∈ special_chars -> c ∈ special_chars -> has_char quote_char (String c sep) = false ->
  ls <> [] -> Forall (fun l => plain_line l = true) ls ->
  concat_with (String c sep) ls <> EmptyString ->
  parse (mk_config (String d EmptyString) (String c sep) p) (concat_with (String c sep) ls) =
  mk_result (take_preview p ((fun l => [l]) <$> ls)) [].
Proof.
  intros Hd Hc Hsep Hne Hls Htext.
  rewrite parse_lines by (done || apply plain_lines_char; (done || special_char)).
  do 2 f_equal. apply list_fmap_ext. intros i l Hi.
  rewrite split_str_char. apply split_no_sep.
  apply (plain_line_char l); [|done]. rewrite Forall_lookup in Hls. by apply (Hls i).
Qed.

(** ** Counting the fields of the preview rows *)

Lemma count_delta_const n l : Forall (fun m => m = n) l -> count_delta n l = 0.
Proof.
  induction 1 as [|m l -> _ IH]; [done|]. cbn [count_delta].
  rewrite IH, Nat.max_id, Nat.min_id, Nat.sub_diag. by destruct (0 <? n).
Qed.

Lemma sum_list_const n l : Forall (fun m => m = n) l -> sum_list l = n * length l.
Proof. induction 1 as [|m l -> _ IH]; cbn; [lia|]. rewrite IH. lia. Qed.

Lemma Qle_bool_frac a b k :
  0 < k -> Qle_bool (Z.of_nat a # Pos.of_nat k)%Q (Z.of_nat b # Pos.of_nat k)%Q = (a <=? b).
Proof.
  intros Hk. destruct k as [|k]; [lia|]. unfold Qle_bool. cbn [Qnum Qden].
  rewrite <- Pos.of_nat_succ, Zpos_P_of_succ_nat.
  destruct (Nat.leb_spec a b); [apply Z.leb_le|apply Z.leb_gt]; nia.
Qed.

(** An average of [n] fields per row passes the [1.99] threshold exactly
    when [n] is at least two. *)
Lemma Qle_bool_threshold n k :
  0 < k -> Qle_bool (Z.of_nat (n * k) # Pos.of_nat k)%Q (199 # 100)%Q = (n <=? 1).
Proof.
  intros Hk. destruct k as [|k]; [lia|]. unfold Qle_bool. cbn [Qnum Qden].
  rewrite <- Pos.of_nat_succ, Zpos_P_of_succ_nat.
  destruct (Nat.leb_spec n 1); [apply Z.leb_le|apply Z.leb_gt]; nia.
Qed.

(** When every preview row has [n] fields, the delta is zero and the
    average is [n]. *)
Lemma delim_stats_uniform nl delim input n :
  data (parse (mk_config delim nl 10) input) <> [] ->
  Forall (fun r => length r = n) (data (parse (mk_config delim nl 10) input)) ->
  delim_stats nl delim input =
  (0, (Z.of_nat (n * length (data (parse (mk_config delim nl 10) input))) #
       Pos.of_nat (length (data (parse (mk_config delim nl 10) input))))%Q).
Proof.
  unfold delim_stats. destruct (data _) as [|r rs]; [done|]. intros _ Hn.
  assert (Hc : Forall (fun m => m = n) (length <$> r :: rs)) by (apply Forall_fmap; exact Hn).
  rewrite sum_list_const with (n := n) by done. rewrite fmap_cons in Hc |- *.
  inversion Hc as [|? ? Hr Hrs]; subst n. rewrite count_delta_const by done.
  cbn [length]. by rewrite length_fmap.
Qed.

(** A candidate whose rows have no more fields than the best one's, and
    no larger delta, does not replace it. *)
Lemma guess_step_keep nl input (b : string) d m m' k :
  0 < k -> m' <= m ->
  delim_stats nl d input = (0, (Z.of_nat m' # Pos.of_nat k)%Q) ->
  guess_step nl input (Some (b, 0, (Z.of_nat m # Pos.of_nat k)%Q)) d =
  Some (b, 0, (Z.of_nat m # Pos.of_nat k)%Q).
Proof.
  intros Hk Hm Hd. unfold guess_step. rewrite Hd. cbn [Nat.leb andb].
  rewrite Qle_bool_frac by done. by destruct (Nat.leb_spec m' m); [|lia].
Qed.

Lemma guess_delimiter_plain c sep ls :
  c ∈ special_chars -> has_char quote_char (String c sep) = false ->
  ls <> [] -> Forall (fun l => plain_line l = true) ls ->
  concat_with (String c sep) ls <> EmptyString ->
  guess_delimiter (String c sep) (concat_with (String c sep) ls) = None.
Proof.
  intros Hc Hsep Hne Hls Htext. unfold guess_delimiter.
  assert (Hstep : forall d, d ∈ special_chars ->
    guess_step (String c sep) (concat_with (String c sep) ls) None (String d EmptyString) = None).
  { intros d Hd. unfold guess_step.
    rewrite (delim_stats_uniform _ _ _ 1); rewrite parse_plain by done; cbn [data take_preview].
    - rewrite Qle_bool_threshold; [done|]. rewrite length_take, length_fmap. destruct ls; [done|cbn; lia].
    - destruct ls; [done|]. rewrite fmap_cons. discriminate.
    - apply Forall_take, Forall_fmap, Forall_true. done. }
  unfold delimiters_to_guess. cbn [fold_left].
  rewrite !Hstep by special_char. done.
Qed.

Lemma papa_parse_plain_sep c sep ls :
  c ∈ special_chars -> has_char quote_char (String c sep) = false ->
  guess_line_endings (concat_with (String c sep) ls) = String c sep ->
  ls <> [] -> Forall (fun l => plain_line l = true) ls ->
  concat_with (String c sep) ls <> EmptyString ->
  papa_parse (concat_with (String c sep) ls) = mk_result ((fun l => [l]) <$> ls) [UndetectableDelimiter].
Proof.
  intros Hc Hsep Hguess Hne Hls Htext. unfold papa_parse. rewrite Hguess.
  rewrite guess_delimiter_plain by done. unfold default_delimiter.
  by rewrite parse_plain by (done || special_char).
Qed.

(** Papa.parse reads a file of plain lines, separated by LF or CRLF and
    below 1 MiB, as one single-field row per line; it cannot detect a
    delimiter in such a file and says so. *)
Lemma papa_parse_plain nl ls :
  line_separator nl -> ls <> [] -> Forall (fun l => plain_line l = true) ls ->
  concat_with nl ls <> EmptyString ->
  (N.of_nat (String.length (concat_with nl ls)) <= 1048576)%N ->
  papa_parse (concat_with nl ls) = mk_result ((fun l => [l]) <$> ls) [UndetectableDelimiter].
Proof.
  intros [-> | ->] Hne Hls Htext Hsize; pose proof (plain_lines_avoid _ Hls) as Hline.
  - apply papa_parse_plain_sep; (done || special_char || by apply guess_line_endings_lf).
  - destruct ls as [|l [|l' ls]]; [done| |].
    + change (concat_with crlf_nl [l]) with (concat_with lf_nl [l]) in *.
      apply papa_parse_plain_sep; (done || special_char || by apply guess_line_endings_lf).
    + apply papa_parse_plain_sep; (done || special_char || by apply guess_line_endings_crlf).
Qed.

(** A line separator after the last line is an empty last line. *)
Lemma concat_with_terminated sep ls :
  ls <> [] -> concat_with sep ls +:+ sep = concat_with sep (ls ++ [EmptyString]).
Proof.
  induction ls as [|l ls IH]; [done|]. intros _.
  destruct ls as [|l' ls]; simpl; [by rewrite string_app_nil_r|].
  rewrite <- !string_app_assoc. f_equal. f_equal. by apply IH.
Qed.

(** With a line break after the last line, Papa.parse delivers one more
    row: a single empty field. *)
Lemma papa_parse_plain_terminated nl ls :
  line_separator nl -> ls <> [] -> Forall (fun l => plain_line l = true) ls ->
  (N.of_nat (String.length (concat_with nl ls +:+ nl)) <= 1048576)%N ->
  papa_parse (concat_with nl ls +:+ nl) =
  mk_result (((fun l => [l]) <$> ls) ++ [[EmptyString]]) [UndetectableDelimiter].
Proof.
  intros Hnl Hne Hls Hsize.
  assert (Hnonempty : concat_with nl ls +:+ nl <> EmptyString).
  { intros H. apply (f_equal String.length) in H. rewrite string_length_append in H.
    destruct Hnl as [-> | ->]; simpl in H; lia. }
  rewrite concat_with_terminated in * by done.
  rewrite papa_parse_plain; [by rewrite fmap_app|done| | |done|done].
  - by destruct ls.
  - apply Forall_app. split; [done|]. by repeat constructor.
Qed.

(** ** Reading a comma-separated table

    A file whose lines are rows of plain cells joined by commas, every
    row with the same number [n >= 2] of cells: the text the spec's input
    boundary describes, and the text Papa.unparse writes for cells without
    special characters. *)

Definition table_text (nl : string) (rows : list (list string)) : string :=
  concat_with nl (concat_with "," <$> rows).

(** Papa guesses a line separator that joins the lines into the same text:
    [nl] itself, or LF for a single line. *)
Lemma guess_line_endings_sep nl ls :
  line_separator nl -> ls <> [] -> Forall (fun l => avoids line_chars l = true) ls ->
  (N.of_nat (String.length (concat_with nl ls)) <= 1048576)%N ->
  exists nl', line_separator nl' /\ concat_with nl ls = concat_with nl' ls /\
              guess_line_endings (concat_with nl' ls) = nl'.
Proof.
  intros [-> | ->] Hne Hls Hsize.
  - exists lf_nl. split_and!; [by left|done|by apply guess_line_endings_lf].
  - destruct ls as [|l [|l' ls]]; [done| |].
    + exists lf_nl. split_and!; [by left|done|by apply guess_line_endings_lf].
    + exists crlf_nl. split_and!; [by right|done|by apply guess_line_endings_crlf].
Qed.

Lemma table_lines_avoid rows :
  Forall (fun r => Forall (fun x => plain_line x = true) r) rows ->
  Forall (fun l => avoids table_chars l = true) (concat_with "," <$> rows).
Proof.
  intros Hrows. apply Forall_fmap. eapply Forall_impl; [exact Hrows|]. intros r Hr.
  apply avoids_concat_with; [reflexivity|]. eapply Forall_impl; [exact Hr|]. intros x.
  apply avoids_incl. intros c. rewrite !list_elem_of_In. cbn. tauto.
Qed.

Lemma table_text_not_empty nl rows n :
  rows <> [] -> 2 <= n -> Forall (fun r => length r = n) rows -> table_text nl rows <> EmptyString.
Proof.
  intros Hne Hn Hrows. destruct rows as [|r rows]; [done|]. inversion Hrows as [|? ? Hr _]; subst n.
  unfold table_text. rewrite fmap_cons. apply concat_with_not_empty.
  destruct r as [|c1 [|c2 r']]; cbn in Hn; [lia|lia|]. cbn [concat_with]. by destruct c1.
Qed.

Lemma parse_table delim c sep p rows :
  c ∈ table_chars -> has_char quote_char (String c sep) = false -> rows <> [] ->
  Forall (fun r => Forall (fun x => plain_line x = true) r) rows ->
  table_text (String c sep) rows <> EmptyString ->
  parse (mk_config delim (String c sep) p) (table_text (String c sep) rows) =
  mk_result (take_preview p (split_str delim <$> (concat_with "," <$> rows))) [].
Proof.
  intros Hc Hsep Hne Hrows Htext. pose proof (table_lines_avoid _ Hrows) as Hl.
  apply parse_lines; try done; [by destruct rows| |]; apply (avoids_lines_char table_chars); try done.
  special_char.
Qed.

Lemma rows_not_nil rows n :
  1 <= n -> Forall (fun r : list string => length r = n) rows -> Forall (fun r => r <> []) rows.
Proof. intros Hn Hrows. eapply Forall_impl; [exact Hrows|]. intros [|x r] Hr; [cbn in Hr; lia|done]. Qed.

Lemma split_table_comma rows :
  Forall (fun r => r <> [] /\ Forall (fun x => plain_line x = true) r) rows ->
  split_str "," <$> (concat_with "," <$> rows) = rows.
Proof.
  induction 1 as [|r rows [Hne Hr] _ IH]; [done|]. rewrite !fmap_cons, IH.
  f_equal. apply split_str_concat_with; [done|]. apply plain_lines_char; [done|special_char].
Qed.

Lemma split_table_other d rows :
  d ∈ table_chars -> Forall (fun r => Forall (fun x => plain_line x = true) r) rows ->
  split_str (String d EmptyString) <$> (concat_with "," <$> rows) = (fun l => [l]) <$> (concat_with "," <$> rows).
Proof.
  intros Hd Hrows. pose proof (avoids_lines_char _ _ d (table_lines_avoid _ Hrows) Hd) as Hl.
  induction Hl as [|l ls Hl _ IH]; [done|]. rewrite !fmap_cons, IH, split_str_char.
  by rewrite split_no_sep.
Qed.

(** Papa guesses the comma for a table of [n >= 2] columns: the comma
    gives [n] fields per row, above the threshold, and every other
    candidate one field per row. *)
Lemma guess_delimiter_table c sep rows n :
  c ∈ table_chars -> has_char quote_char (String c sep) = false -> rows <> [] -> 2 <= n ->
  Forall (fun r => length r = n /\ Forall (fun x => plain_line x = true) r) rows ->
  guess_delimiter (String c sep) (table_text (String c sep) rows) = Some ",".
Proof.
  intros Hc Hsep Hne Hn Hrows.
  apply Forall_and in Hrows as [Hlen Hplain].
  pose proof (table_text_not_empty (String c sep) _ _ Hne Hn Hlen) as Htext.
  assert (Hk : 0 < length (take 10 rows)) by (rewrite length_take; destruct rows; [done|cbn; lia]).
  assert (Hcomma : delim_stats (String c sep) "," (table_text (String c sep) rows) =
                   (0, (Z.of_nat (n * length (take 10 rows)) # Pos.of_nat (length (take 10 rows)))%Q)).
  { rewrite (delim_stats_uniform _ _ _ n); rewrite parse_table by done; cbn [take_preview data];
      rewrite split_table_comma by (apply Forall_and; split; [by apply (rows_not_nil _ n); [lia|]|done]);
      [done|by destruct rows|by apply Forall_take]. }
  assert (Hother : forall d, d ∈ table_chars ->
            delim_stats (String c sep) (String d EmptyString) (table_text (String c sep) rows) =
            (0, (Z.of_nat (1 * length (take 10 rows)) # Pos.of_nat (length (take 10 rows)))%Q)).
  { intros d Hd. rewrite (delim_stats_uniform _ _ _ 1); rewrite parse_table by done;
      cbn [take_preview data]; rewrite split_table_other by done.
    - by rewrite length_take, !length_fmap, <- length_take.
    - destruct rows; [done|]. rewrite !fmap_cons. discriminate.
    - apply Forall_take, Forall_fmap, Forall_fmap, Forall_true. done. }
  unfold guess_delimiter, delimiters_to_guess. cbn [fold_left].
  unfold guess_step at 6. rewrite Hcomma. cbn [andb].
  rewrite Qle_bool_threshold by done. destruct (Nat.leb_spec n 1); [lia|]. cbn [negb andb].
  rewrite !(guess_step_keep _ _ _ _ _ (1 * length (take 10 rows))); try (done || nia);
    apply Hother; special_char.
Qed.

(** Papa.parse reads such a table back, with no error. *)
Lemma papa_parse_table nl rows n :
  line_separator nl -> rows <> [] -> 2 <= n ->
  Forall (fun r => length r = n /\ Forall (fun x => plain_line x = true) r) rows ->
  (N.of_nat (String.length (table_text nl rows)) <= 1048576)%N ->
  papa_parse (table_text nl rows) = mk_result rows [].
Proof.
  intros Hnl Hne Hn Hrows Hsize. pose proof Hrows as Hrows'.
  apply Forall_and in Hrows' as [Hlen Hplain].
  destruct (guess_line_endings_sep nl (concat_with "," <$> rows)) as (nl' & Hnl' & Heq & Hguess);
    try done; [by destruct rows| |].
  { eapply Forall_impl; [exact (table_lines_avoid _ Hplain)|]. intros l.
    apply avoids_incl. intros c. rewrite !list_elem_of_In. cbn. tauto. }
  unfold table_text in *. rewrite Heq in Hsize |- *. fold (table_text nl' rows) in *.
  clear nl Hnl Heq. rename nl' into nl, Hnl' into Hnl.
  destruct (line_separator_shape nl Hnl) as (c & sep & -> & _ & Hsep).
  assert (Hc : c ∈ table_chars) by (destruct Hnl as [Hnl|Hnl]; injection Hnl as -> _; special_char).
  unfold papa_parse. rewrite Hguess, (guess_delimiter_table c sep rows n) by done.
  rewrite parse_table by (done || by eapply table_text_not_empty). cbn [take_preview].
  rewrite split_table_comma; [done|]. apply Forall_and. split; [|done].
  by apply (rows_not_nil _ n); [lia|].
Qed.

(** ** Every row has a field *)

Lemma split_go_not_nil sep skip cur s : split_go sep skip cur s <> [].
Proof.
  revert skip cur. induction s as [|c s IH]; intros [|k] cur; cbn [split_go]; try done.
  destruct (String.prefix sep (String c s)); [done|apply IH].
Qed.

Lemma parse_slow_go_rows fuel cfg row rows errs rest r :
  parse_slow_go fuel cfg row rows errs rest = Some r ->
  Forall (fun x => x <> []) rows -> Forall (fun x => x <> []) (data r).
Proof.
  revert row rows errs rest. induction fuel as [|fuel IH]; intros row rows errs rest; [done|].
  cbn [parse_slow_go]. intros Hr Hrows.
  assert (Hpush : forall x, Forall (fun x => x <> []) (rows ++ [row ++ [x]])).
  { intros x. apply Forall_app; split; [done|]. constructor; [|done]. by destruct row. }
  destruct (starts_quoted rest) as [body|].
  - destruct (scan_quoted _ _ _ _) as [es [|raw|raw rest'|raw rest']].
    + injection Hr as <-; apply Hpush.
    + injection Hr as <-; apply Hpush.
    + by eapply IH.
    + destruct (preview_reached _ _); [injection Hr as <-; apply Hpush|by eapply IH].
  - destruct (next_break _ _) as [[[] k]|].
    + by eapply IH.
    + destruct (preview_reached _ _); [injection Hr as <-; apply Hpush|by eapply IH].
    + injection Hr as <-; apply Hpush.
Qed.

Lemma parse_rows cfg input : Forall (fun x => x <> []) (data (parse cfg input)).
Proof.
  unfold parse. destruct (String.eqb _ _); [constructor|].
  destruct (negb _).
  - cbn [parse_fast data]. destruct (preview cfg); [|apply Forall_take];
      apply Forall_fmap, Forall_forall; intros ??; apply split_go_not_nil.
  - destruct (parse_slow_go _ _ _ _ _ _) as [r|] eqn:E; [|constructor].
    by eapply parse_slow_go_rows.
Qed.

(** Papa.parse never delivers a row without a field. *)
Lemma papa_parse_rows input : Forall (fun x => x <> []) (data (papa_parse input)).
Proof. unfold papa_parse. destruct (guess_delimiter _ _); apply parse_rows. Qed.

(** ** The configuration Papa guesses *)

Lemma guess_line_endings_not_empty input : guess_line_endings input <> EmptyString.
Proof. unfold guess_line_endings. repeat case_match; discriminate. Qed.

Lemma guess_step_Forall (P : string -> Prop) nl input ds best b :
  Forall P ds -> (forall b', best = Some b' -> P b'.1.1) ->
  fold_left (guess_step nl input) ds best = Some b -> P b.1.1.
Proof.
  intros Hds. revert best. induction Hds as [|d ds Hd Hds IH]; intros best Hbest; [by apply Hbest|].
  simpl. apply IH. unfold guess_step. destruct (delim_stats nl d input) as [delta avg].
  case_match; [|apply Hbest]. by intros b' [= <-].
Qed.

(** The guessed delimiter is one of the candidates. *)
Lemma guess_delimiter_in nl input d :
  guess_delimiter nl input = Some d -> d ∈ delimiters_to_guess.
Proof.
  unfold guess_delimiter. destruct (fold_left _ _ _) as [b|] eqn:E; [|done].
  intros [= <-]. apply (guess_step_Forall (.∈ delimiters_to_guess) nl input delimiters_to_guess None b); [|done|exact E].
  by apply Forall_forall.
Qed.

Lemma guess_delimiter_not_empty nl input d :
  guess_delimiter nl input = Some d -> d <> EmptyString.
Proof. intros Hd%guess_delimiter_in ->. revert Hd. rewrite list_elem_of_In. cbn. intuition discriminate. Qed.

(** The configuration [papa_parse] parses with. *)
Definition papa_config (input : string) : config :=
  let nl := guess_line_endings input in
  mk_config (default default_delimiter (guess_delimiter nl input)) nl 0.

(** The general loop, run on any text with the line ending and delimiter
    Papa guesses for it, returns within [length + 1] turns, and with any
    more fuel it returns the same rows. *)
Lemma papa_parse_terminates input :
  exists r, parse_slow_go (S (String.length input)) (papa_config input) [] [] [] input = Some r /\
  forall fuel, String.length input < fuel ->
    parse_slow_go fuel (papa_config input) [] [] [] input = Some r.
Proof.
  assert (Hd : delimiter (papa_config input) <> EmptyString).
  { simpl. destruct (guess_delimiter _ _) eqn:E; [by eapply guess_delimiter_not_empty|done]. }
  pose proof (guess_line_endings_not_empty input) as Hnl.
  destruct (parse_slow_go_fuel (papa_config input) Hd Hnl (S (String.length input)) [] [] [] input
              ltac:(lia)) as [[r Hr] Hmono].
  exists r. split; [done|]. intros fuel Hfuel. rewrite Hmono; [done|lia].
Qed.

Lemma papa_parse_data input : data (papa_parse input) = data (parse (papa_config input) input).
Proof. unfold papa_parse, papa_config. by destruct (guess_delimiter _ _). Qed.

Lemma parse_quoted cfg input :
  has_char quote_char input = true ->
  parse cfg input = default no_rows (parse_slow_go (S (String.length input)) cfg [] [] [] input).
Proof.
  unfold parse. intros Hq. destruct input as [|c s]; [discriminate|].
  cbn [String.eqb]. by rewrite Hq.
Qed.

(** ** The fast path and the general loop

    On a text without a quote the fast path splits at every line ending
    and every delimiter; the general loop, run on the same text, reads the
    same rows.  The invariant [parse_slow_go_unquoted] carries the rows read
    so far and the row being read. *)
Lemma str_take_drop n s : str_take n s +:+ str_drop n s = s.
Proof.
  revert s. induction n as [|n IH]; intros [|c s]; cbn [str_take str_drop];
    rewrite ?string_app_nil_l, ?string_app_cons, ?IH; done.
Qed.

Lemma str_drop_add m n s : str_drop (m + n) s = str_drop n (str_drop m s).
Proof. revert s. induction m as [|m IH]; intros [|c s]; simpl; rewrite ?IH; by try destruct n. Qed.

Lemma prefix_split p t : String.prefix p t = true -> t = p +:+ str_drop (String.length p) t.
Proof.
  revert t. induction p as [|c p IH]; intros [|c' t]; cbn [String.prefix]; try done.
  destruct (ascii_dec c c') as [<-|]; [|done]. intros H. cbn [str_drop String.length]. by rewrite string_app_cons, <- IH.
Qed.

(** A match found at [k] splits the text around it. *)
Lemma index_of_split pat s k :
  index_of pat s = Some k -> s = str_take k s +:+ pat +:+ str_drop (k + String.length pat) s.
Proof.
  intros [Hp _]%index_of_Some. rewrite str_drop_add, <- (prefix_split _ _ Hp).
  by rewrite str_take_drop.
Qed.

Lemma has_char_drop c n s : has_char c s = false -> has_char c (str_drop n s) = false.
Proof. rewrite <- (str_take_drop n s) at 1. rewrite has_char_app. by intros [_ ?]%orb_false_iff. Qed.

(** [below o n]: no match before [n], for the result [o] of [indexOf]. *)
Definition below (o : option nat) (n : nat) : Prop :=
  match o with Some k => n <= k | None => True end.

Lemma index_of_below pat s n :
  below (index_of pat s) n -> forall i, i < n -> String.prefix pat (str_drop i s) = false.
Proof.
  revert n. induction s as [|c s IH]; intros n; cbn [index_of];
    destruct (String.prefix pat _) eqn:Hp; cbn [below]; try lia.
  - intros _ [|i] _; exact Hp.
  - intros Hb [|i] Hi; [exact Hp|]. cbn [str_drop]. apply (IH (n - 1)); [|lia].
    destruct (index_of pat s); cbn in *; [lia|done].
Qed.

Lemma has_char_take d s n :
  (forall i, i < n -> String.prefix (String d EmptyString) (str_drop i s) = false) ->
  has_char d (str_take n s) = false.
Proof.
  revert n. induction s as [|c s IH]; intros [|n] H; try done. cbn.
  specialize (H 0 ltac:(lia)) as H0. cbn in H0. destruct (ascii_dec d c); [by rewrite prefix_nil in H0|].
  apply IH. intros i Hi. apply (H (S i)). lia.
Qed.

(** Text holding no match of the separator is read into the current piece. *)
Lemma split_go_no_match sep cur a r :
  (forall i, i < String.length a -> String.prefix sep (str_drop i (a +:+ r)) = false) ->
  split_go sep 0 cur (a +:+ r) = split_go sep 0 (cur +:+ a) r.
Proof.
  revert cur. induction a as [|c a IH]; intros cur H.
  - by rewrite string_app_nil_l, string_app_nil_r.
  - pose proof (H 0 ltac:(cbn; lia)) as H0. rewrite string_app_cons in H0 |- *.
    cbn [split_go str_drop] in H0 |- *. rewrite H0, IH; [by rewrite <- string_app_assoc, string_app_cons, string_app_nil_l|].
    intros i Hi. apply (H (S i)). cbn. lia.
Qed.

Lemma split_go_cur sep skip cur s :
  split_go sep skip cur s =
  match split_go sep skip EmptyString s with x :: xs => (cur +:+ x) :: xs | [] => [cur] end.
Proof.
  revert skip cur. induction s as [|c s IH]; intros [|skip] cur; cbn [split_go];
    try by rewrite string_app_nil_r.
  2: apply IH.
  destruct (String.prefix sep _); [by rewrite string_app_nil_r|].
  rewrite string_app_nil_l, (IH 0 (cur +:+ _)), (IH 0 (String c EmptyString)).
  destruct (split_go sep 0 EmptyString s); [done|]. by rewrite string_app_assoc.
Qed.

Lemma next_break_below nd nn b k : next_break nd nn = Some (b, k) -> below nd k /\ below nn k.
Proof.
  destruct nd as [d|], nn as [n|]; cbn [next_break]; try destruct (Nat.ltb_spec d n); intros; simplify_eq;
    cbn [below]; split; (done || lia).
Qed.

Lemma next_break_None nd nn : next_break nd nn = None -> nd = None /\ nn = None.
Proof. destruct nd, nn; cbn [next_break]; try destruct (_ <? _); naive_solver. Qed.

Lemma starts_quoted_None s : has_char quote_char s = false -> starts_quoted s = None.
Proof. destruct s as [|c s]; [done|]. cbn. destruct (ascii_dec quote_char c) as [<-|]; [done|].
  intros _. destruct (Ascii.eqb_spec c quote_char); congruence. Qed.

Lemma str_take_all s : str_take (String.length s) s = s.
Proof. induction s as [|c s IH]; cbn; by rewrite ?IH. Qed.

Section FastPath.
Context (cfg : config) (d c : ascii) (sep : string).
Hypothesis Hd : delimiter cfg = String d EmptyString.
Hypothesis Hnl : newline cfg = String c sep.
Hypothesis Hcd : c <> d.
Hypothesis Hp : preview cfg = 0.

(** On text without a quote the general loop reads, from the current row
    [row] on, the rows the fast path splits the rest of the text into. *)
Lemma parse_slow_go_unquoted fuel : forall row rows errs rest,
  has_char quote_char rest = false -> String.length rest < fuel ->
  parse_slow_go fuel cfg row rows errs rest =
  Some (mk_result (rows ++ match split_str (delimiter cfg) <$> split_str (newline cfg) rest with
                           | r :: rs => (row ++ r) :: rs | [] => [row] end) errs).
Proof.
  induction fuel as [|fuel IH]; intros row rows errs rest Hq Hlt; [lia|].
  cbn [parse_slow_go]. rewrite starts_quoted_None by done. rewrite Hd, Hnl in *.
  change (split_str (String c sep)) with (split_go (String c sep) 0 EmptyString).
  destruct (next_break _ _) as [[[] k]|] eqn:Hb.
  3: { apply next_break_None in Hb as [Hbd Hbn].
       assert (Hnm : forall i, i < String.length rest ->
                 String.prefix (String c sep) (str_drop i (rest +:+ EmptyString)) = false).
       { intros i Hi. rewrite string_app_nil_r. apply (index_of_below _ _ (String.length rest)); [|done].
         by rewrite Hbn. }
       pose proof (has_char_take d rest (String.length rest)
                     ltac:(apply index_of_below; by rewrite Hbd)) as Htake.
       rewrite str_take_all in Htake.
       rewrite <- (string_app_nil_r rest) at 2. rewrite split_go_no_match by done.
       rewrite string_app_nil_l. cbn [split_go]. rewrite fmap_cons, fmap_nil, split_str_char.
       by rewrite split_no_sep. }
  all: pose proof (next_break_Some _ _ _ _ Hb) as Hk; destruct (next_break_below _ _ _ _ Hb) as [Hbd Hbn];
    cbv iota in Hk; pose proof (fun H => drop_after_progress _ _ _ H Hk) as Hprog;
    specialize (Hprog ltac:(discriminate));
    pose proof (index_of_split _ _ _ Hk) as Hsplit;
    pose proof (index_of_below _ _ _ Hbn) as Hnm;
    pose proof (has_char_take d rest k (index_of_below _ _ _ Hbd)) as Htake;
    pose proof (str_take_length_le k rest) as HA.
  all: try (unfold preview_reached; rewrite Hp); rewrite IH by (by apply has_char_drop || lia);
    change (split_str (String c sep)) with (split_go (String c sep) 0 EmptyString).
  all: set (A := str_take k rest) in *; set (B := str_drop _ rest) in *; clearbody A B; subst rest.
  all: rewrite split_go_no_match by (intros i Hi; apply Hnm; lia); rewrite string_app_nil_l.
  - rewrite string_app_cons, string_app_nil_l. cbn [split_go String.prefix].
    destruct (ascii_dec c d); [congruence|]. rewrite (split_go_cur _ _ (A +:+ _)).
    destruct (split_go (String c sep) 0 EmptyString B) as [|x xs] eqn:E; [by apply split_go_not_nil in E|].
    rewrite !fmap_cons. cbv iota. rewrite !split_str_char, <- string_app_assoc, string_app_cons, string_app_nil_l.
    by rewrite split_app_sep, <- app_assoc.
  - rewrite split_go_sep by done.
    destruct (split_go (String c sep) 0 EmptyString B) as [|x xs] eqn:E; [by apply split_go_not_nil in E|].
    rewrite !fmap_cons. cbv iota. rewrite (split_str_char d A), split_no_sep by done.
    by rewrite <- app_assoc.
Qed.

(** The fast path is the general loop, on text without a quote. *)
Lemma parse_fast_slow input :
  has_char quote_char input = false ->
  parse_fast cfg input = default no_rows (parse_slow_go (S (String.length input)) cfg [] [] [] input).
Proof.
  intros Hq. rewrite parse_slow_go_unquoted by (done || lia). unfold parse_fast. rewrite Hp.
  destruct (split_str (newline cfg) input) as [|x xs] eqn:E; [by apply split_go_not_nil in E|].
  done.
Qed.

(** [Parser.parse] on a non-empty text is the general loop, whichever
    path it takes. *)
Lemma parse_reference input :
  input <> EmptyString ->
  parse cfg input = default no_rows (parse_slow_go (S (String.length input)) cfg [] [] [] input).
Proof.
  intros Hne. destruct (has_char quote_char input) eqn:Hq; [by apply parse_quoted|].
  unfold parse. destruct (String.eqb_spec input EmptyString); [done|]. rewrite Hq. by apply parse_fast_slow.
Qed.

End FastPath.

Lemma papa_config_delimiter input :
  exists d, delimiter (papa_config input) = String d EmptyString /\ d <> cr_char /\ d <> lf_char.
Proof.
  unfold papa_config. cbn [delimiter]. destruct (guess_delimiter _ _) as [d|] eqn:E; cbn [default].
  - apply guess_delimiter_in in E. revert E. rewrite list_elem_of_In. cbn.
    intros Hd. repeat destruct Hd as [<-|Hd]; try done; eexists; split_and!; (done || discriminate).
  - eexists; split_and!; (done || discriminate).
Qed.

Lemma papa_config_newline input :
  exists c sep, newline (papa_config input) = String c sep /\ (c = cr_char \/ c = lf_char).
Proof. unfold papa_config, guess_line_endings. cbv zeta. cbn [newline]. repeat case_match; eauto. Qed.

(** Papa.parse delivers, for any non-empty text, the rows of the general
    loop run with the configuration it guesses. *)
Lemma papa_parse_reference input :
  input <> EmptyString ->
  data (papa_parse input) =
  data (default no_rows (parse_slow_go (S (String.length input)) (papa_config input) [] [] [] input)).
Proof.
  intros Hne. rewrite papa_parse_data.
  destruct (papa_config_delimiter input) as (d & Hd & Hcr & Hlf).
  destruct (papa_config_newline input) as (c & sep & Hnl & Hc).
  rewrite (parse_reference _ d c sep); try done. destruct Hc as [-> | ->]; congruence.
Qed.

(** ** An opening quote that is never closed *)

Lemma scan_quoted_no_quote delim nl acc t :
  has_char quote_char t = false -> scan_quoted delim nl acc t = ([MissingQuotes], QMissing).
Proof.
  revert acc. induction t as [|c t IH]; intros acc Ht; [done|]. cbn [has_char] in Ht.
  destruct (ascii_dec quote_char c) as [|Hc]; [done|]. cbn [scan_quoted].
  destruct (Ascii.eqb_spec c quote_char) as [->|]; [done|]. by apply IH.
Qed.

Lemma parse_unclosed cfg t :
  has_char quote_char t = false ->
  parse cfg (String quote_char t) = mk_result [[t]] [MissingQuotes].
Proof.
  intros Ht. unfold parse. cbn [String.eqb has_char].
  destruct (ascii_dec quote_char quote_char) as [_|]; [|done]. cbn [negb].
  cbn [parse_slow_go starts_quoted]. rewrite Ascii.eqb_refl.
  by rewrite scan_quoted_no_quote.
Qed.

Lemma guess_step_unclosed nl t d :
  has_char quote_char t = false -> guess_step nl (String quote_char t) None d = None.
Proof.
  intros Ht. unfold guess_step, delim_stats. rewrite parse_unclosed by done. reflexivity.
Qed.

(** The text after an opening quote with no closing one is one field of
    one row, with [MissingQuotes], and no delimiter can be guessed. *)
Lemma papa_parse_unclosed t :
  has_char quote_char t = false ->
  papa_parse (String quote_char t) = mk_result [[t]] [MissingQuotes; UndetectableDelimiter].
Proof.
  intros Ht. unfold papa_parse, guess_delimiter, delimiters_to_guess. cbn [fold_left].
  rewrite !guess_step_unclosed by done. cbn [fmap option_fmap option_map].
  by rewrite parse_unclosed.
Qed.

End PapaParse.
