(* ===== verification/Decoder.v ===== *)
(** * Decoder: one Papa row to a fragment (lines 46-52)

    Inside [data.forEach((line) => ...)] the component splits the first cell
    of the row on ['/'] and reads the identifier with [parseInt], the corner
    tag with [slice(-1)] and the coordinates as [values[1..3]].  [decode]
    is that block; the [Module Decoder] also holds the spec's reading of a
    first field (the maximal leading digit run and its decimal value), so
    that the theorems can say where the two agree and where they do not. *)

From S2P Require Import Prelude JsCore.

Module Decoder.

(** The five constants of lines 48-52. *)
Record fragment := mk_fragment {
  number : jsnum;
  type : string;
  x : value;
  y : value;
  z : value
}.

(** Lines 46-52.  [line[0]] of an empty row is [undefined], and reading
    [.split] of it throws; [values[0]] always exists because [split]
    returns at least one piece, so the second error branch is never taken
    (lemma [decode_first_cell]). *)
Definition decode (line : list string) : result fragment :=
  match line with
  | [] => Throw (TypeError "Cannot read properties of undefined (reading 'split')")
  | cell0 :: _ =>
      let values := split "/" cell0 in
      match values !! 0 with
      | None => Throw (TypeError "Cannot read properties of undefined (reading 'slice')")
      | Some v0 =>
          Ok {| number := parseInt v0;
                type := slice_last v0;
                x := nth_value values 1;
                y := nth_value values 2;
                z := nth_value values 3 |}
      end
  end.

(** ** The spec's reading of the first field *)

(** The maximal run of decimal digits at the start of a string. *)
Fixpoint leading_digits (s : string) : string :=
  match s with
  | String c s' => if is_digit c then String c (leading_digits s') else EmptyString
  | EmptyString => EmptyString
  end.

(** The decimal value of a digit string. *)
Definition decimal_value (d : string) : Z :=
  digits_value 10 (map digit_of (String.list_ascii_of_string d)).

(** A field that starts with [0x] or [0X], which [parseInt] reads in hex. *)
Definition hex_prefixed (s : string) : bool :=
  match s with
  | String c0 (String c1 _) => Ascii.eqb c0 "0" && (Ascii.eqb c1 "x" || Ascii.eqb c1 "X")
  | _ => false
  end.

(** A string made of decimal digits only. *)
Fixpoint all_digits (s : string) : bool :=
  match s with
  | String c s' => is_digit c && all_digits s'
  | EmptyString => true
  end.

(** ** Lemmas *)

Lemma digit_prefix_leading s :
  digit_prefix 10 s = map digit_of (String.list_ascii_of_string (leading_digits s)).
Proof.
  induction s as [|c s IH]; [done|]. simpl. rewrite radix_digit_10.
  destruct (is_digit c); simpl; [by rewrite IH|done].
Qed.

Lemma is_digit_not_space c : is_digit c = true -> is_js_space c = false.
Proof. unfold is_digit, is_js_space. decide_comparisons; done. Qed.

Lemma parseInt_digits s :
  leading_digits s <> EmptyString -> hex_prefixed s = false ->
  parseInt s = to_number (decimal_value (leading_digits s)).
Proof.
  destruct s as [|c s]; simpl; [done|].
  destruct (is_digit c) eqn:Hd; [|done]. intros _ Hhex.
  unfold parseInt. cbn [trim_start]. rewrite (is_digit_not_space c Hd). cbn [strip_sign].
  destruct (ascii_dec c "-") as [->|]; [done|].
  destruct (ascii_dec c "+") as [->|]; [done|].
  assert (Hp : strip_prefix (String c s) = (10%Z, String c s)).
  { unfold strip_prefix. destruct s; [done|]. simpl in Hhex. by rewrite Hhex. }
  rewrite Hp, digit_prefix_leading. cbn [leading_digits]. rewrite Hd. simpl.
  unfold decimal_value. simpl. by rewrite Z.mul_1_l.
Qed.

Lemma decode_first_cell cell0 rest :
  decode (cell0 :: rest) =
  Ok {| number := parseInt (default EmptyString (split "/" cell0 !! 0));
        type := slice_last (default EmptyString (split "/" cell0 !! 0));
        x := nth_value (split "/" cell0) 1;
        y := nth_value (split "/" cell0) 2;
        z := nth_value (split "/" cell0) 3 |}.
Proof.
  unfold decode. pose proof (split_not_nil "/" cell0).
  by destruct (split "/" cell0).
Qed.

(** [decode] reads the first cell only. *)
Lemma decode_take1 line : decode line = decode (take 1 line).
Proof. by destruct line. Qed.

(** A first cell with no [/] leaves [x], [y] and [z] undefined. *)
Lemma decode_no_slash cell0 rest :
  has_char "/" cell0 = false ->
  decode (cell0 :: rest) = Ok (mk_fragment (parseInt cell0) (slice_last cell0) Undefined Undefined Undefined).
Proof. intros H. by rewrite decode_first_cell, split_no_sep. Qed.

Lemma substring_after_prefix d t m :
  String.substring (String.length d) m (d +:+ t) = String.substring 0 m t.
Proof. induction d as [|c d IH]; [done|]. exact IH. Qed.

Lemma slice_last_snoc d c : slice_last (d +:+ String c EmptyString) = String c EmptyString.
Proof.
  unfold slice_last. rewrite string_length_append. simpl String.length.
  replace (String.length d + 1 - 1) with (String.length d) by lia.
  rewrite substring_after_prefix. replace (String.length d + 1 - String.length d) with 1 by lia.
  done.
Qed.

Lemma substring_length_le n m s : String.length (String.substring n m s) <= m.
Proof.
  revert n m. induction s as [|c s IH]; intros [|n] [|m]; simpl; try lia; try apply IH.
  specialize (IH 0 m). lia.
Qed.

(** [slice(-1)] is at most one character long: the corner tag is one
    character, or empty for an empty first cell. *)
Lemma slice_last_length s : String.length (slice_last s) <= 1.
Proof.
  unfold slice_last. etransitivity; [apply substring_length_le|]. lia.
Qed.

Lemma decode_type_length line fr : decode line = Ok fr -> String.length (type fr) <= 1.
Proof.
  destruct line as [|cell0 rest]; [done|]. rewrite decode_first_cell.
  intros [= <-]. apply slice_last_length.
Qed.

Lemma leading_digits_app d t :
  all_digits d = true -> leading_digits (d +:+ t) = d +:+ leading_digits t.
Proof.
  induction d as [|c d IH]; simpl; [done|].
  destruct (is_digit c); simpl; [|done]. intros H. by rewrite IH.
Qed.

Lemma all_digits_no_slash d : all_digits d = true -> has_char "/" d = false.
Proof.
  induction d as [|c d IH]; cbn [has_char all_digits]; [done|]. intros [Hc Hd]%andb_prop.
  destruct (ascii_dec "/" c) as [<-|]; [done|]. by apply IH.
Qed.

Lemma hex_prefixed_digits d c :
  all_digits d = true -> d <> EmptyString ->
  ~ (d = "0" /\ (c = "x"%char \/ c = "X"%char)) ->
  hex_prefixed (d +:+ String c EmptyString) = false.
Proof.
  destruct d as [|c0 [|c1 d]]; simpl; [done| |].
  - intros Hd _ Hn. destruct (Ascii.eqb_spec c0 "0"); [subst|done]. simpl.
    destruct (Ascii.eqb_spec c "x"), (Ascii.eqb_spec c "X"); naive_solver.
  - intros Hd _ _. apply andb_prop in Hd as [_ Hd]. apply andb_prop in Hd as [Hd _].
    destruct (Ascii.eqb_spec c1 "x") as [->|]; [done|].
    destruct (Ascii.eqb_spec c1 "X") as [->|]; [done|]. by rewrite andb_false_r.
Qed.

(** C5: a first cell of the documented shape [<digits><tag>/<x>/<y>/<z>]
    decodes to the Number value of the decimal value of the digits (the
    value itself below 2^53, C26), the one-character tag and
    the three coordinate strings verbatim, unless the digits are ["0"] and
    the tag is [x] or [X] (then [parseInt] sees a hex prefix). *)
Theorem decode_grammar d c x y z rest :
  d <> EmptyString -> all_digits d = true -> is_digit c = false -> c <> "/"%char ->
  ~ (d = "0" /\ (c = "x"%char \/ c = "X"%char)) ->
  has_char "/" x = false -> has_char "/" y = false -> has_char "/" z = false ->
  decode (join "/" [d +:+ String c EmptyString; x; y; z] :: rest) =
  Ok (mk_fragment (to_number (decimal_value d)) (String c EmptyString) (Str x) (Str y) (Str z)).
Proof.
  intros Hne Hd Hc Hsl Hhex Hx Hy Hz.
  rewrite decode_first_cell, split_join.
  2: done.
  2: { assert (has_char "/" (d +:+ String c EmptyString) = false).
       { rewrite has_char_app, all_digits_no_slash by done. cbn [has_char].
         by destruct (ascii_dec "/" c). }
       by repeat constructor. }
  simpl. rewrite slice_last_snoc, parseInt_digits.
  - rewrite leading_digits_app by done. simpl. rewrite Hc. by rewrite string_app_nil_r.
  - rewrite leading_digits_app by done. by destruct d.
  - by apply hex_prefixed_digits.
Qed.

Lemma digits_value_acc_bound (ds : list Z) (acc : Z) :
  Forall (fun d => 0 <= d < 10)%Z ds -> (0 <= acc)%Z ->
  (0 <= fold_left (fun acc d => acc * 10 + d) ds acc < (acc + 1) * 10 ^ Z.of_nat (length ds))%Z.
Proof.
  revert acc. induction ds as [|d ds IH]; intros acc Hds Hacc; simpl; [lia|].
  apply Forall_cons in Hds as [Hd Hds]. specialize (IH (acc * 10 + d)%Z Hds ltac:(lia)).
  rewrite Nat2Z.inj_succ, Z.pow_succ_r by lia. nia.
Qed.

Lemma leading_digits_bounded s :
  Forall (fun d => 0 <= d < 10)%Z (map digit_of (String.list_ascii_of_string (leading_digits s))).
Proof.
  induction s as [|c s IH]; simpl; [constructor|].
  destruct (is_digit c) eqn:Hc; simpl; [|constructor]. constructor; [|done].
  unfold is_digit, digit_of in *. apply andb_prop in Hc as [H1 H2].
  apply Nat.leb_le in H1, H2. lia.
Qed.

Lemma length_list_ascii_of_string s : length (String.list_ascii_of_string s) = String.length s.
Proof. induction s as [|c s IH]; simpl; [done|]. by rewrite IH. Qed.

Lemma trim_start_spaces ws s :
  forallb is_js_space (String.list_ascii_of_string ws) = true ->
  trim_start (ws +:+ s) = trim_start s.
Proof.
  induction ws as [|c ws IH]; [done|]. simpl. intros [Hc Hws]%andb_prop.
  rewrite Hc. by apply IH.
Qed.

Lemma parseInt_spaces ws s :
  forallb is_js_space (String.list_ascii_of_string ws) = true ->
  parseInt (ws +:+ s) = parseInt s.
Proof. intros Hws. unfold parseInt. by rewrite trim_start_spaces. Qed.

Lemma parseInt_minus s :
  leading_digits s <> EmptyString -> hex_prefixed s = false ->
  parseInt (String "-" s) = to_number (- decimal_value (leading_digits s)).
Proof.
  destruct s as [|c s]; simpl; [done|].
  destruct (is_digit c) eqn:Hd; [|done]. intros _ Hhex.
  unfold parseInt. cbn [trim_start].
  replace (is_js_space "-") with false by reflexivity. cbn [strip_sign].
  destruct (ascii_dec "-" "-") as [_|]; [|done].
  assert (Hp : strip_prefix (String c s) = (10%Z, String c s)).
  { unfold strip_prefix. destruct s; [done|]. simpl in Hhex. by rewrite Hhex. }
  rewrite Hp, digit_prefix_leading. cbn [leading_digits]. rewrite Hd. simpl.
  unfold decimal_value. simpl. f_equal.
Qed.

Lemma leading_digits_spaces ws s :
  ws <> EmptyString -> forallb is_js_space (String.list_ascii_of_string ws) = true ->
  leading_digits (ws +:+ s) = EmptyString.
Proof.
  destruct ws as [|c ws]; [done|]. simpl. intros _ [Hc _]%andb_prop.
  destruct (is_digit c) eqn:Hd; [|done]. by rewrite is_digit_not_space in Hc.
Qed.

Lemma decode_fields p x y z rest :
  has_char "/" p = false -> has_char "/" x = false -> has_char "/" y = false -> has_char "/" z = false ->
  decode (join "/" [p; x; y; z] :: rest) =
  Ok (mk_fragment (parseInt p) (slice_last p) (Str x) (Str y) (Str z)).
Proof.
  intros Hp Hx Hy Hz. rewrite decode_first_cell, split_join; [done|done|].
  by repeat constructor.
Qed.

Lemma decimal_value_nonneg s : (0 <= decimal_value (leading_digits s))%Z.
Proof.
  pose proof (digits_value_acc_bound _ 0 (leading_digits_bounded s) ltac:(lia)).
  unfold decimal_value, digits_value. lia.
Qed.

Lemma spaces_no_slash ws :
  forallb is_js_space (String.list_ascii_of_string ws) = true -> has_char "/" ws = false.
Proof.
  induction ws as [|c ws IH]; cbn [has_char String.list_ascii_of_string forallb]; [done|].
  intros [Hc Hws]%andb_prop. destruct (ascii_dec "/" c) as [<-|]; [done|]. by apply IH.
Qed.

(** The facts about a cell [<digits><tag>] that reading it needs. *)
Lemma digits_tag_cell d c :
  d <> EmptyString -> all_digits d = true -> is_digit c = false -> c <> "/"%char ->
  ~ (d = "0" /\ (c = "x"%char \/ c = "X"%char)) ->
  leading_digits (d +:+ String c EmptyString) = d /\
  hex_prefixed (d +:+ String c EmptyString) = false /\
  has_char "/" (d +:+ String c EmptyString) = false.
Proof.
  intros Hne Hd Hc Hsl Hhex. split_and!.
  - rewrite leading_digits_app by done. simpl. rewrite Hc. by rewrite string_app_nil_r.
  - by apply hex_prefixed_digits.
  - rewrite has_char_app, all_digits_no_slash by done. cbn [has_char].
    by destruct (ascii_dec "/" c).
Qed.

(** C26: bounds.  A first field whose leading digit run has at most 15
    digits (and no hex prefix) has as identifier exactly the decimal value
    of those digits, between 0 and 2^53, where every integer is a double:
    no rounding happens. *)
Theorem parseInt_identifier_bound s :
  leading_digits s <> EmptyString -> hex_prefixed s = false ->
  String.length (leading_digits s) <= 15 ->
  parseInt s = Num (decimal_value (leading_digits s)) /\
  (0 <= decimal_value (leading_digits s) < 2 ^ 53)%Z.
Proof.
  intros Hne Hhex Hlen.
  assert (Hv : (0 <= decimal_value (leading_digits s) < 2 ^ 53)%Z).
  { pose proof (digits_value_acc_bound _ 0 (leading_digits_bounded s) ltac:(lia)) as Hb.
    unfold decimal_value, digits_value. rewrite length_map, length_list_ascii_of_string in Hb.
    assert (10 ^ Z.of_nat (String.length (leading_digits s)) <= 10 ^ 15)%Z.
    { apply Z.pow_le_mono_r; lia. }
    lia. }
  split; [|done]. rewrite parseInt_digits by done. apply to_number_small. lia.
Qed.

Lemma parseInt_identifier_bound_witness :
  parseInt "123456789012345a" = Num (decimal_value (leading_digits "123456789012345a")) /\
  (0 <= decimal_value (leading_digits "123456789012345a") < 2 ^ 53)%Z.
Proof. apply parseInt_identifier_bound; [discriminate|reflexivity|simpl; lia]. Defined.

Lemma decode_grammar_witness :
  decode [join "/" ["1" +:+ String "a" EmptyString; "10"; "20"; "30"]] =
  Ok (mk_fragment (to_number (decimal_value "1")) "a" (Str "10") (Str "20") (Str "30")).
Proof.
  apply (decode_grammar "1" "a" "10" "20" "30" []);
    [discriminate|reflexivity|reflexivity|discriminate| |reflexivity..].
  intros [? _]; discriminate.
Defined.

(** C30: decoding a row throws (the TypeError of [line[0].split]) exactly
    when the row has no first cell; every other row decodes. *)
Theorem decode_throws line :
  (exists e, decode line = Throw e) <-> line = [].
Proof.
  destruct line as [|cell0 rest]; split; [done|by eexists| |done].
  rewrite decode_first_cell. by intros [? ?].
Qed.

(** C27: bounds.  When a first field's leading digit run (with no hex
    prefix) is past 2^53, [parseInt] rounds its decimal value [m] to the
    nearest double: the identifier [v] is a double, no double is closer to
    [m], and on a tie between two doubles [v] is the one whose 53-bit
    significand is even; so identifiers past 2^53 are approximations and
    distinct digit runs can share one. *)
Theorem parseInt_nearest s v :
  leading_digits s <> EmptyString -> hex_prefixed s = false ->
  parseInt s = Num v -> (v < inf_bits)%Z ->
  is_double v = true /\
  (forall w, is_double w = true ->
     Z.abs (decimal_value (leading_digits s) - v) <= Z.abs (decimal_value (leading_digits s) - w))%Z /\
  (forall w, is_double w = true -> w <> v ->
     Z.abs (decimal_value (leading_digits s) - w) = Z.abs (decimal_value (leading_digits s) - v) ->
     Z.even (v / 2 ^ (Z.log2 (decimal_value (leading_digits s)) - 52)) = true)%Z.
Proof.
  intros Hne Hhex Hv Hlt. rewrite parseInt_digits in Hv by done.
  apply to_number_nearest; [apply decimal_value_nonneg|done|done].
Qed.

Lemma parseInt_nearest_witness :
  is_double 9007199254740992 = true /\
  (forall w, is_double w = true ->
     Z.abs (decimal_value (leading_digits "9007199254740993a") - 9007199254740992) <=
     Z.abs (decimal_value (leading_digits "9007199254740993a") - w))%Z /\
  (forall w, is_double w = true -> w <> 9007199254740992%Z ->
     Z.abs (decimal_value (leading_digits "9007199254740993a") - w) =
     Z.abs (decimal_value (leading_digits "9007199254740993a") - 9007199254740992) ->
     Z.even (9007199254740992 / 2 ^ (Z.log2 (decimal_value (leading_digits "9007199254740993a")) - 52)) = true)%Z.
Proof.
  apply parseInt_nearest; [discriminate|reflexivity|vm_compute; reflexivity|vm_compute; reflexivity].
Defined.

(** C29: where [parseInt] departs from the spec's reading of the first
    field as "a leading digit run then a one-character tag": for every
    well-formed cell [<digits><tag>] and every run [ws] of JS whitespace,
    the field [ws<digits><tag>] (ws not empty) and the field
    [ws-<digits><tag>] have no leading digit run, which the spec reads as a
    decode error, yet the code decodes them to the digits' value and to its
    negation; and the fields [0x] and [0X] (digits [0], tag [x] or [X] for
    the spec) are read as a hex prefix without digits, giving NaN. *)
Theorem decode_divergences ws d c x y z rest :
  forallb is_js_space (String.list_ascii_of_string ws) = true ->
  d <> EmptyString -> all_digits d = true -> is_digit c = false -> c <> "/"%char ->
  ~ (d = "0" /\ (c = "x"%char \/ c = "X"%char)) ->
  has_char "/" x = false -> has_char "/" y = false -> has_char "/" z = false ->
  (ws <> EmptyString ->
   leading_digits (ws +:+ (d +:+ String c EmptyString)) = EmptyString /\
   decode (join "/" [ws +:+ (d +:+ String c EmptyString); x; y; z] :: rest) =
   Ok (mk_fragment (to_number (decimal_value d)) (String c EmptyString) (Str x) (Str y) (Str z))) /\
  leading_digits (ws +:+ String "-" (d +:+ String c EmptyString)) = EmptyString /\
  decode (join "/" [ws +:+ String "-" (d +:+ String c EmptyString); x; y; z] :: rest) =
  Ok (mk_fragment (to_number (- decimal_value d)) (String c EmptyString) (Str x) (Str y) (Str z)) /\
  (forall cx, cx = "x"%char \/ cx = "X"%char ->
   leading_digits (String "0" (String cx EmptyString)) = "0" /\
   decode (join "/" [String "0" (String cx EmptyString); x; y; z] :: rest) =
   Ok (mk_fragment NaN (String cx EmptyString) (Str x) (Str y) (Str z))).
Proof.
  intros Hws Hne Hd Hc Hsl Hhex Hx Hy Hz.
  destruct (digits_tag_cell d c Hne Hd Hc Hsl Hhex) as (Hl & Hh & Hs).
  assert (Hsw := spaces_no_slash ws Hws).
  split_and!.
  - intros Hwne. split; [by apply leading_digits_spaces|].
    rewrite decode_fields by (rewrite ?(has_char_app "/" ws), ?Hsw; done).
    rewrite string_app_assoc, slice_last_snoc, <- string_app_assoc, parseInt_spaces, parseInt_digits, Hl by (rewrite ?Hl; done).
    done.
  - destruct ws as [|w ws]; [done|]. apply leading_digits_spaces; [done|done].
  - rewrite decode_fields
      by (rewrite ?(has_char_app "/" ws), ?Hsw;
          change (has_char "/" (String "-" ?s)) with (has_char "/" s) in *; done).
    rewrite parseInt_spaces, parseInt_minus, Hl by (rewrite ?Hl; done).
    change (String "-" (d +:+ String c EmptyString)) with (String "-" d +:+ String c EmptyString).
    by rewrite string_app_assoc, slice_last_snoc.
  - intros cx [-> | ->]; (split; [done|]); by rewrite decode_fields.
Qed.

Lemma decode_divergences_witness :
  (" " <> EmptyString ->
   leading_digits (" " +:+ ("7" +:+ String "a" EmptyString)) = EmptyString /\
   decode (join "/" [" " +:+ ("7" +:+ String "a" EmptyString); "1"; "2"; "3"] :: []) =
   Ok (mk_fragment (to_number (decimal_value "7")) (String "a" EmptyString) (Str "1") (Str "2") (Str "3"))) /\
  leading_digits (" " +:+ String "-" ("7" +:+ String "a" EmptyString)) = EmptyString /\
  decode (join "/" [" " +:+ String "-" ("7" +:+ String "a" EmptyString); "1"; "2"; "3"] :: []) =
  Ok (mk_fragment (to_number (- decimal_value "7")) (String "a" EmptyString) (Str "1") (Str "2") (Str "3")) /\
  (forall cx, cx = "x"%char \/ cx = "X"%char ->
   leading_digits (String "0" (String cx EmptyString)) = "0" /\
   decode (join "/" [String "0" (String cx EmptyString); "1"; "2"; "3"] :: []) =
   Ok (mk_fragment NaN (String cx EmptyString) (Str "1") (Str "2") (Str "3"))).
Proof.
  apply decode_divergences; try reflexivity; try discriminate.
  intros [? _]; discriminate.
Defined.

End Decoder.
