(* ===== verification/Aggregator.v ===== *)
(** * Aggregator: the [forEach] of [processFile] (lines 43-64)

    [result] is an array of row objects [{ number, aa, ba, ca, ab, ... }].
    For each fragment the loop looks up the first row whose [number] is
    [===] to the fragment's, pushes a fresh [{ number }] when there is none,
    and writes [a${type}], [b${type}], [c${type}] on the object found.  The
    object written is the one stored in the array ([entry] aliases
    [result[i]]), so the model keeps the index [i] of that object and
    writes at it ([alter] at [i]).  A row object is an [entry]: its
    [number] and the map [cells] of its other own properties.

    The abstract specification is a finite map from identifier to cells
    ([spec_upsert]); [abs] reads it off a row list, by first occurrence
    like [find] does.  The refinement theorem says that the loop and the
    map agree after every fragment, the NaN rows aside: [NaN === NaN] is
    false, so every NaN fragment gets a row of its own ([nan_rows]). *)

From S2P Require Import Prelude JsCore Decoder.

Module Aggregator.

(** ** The row objects *)

Record entry := mk_entry {
  number : jsnum;
  cells : gmap string value
}.

Implicit Types (rows : list entry) (fr : Decoder.fragment) (e : entry).

(** Lines 61-63: [entry[`a${type}`] = x; entry[`b${type}`] = y;
    entry[`c${type}`] = z;] in this order. *)
Definition write_cells fr (c : gmap string value) : gmap string value :=
  let t := Decoder.type fr in
  <["c" +:+ t := Decoder.z fr]> (<["b" +:+ t := Decoder.y fr]> (<["a" +:+ t := Decoder.x fr]> c)).

Definition write_entry fr e : entry :=
  mk_entry (number e) (write_cells fr (cells e)).

(** Line 54: [result.find((item) => item.number === number)], with the
    index of the object found. *)
Definition find_entry (n : jsnum) rows : option (nat * entry) :=
  list_find (fun e => strict_eq (number e) n = true) rows.

(** Lines 54-63 for one fragment: find or push the row, then write the
    three cells on the object [entry] refers to. *)
Definition upsert rows fr : list entry :=
  let n := Decoder.number fr in
  let '(i, rows) :=
    match find_entry n rows with
    | Some (i, _) => (i, rows)
    | None => (length rows, rows ++ [mk_entry n ∅])
    end in
  alter (write_entry fr) i rows.

(** Lines 45-64 for one row of the file: decode, then upsert. *)
Definition process_line rows (line : list string) : result (list entry) :=
  fr <- Decoder.decode line ;; Ok (upsert rows fr).

(** Lines 45-64: [data.forEach]; an exception stops the loop and leaves
    [processFile]. *)
Fixpoint process_data rows (data : list (list string)) : result (list entry) :=
  match data with
  | [] => Ok rows
  | line :: data' => rows' <- process_line rows line ;; process_data rows' data'
  end.

(** ** The abstract specification *)

(** Identifier to cells, built by last-write-wins insertion. *)
Definition spec_upsert (m : gmap Z (gmap string value)) fr : gmap Z (gmap string value) :=
  match Decoder.number fr with
  | Num n => <[n := write_cells fr (default ∅ (m !! n))]> m
  | NaN => m
  end.

Definition aggregate (frags : list Decoder.fragment) : list entry :=
  fold_left upsert frags [].

Definition spec_aggregate (frags : list Decoder.fragment) : gmap Z (gmap string value) :=
  fold_left spec_upsert frags ∅.

(** The map a row list stands for: the first row of each identifier. *)
Fixpoint abs rows : gmap Z (gmap string value) :=
  match rows with
  | [] => ∅
  | e :: rows' =>
      match number e with
      | Num n => <[n := cells e]> (abs rows')
      | NaN => abs rows'
      end
  end.

(** The cells of the rows whose identifier is NaN, in array order. *)
Definition nan_rows rows : list (gmap string value) :=
  cells <$> filter (fun e => number e = NaN) rows.

(** The numeric identifiers of the rows, in array order. *)
Definition ids rows : list Z :=
  omap (fun e => match number e with Num n => Some n | NaN => None end) rows.

(** The spec's pipeline in phases: decode every row first (section 2 of
    the spec), then fold. *)
Fixpoint decode_all (data : list (list string)) : result (list Decoder.fragment) :=
  match data with
  | [] => Ok []
  | line :: data' => fr <- Decoder.decode line ;; frs <- decode_all data' ;; Ok (fr :: frs)
  end.

(** The three axes of a corner: the key prefix [a], [b], [c] of lines
    61-63 and the coordinate written under it. *)
Inductive axis := AX | AY | AZ.

Definition axis_letter (a : axis) : ascii :=
  match a with AX => "a" | AY => "b" | AZ => "c" end.

Definition axis_value (a : axis) fr : value :=
  match a with AX => Decoder.x fr | AY => Decoder.y fr | AZ => Decoder.z fr end.

(** The key [`${letter}${type}`]. *)
Definition cell_key (a : axis) (t : string) : string := String (axis_letter a) EmptyString +:+ t.

(** The last fragment of identifier [n] and corner tag [t]. *)
Definition last_fragment (frags : list Decoder.fragment) (n : Z) (t : string) :
    option Decoder.fragment :=
  last (filter (fun fr => Decoder.number fr = Num n /\ Decoder.type fr = t) frags).

(** The shape of a row object's properties besides [number]: [a], [b] or
    [c] followed by a corner tag of at most one character. *)
Definition wf_row e : Prop :=
  forall k v, cells e !! k = Some v -> exists a t, String.length t <= 1 /\ k = cell_key a t.

(** ** Lemmas on [find_entry] and [upsert] *)

Lemma strict_eq_Num (a : jsnum) n : strict_eq a (Num n) = true <-> a = Num n.
Proof.
  destruct a; simpl; [done|]. rewrite Z.eqb_eq. naive_solver.
Qed.

Lemma find_entry_NaN rows : find_entry NaN rows = None.
Proof.
  apply list_find_None, Forall_forall. intros e _. by destruct (number e).
Qed.

Lemma find_entry_Some n rows i e :
  find_entry n rows = Some (i, e) ->
  rows !! i = Some e /\ strict_eq (number e) n = true /\
  forall j e2, rows !! j = Some e2 -> j < i -> strict_eq (number e2) n = false.
Proof.
  intros (Hi & He & Hlt)%list_find_Some. split_and!; [done|done|].
  intros j e2 ??. apply not_true_is_false. eauto.
Qed.

Lemma upsert_found rows fr i e :
  find_entry (Decoder.number fr) rows = Some (i, e) ->
  upsert rows fr = alter (write_entry fr) i rows.
Proof. unfold upsert. by intros ->. Qed.

Lemma upsert_new rows fr :
  find_entry (Decoder.number fr) rows = None ->
  upsert rows fr = rows ++ [write_entry fr (mk_entry (Decoder.number fr) ∅)].
Proof.
  unfold upsert. intros ->. rewrite alter_app_r_alt by lia.
  by rewrite Nat.sub_diag.
Qed.

(** ** Lemmas on the abstraction *)

Lemma abs_lookup rows n :
  abs rows !! n = (cells ∘ snd) <$> find_entry (Num n) rows.
Proof.
  unfold find_entry. induction rows as [|e rows IH]; simpl; [done|].
  case_decide as Hd.
  - apply strict_eq_Num in Hd. rewrite Hd. by rewrite lookup_insert_eq.
  - rewrite strict_eq_Num in Hd. destruct (number e) as [|n']; [|].
    + rewrite IH. by destruct (list_find _ rows) as [[??]|].
    + rewrite lookup_insert_ne by naive_solver. rewrite IH.
      by destruct (list_find _ rows) as [[??]|].
Qed.

Lemma abs_alter rows f i e n :
  (forall e2, number (f e2) = number e2) ->
  rows !! i = Some e -> number e = Num n ->
  (forall j e2, rows !! j = Some e2 -> j < i -> number e2 <> Num n) ->
  abs (alter f i rows) = <[n := cells (f e)]> (abs rows).
Proof.
  intros Hf. revert i. induction rows as [|e0 rows IH]; intros [|i] Hi He Hlt; try done.
  - simplify_eq/=. rewrite Hf, He. by rewrite insert_insert_eq.
  - csimpl. assert (number e0 <> Num n) by (apply (Hlt 0); [done|lia]).
    rewrite IH; [|done|done|].
    + destruct (number e0) as [|n0]; [done|]. apply insert_insert_ne. naive_solver.
    + intros j e2 ??. apply (Hlt (S j)); [done|lia].
Qed.

Lemma abs_snoc_NaN rows e : number e = NaN -> abs (rows ++ [e]) = abs rows.
Proof.
  intros He. induction rows as [|e0 rows IH]; simpl; [by rewrite He|].
  by rewrite IH.
Qed.

Lemma abs_snoc_fresh rows e n :
  number e = Num n -> abs rows !! n = None ->
  abs (rows ++ [e]) = <[n := cells e]> (abs rows).
Proof.
  intros He. induction rows as [|e0 rows IH]; simpl; intros Hn.
  - by rewrite He.
  - destruct (number e0) as [|n0]; [by apply IH|].
    apply lookup_insert_None in Hn as [Hn Hne].
    rewrite IH by done. apply insert_insert_ne. done.
Qed.

(** ** The refinement step *)

Lemma upsert_refines rows fr : abs (upsert rows fr) = spec_upsert (abs rows) fr.
Proof.
  unfold spec_upsert. destruct (find_entry (Decoder.number fr) rows) as [[i e]|] eqn:Hf.
  - rewrite (upsert_found _ _ _ _ Hf).
    destruct (Decoder.number fr) as [|n] eqn:Hn; [by rewrite find_entry_NaN in Hf|].
    pose proof Hf as (Hi & He & Hlt)%find_entry_Some. apply strict_eq_Num in He.
    rewrite (abs_alter _ _ _ e n); [|done|done|done|].
    + rewrite abs_lookup, Hf. reflexivity.
    + intros j e2 Hj Hji Heq. specialize (Hlt j e2 Hj Hji). rewrite Heq in Hlt.
      simpl in Hlt. by rewrite Z.eqb_refl in Hlt.
  - rewrite (upsert_new _ _ Hf). destruct (Decoder.number fr) as [|n] eqn:Hn.
    + by rewrite abs_snoc_NaN.
    + assert (Hnone : abs rows !! n = None) by (by rewrite abs_lookup, Hf).
      rewrite abs_snoc_fresh with (n := n); [|by simpl|done]. by rewrite Hnone.
Qed.

Lemma abs_fold frags rows :
  abs (fold_left upsert frags rows) = fold_left spec_upsert frags (abs rows).
Proof.
  revert rows. induction frags as [|fr frags IH]; intros rows; [done|].
  simpl. by rewrite IH, upsert_refines.
Qed.

(** ** NaN rows *)

Lemma nan_rows_alter rows f i e :
  (forall e2, number (f e2) = number e2) ->
  rows !! i = Some e -> number e <> NaN ->
  nan_rows (alter f i rows) = nan_rows rows.
Proof.
  intros Hf. unfold nan_rows. revert i.
  induction rows as [|e0 rows IH]; intros [|i] Hi He; try done; csimpl.
  - simplify_eq/=. rewrite !filter_cons, Hf. case_decide; [congruence|done].
  - rewrite !filter_cons. case_decide; csimpl; by rewrite IH.
Qed.

Lemma nan_rows_upsert rows fr :
  nan_rows (upsert rows fr) =
  nan_rows rows ++ (if is_nan (Decoder.number fr) then [write_cells fr ∅] else []).
Proof.
  destruct (find_entry (Decoder.number fr) rows) as [[i e]|] eqn:Hf.
  - rewrite (upsert_found _ _ _ _ Hf).
    destruct (Decoder.number fr) as [|n] eqn:Hn; [by rewrite find_entry_NaN in Hf|].
    pose proof Hf as (Hi & He & _)%find_entry_Some. apply strict_eq_Num in He.
    rewrite (nan_rows_alter _ _ _ e); [by rewrite app_nil_r|done|done|by rewrite He].
  - rewrite (upsert_new _ _ Hf). unfold nan_rows.
    rewrite filter_app, fmap_app, filter_cons, filter_nil. simpl.
    by destruct (Decoder.number fr); case_decide.
Qed.

(** ** The identifiers *)

Lemma elem_of_ids rows n : n ∈ ids rows <-> exists e, e ∈ rows /\ number e = Num n.
Proof.
  unfold ids. rewrite list_elem_of_omap. split.
  - intros (e & He & Hn). exists e. split; [done|]. by destruct (number e); simplify_eq.
  - intros (e & He & Hn). exists e. by rewrite Hn.
Qed.

Lemma find_entry_None_ids rows n : find_entry (Num n) rows = None <-> n ∉ ids rows.
Proof.
  unfold find_entry. rewrite list_find_None, Forall_forall, elem_of_ids.
  setoid_rewrite strict_eq_Num. naive_solver.
Qed.

Lemma ids_alter rows f i :
  (forall e2, number (f e2) = number e2) -> ids (alter f i rows) = ids rows.
Proof.
  intros Hf. unfold ids. revert i.
  induction rows as [|e0 rows IH]; intros [|i]; csimpl; try done.
  - by rewrite Hf.
  - by rewrite IH.
Qed.

Lemma ids_upsert_NoDup rows fr : NoDup (ids rows) -> NoDup (ids (upsert rows fr)).
Proof.
  intros Hnd. destruct (find_entry (Decoder.number fr) rows) as [[i e]|] eqn:Hf.
  - rewrite (upsert_found _ _ _ _ Hf), ids_alter; done.
  - rewrite (upsert_new _ _ Hf). unfold ids. rewrite omap_app. simpl.
    destruct (Decoder.number fr) as [|n] eqn:Hn; simpl; [by rewrite app_nil_r|].
    apply NoDup_app. split_and!; [done| |by apply NoDup_singleton].
    intros n' Hn' ->%list_elem_of_singleton.
    by apply (find_entry_None_ids rows n).
Qed.

(** ** Cells *)

Lemma write_cells_axis fr c a t :
  write_cells fr c !! cell_key a t =
  if decide (t = Decoder.type fr) then Some (axis_value a fr) else c !! cell_key a t.
Proof.
  unfold write_cells, cell_key. autorewrite with csv_rw.
  destruct a; simpl; rewrite !lookup_insert; repeat case_decide; simplify_eq; done.
Qed.

Lemma spec_aggregate_snoc frags fr :
  spec_aggregate (frags ++ [fr]) = spec_upsert (spec_aggregate frags) fr.
Proof. unfold spec_aggregate. by rewrite fold_left_app. Qed.

Lemma spec_aggregate_cell frags n a t :
  spec_aggregate frags !! n ≫= lookup (cell_key a t) = axis_value a <$> last_fragment frags n t.
Proof.
  unfold last_fragment. induction frags as [|fr frags IH] using rev_ind; [done|].
  rewrite spec_aggregate_snoc, filter_app, filter_cons, filter_nil. unfold spec_upsert.
  case_decide as Hm.
  - destruct Hm as [Hn Ht]. rewrite Hn, last_snoc, lookup_insert_eq. simpl.
    rewrite write_cells_axis. by case_decide.
  - rewrite app_nil_r, <- IH. destruct (Decoder.number fr) as [|n'] eqn:Hn; [done|].
    destruct (decide (n' = n)) as [->|Hne].
    + rewrite lookup_insert_eq. simpl. rewrite write_cells_axis.
      case_decide; [naive_solver|]. by destruct (spec_aggregate frags !! n).
    + by rewrite lookup_insert_ne.
Qed.

Lemma nan_rows_fold frags rows :
  nan_rows (fold_left upsert frags rows) =
  nan_rows rows ++ ((fun fr => write_cells fr ∅) <$> filter (fun fr => Decoder.number fr = NaN) frags).
Proof.
  revert rows. induction frags as [|fr frags IH]; intros rows; simpl.
  - by rewrite app_nil_r.
  - rewrite IH, nan_rows_upsert, filter_cons, <- app_assoc.
    destruct (Decoder.number fr); simpl; repeat case_decide; done.
Qed.

Lemma ids_fold_NoDup frags rows :
  NoDup (ids rows) -> NoDup (ids (fold_left upsert frags rows)).
Proof.
  revert rows. induction frags as [|fr frags IH]; intros rows Hnd; [done|].
  apply IH. by apply ids_upsert_NoDup.
Qed.

Lemma spec_fold_is_Some frags m n :
  is_Some (fold_left spec_upsert frags m !! n) <->
  is_Some (m !! n) \/ exists fr, fr ∈ frags /\ Decoder.number fr = Num n.
Proof.
  revert m. induction frags as [|fr frags IH]; intros m; simpl.
  - split; [by left|]. intros [?|(? & ?%elem_of_nil & _)]; done.
  - rewrite IH. unfold spec_upsert. setoid_rewrite elem_of_cons.
    destruct (Decoder.number fr) as [|n'] eqn:Hn.
    + split; [intros [?|(f & ? & ?)]; [by left|right; exists f; by split; [right|]]|].
      intros [?|(f & [->|?] & ?)]; [by left|congruence|right; by exists f].
    + rewrite lookup_insert_is_Some'. split.
      * intros [[->|?]|(f & ? & ?)]; [right; exists fr; by split; [left|]|by left|].
        right; exists f; by split; [right|].
      * intros [?|(f & [->|?] & ?)]; [by left; right|left; left; congruence|].
        right; by exists f.
Qed.

Lemma length_ids_nan_rows rows : length rows = length (ids rows) + length (nan_rows rows).
Proof.
  unfold ids, nan_rows. induction rows as [|e rows IH]; [done|].
  rewrite filter_cons. csimpl. destruct (number e); case_decide; csimpl; try congruence; lia.
Qed.

Lemma dom_abs rows : dom (abs rows) = list_to_set (ids rows).
Proof.
  unfold ids. induction rows as [|e rows IH]; simpl; [by rewrite dom_empty_L|].
  destruct (number e); simpl; [done|]. by rewrite dom_insert_L, IH.
Qed.

Lemma size_abs rows : NoDup (ids rows) -> size (abs rows) = length (ids rows).
Proof.
  intros Hnd. rewrite <- size_dom, dom_abs. by apply size_list_to_set.
Qed.

Lemma same_number_same_entry rows e1 e2 n :
  NoDup (ids rows) -> e1 ∈ rows -> e2 ∈ rows -> number e1 = Num n -> number e2 = Num n -> e1 = e2.
Proof.
  unfold ids. induction rows as [|e rows IH]; [by intros _ ?%elem_of_nil|].
  intros Hnd. rewrite !elem_of_cons. intros He1 He2 Hn1 Hn2.
  simpl in Hnd. destruct (number e) as [|m] eqn:He.
  - destruct He1 as [->|He1], He2 as [->|He2]; congruence || auto.
  - apply NoDup_cons in Hnd as [Hm Hnd].
    assert (Hnot : forall e', e' ∈ rows -> number e' <> Num m).
    { intros e' He' Hn'. apply Hm, list_elem_of_omap. exists e'. by rewrite Hn'. }
    destruct He1 as [->|He1], He2 as [->|He2]; [done| | |by apply IH].
    + exfalso. apply (Hnot e2); congruence.
    + exfalso. apply (Hnot e1); congruence.
Qed.

Lemma abs_is_Some rows n : is_Some (abs rows !! n) <-> exists r, r ∈ rows /\ number r = Num n.
Proof.
  rewrite abs_lookup, fmap_is_Some. unfold find_entry. split.
  - intros [[i e] (Hi & He & _)%list_find_Some]. exists e.
    split; [by eapply list_elem_of_lookup_2|by apply strict_eq_Num].
  - intros (r & Hr & Hn). apply (list_find_elem_of _ _ r); [done|by apply strict_eq_Num].
Qed.

Lemma abs_lookup_member rows r n :
  NoDup (ids rows) -> r ∈ rows -> number r = Num n -> abs rows !! n = Some (cells r).
Proof.
  intros Hnd Hr Hn. rewrite abs_lookup. unfold find_entry.
  destruct (list_find_elem_of (fun e => strict_eq (number e) (Num n) = true) rows r)
    as [[i e] He]; [done|by apply strict_eq_Num|].
  rewrite He. apply list_find_Some in He as (Hi & Hen & _). apply strict_eq_Num in Hen.
  simpl. f_equal. f_equal. eapply same_number_same_entry; [done| |done|done|done].
  by eapply list_elem_of_lookup_2.
Qed.

Lemma aggregate_ids_NoDup frags : NoDup (ids (aggregate frags)).
Proof. apply ids_fold_NoDup. constructor. Qed.

#[export] Hint Resolve aggregate_ids_NoDup : csv.

Lemma abs_aggregate frags : abs (aggregate frags) = spec_aggregate frags.
Proof. unfold aggregate. by rewrite abs_fold. Qed.

Lemma aggregate_snoc_NaN frags fr :
  Decoder.number fr = NaN ->
  aggregate (frags ++ [fr]) = aggregate frags ++ [mk_entry NaN (write_cells fr ∅)].
Proof.
  intros Hn. unfold aggregate. rewrite fold_left_app. simpl.
  rewrite upsert_new by (rewrite Hn; apply find_entry_NaN). by rewrite Hn.
Qed.

Lemma decode_all_app d1 d2 :
  decode_all (d1 ++ d2) = (f1 <- decode_all d1 ;; f2 <- decode_all d2 ;; Ok (f1 ++ f2)).
Proof.
  induction d1 as [|line d1 IH]; simpl; [by destruct (decode_all d2)|].
  destruct (Decoder.decode line); simpl; [|done]. rewrite IH.
  destruct (decode_all d1), (decode_all d2); done.
Qed.

Lemma write_entry_wf fr e :
  String.length (Decoder.type fr) <= 1 -> wf_row e -> wf_row (write_entry fr e).
Proof.
  intros Ht He k v. unfold write_entry, write_cells. simpl.
  rewrite !lookup_insert_Some.
  intros [[<- _]|[_ [[<- _]|[_ [[<- _]|[_ Hk]]]]]];
    [by exists AZ, (Decoder.type fr)|by exists AY, (Decoder.type fr)|by exists AX, (Decoder.type fr)|].
  by eapply He.
Qed.

(** A property of row objects that fresh rows have and that writing every
    fragment keeps holds of every row of the aggregation. *)
Lemma upsert_Forall (P : entry -> Prop) rows fr :
  (forall n, P (mk_entry n ∅)) -> (forall e, P e -> P (write_entry fr e)) ->
  Forall P rows -> Forall P (upsert rows fr).
Proof.
  intros Hnew Hwrite Hrows. unfold upsert.
  destruct (find_entry _ _) as [[i e]|]; apply Forall_alter; intros; auto.
  apply Forall_app; split; [done|]. by constructor.
Qed.

Lemma aggregate_Forall (P : entry -> Prop) frags :
  (forall n, P (mk_entry n ∅)) -> Forall (fun fr => forall e, P e -> P (write_entry fr e)) frags ->
  Forall P (aggregate frags).
Proof.
  intros Hnew Hfr. unfold aggregate. generalize (Forall_nil_2 P : Forall P []).
  generalize (@nil entry). induction Hfr as [|fr frags Hfr _ IH]; intros rows Hrows; [done|].
  simpl. apply IH. by apply upsert_Forall.
Qed.

Lemma aggregate_wf frags :
  Forall (fun fr => String.length (Decoder.type fr) <= 1) frags -> Forall wf_row (aggregate frags).
Proof.
  intros Hfr. apply aggregate_Forall.
  - intros n k v. cbn [cells]. by rewrite lookup_empty.
  - eapply Forall_impl; [exact Hfr|]. intros. by apply write_entry_wf.
Qed.

(** Every cell of the aggregation holds the [x], [y] or [z] of a fragment. *)
Lemma aggregate_values (V : value -> Prop) frags :
  Forall (fun fr => V (Decoder.x fr) /\ V (Decoder.y fr) /\ V (Decoder.z fr)) frags ->
  Forall (fun e => map_Forall (fun _ v => V v) (cells e)) (aggregate frags).
Proof.
  intros Hfr. apply aggregate_Forall; [intros n; apply map_Forall_empty|].
  eapply Forall_impl; [exact Hfr|]. intros fr (Hx & Hy & Hz) e He.
  unfold write_entry, write_cells. cbn [cells]. by repeat apply map_Forall_insert_2.
Qed.

(** ** Properties of the aggregation *)

(** C2: refinement.  After folding any fragment sequence, the row array
    stands for the map specification (identifier to cells, last write
    wins), holds one row of its own for every NaN fragment, in order, and
    never holds two rows with the same numeric identifier. *)
Theorem aggregate_refinement frags :
  abs (aggregate frags) = spec_aggregate frags /\
  nan_rows (aggregate frags) =
    (fun fr => write_cells fr ∅) <$> filter (fun fr => Decoder.number fr = NaN) frags /\
  NoDup (ids (aggregate frags)).
Proof.
  split_and!.
  - apply abs_aggregate.
  - unfold aggregate. by rewrite nan_rows_fold.
  - auto with csv.
Qed.

(** C3: the cell [`${axis}${t}`] of the row that [find] returns for
    identifier [n] is the coordinate of the last fragment with identifier
    [n] and tag [t] (last write wins); it is absent when no fragment has
    that identifier and tag, and there is no row when no fragment has the
    identifier. *)
Theorem aggregate_cells frags n a t :
  ((cells ∘ snd) <$> find_entry (Num n) (aggregate frags)) ≫= lookup (cell_key a t) =
  axis_value a <$> last_fragment frags n t.
Proof. rewrite <- abs_lookup, abs_aggregate. apply spec_aggregate_cell. Qed.

(** C31: [find] finds a row for a numeric identifier exactly when some
    fragment carries that identifier. *)
Theorem aggregate_row_exists frags n :
  is_Some (find_entry (Num n) (aggregate frags)) <->
  exists fr, fr ∈ frags /\ Decoder.number fr = Num n.
Proof.
  assert (Habs : is_Some (abs (aggregate frags) !! n) <-> is_Some (find_entry (Num n) (aggregate frags))).
  { rewrite abs_lookup. apply fmap_is_Some. }
  rewrite <- Habs. unfold aggregate. rewrite abs_fold, spec_fold_is_Some. simpl.
  rewrite lookup_empty. split; [by intros [[? ?]|?]|by right].
Qed.

(** C16: NaN identifiers never merge: the number of rows is the number of
    distinct numeric identifiers plus the number of NaN fragments (one
    row per line whose first field has no digits, the empty last line of
    a file included). *)
Theorem aggregate_length frags :
  length (aggregate frags) =
  size (spec_aggregate frags) + length (filter (fun fr => Decoder.number fr = NaN) frags).
Proof.
  unfold aggregate, spec_aggregate. rewrite length_ids_nan_rows.
  replace (fold_left spec_upsert frags ∅) with (abs (fold_left upsert frags [])) by apply abs_fold.
  rewrite size_abs.
  - f_equal. rewrite nan_rows_fold. simpl. by rewrite length_fmap.
  - exact (aggregate_ids_NoDup frags).
Qed.

(** The loop with the spec's phases: running [data.forEach] on the rows
    (decoding and merging line by line, and stopping at the first
    exception) is decoding every line first and then folding. *)
Lemma process_data_decode_all rows data :
  process_data rows data = (frags <- decode_all data ;; Ok (fold_left upsert frags rows)).
Proof.
  revert rows. induction data as [|line data IH]; intros rows; [done|].
  simpl. unfold process_line. destruct (Decoder.decode line) as [fr|e]; simpl; [|done].
  rewrite IH. by destruct (decode_all data).
Qed.

(** C14: invariant.  [processFile]'s loop keeps the numeric identifiers of
    the rows pairwise distinct: started on such rows, every run that
    returns gives such rows. *)
Theorem process_data_ids_NoDup rows data rows' :
  NoDup (ids rows) -> process_data rows data = Ok rows' -> NoDup (ids rows').
Proof.
  intros Hnd. revert rows Hnd. induction data as [|line data IH]; intros rows Hnd; simpl.
  - by intros [= <-].
  - unfold process_line. destruct (Decoder.decode line) as [fr|e]; simpl; [|done].
    apply IH. by apply ids_upsert_NoDup.
Qed.

Lemma process_data_ids_NoDup_witness :
  NoDup (ids (result_default [] (process_data [] [["2a/1/2/3"]; ["2b/4/5/6"]; ["1a/7/8/9"]]))).
Proof.
  apply (process_data_ids_NoDup [] [["2a/1/2/3"]; ["2b/4/5/6"]; ["1a/7/8/9"]]);
    [constructor|vm_compute; reflexivity].
Defined.

End Aggregator.
