(* ===== verification/Sequencer.v ===== *)
(** * Sequencer: [result.sort((a, b) => a.number - b.number)] (line 66)

    ECMA-262 leaves the algorithm of [Array.prototype.sort] to the engine
    and promises a sorted permutation only for a consistent comparator.
    [ArraySort] is that contract, as a class: a sort on lists, parametrised
    by a comparator returning a JS number, which permutes its input and
    whose output is sorted for [SortCompare <= 0] when that relation is
    total and transitive on the elements.  Two engines' algorithms are
    given as instances: a stable merge sort (stdpp's [merge_sort], the
    shape of TimSort's merges) and a stable insertion sort (what engines
    run on short arrays).  The client, line 66, is [sort_rows]; its
    theorems are proved against the class, so they hold for any engine. *)

From S2P Require Import Prelude JsCore Decoder Aggregator.
Import Aggregator.

Module Sequencer.

(** [SortCompare(a, b) <= 0]: [a] may stay before [b]. *)
Definition sort_le {A} (cmp : A -> A -> jsnum) (a b : A) : Prop :=
  (sort_compare_result (cmp a b) <= 0)%Z.

#[export] Instance sort_le_dec {A} (cmp : A -> A -> jsnum) : RelDecision (sort_le cmp).
Proof. intros a b. unfold sort_le. apply _. Defined.

(** What [Array.prototype.sort] promises. *)
Class ArraySort := {
  array_sort {A} : (A -> A -> jsnum) -> list A -> list A;
  array_sort_Permutation {A} (cmp : A -> A -> jsnum) (l : list A) :
    array_sort cmp l ≡ₚ l;
  array_sort_sorted {A} (cmp : A -> A -> jsnum) (l : list A) :
    Total (sort_le cmp) ->
    (forall x y z, x ∈ l -> y ∈ l -> z ∈ l ->
       sort_le cmp x y -> sort_le cmp y z -> sort_le cmp x z) ->
    StronglySorted (sort_le cmp) (array_sort cmp l)
}.

(** ** Two engines *)

Lemma transitive_on_perm {A} (R : relation A) (l k : list A) :
  k ≡ₚ l ->
  (forall x y z, x ∈ l -> y ∈ l -> z ∈ l -> R x y -> R y z -> R x z) ->
  forall x y z, x ∈ k -> y ∈ k -> z ∈ k -> R x y -> R y z -> R x z.
Proof. intros Hp Htr x y z Hx Hy Hz. apply Htr; by rewrite <- Hp. Qed.

#[export] Instance merge_array_sort : ArraySort.
Proof.
  refine {| array_sort A cmp l := merge_sort (sort_le cmp) l |}.
  - intros A cmp l. apply merge_sort_Permutation.
  - intros A cmp l Htot Htr. apply Sorted_StronglySorted_on.
    + eapply transitive_on_perm; [apply merge_sort_Permutation|done].
    + by apply Sorted_merge_sort.
Defined.

(** Stable insertion: [x] goes before the first [y] it may precede. *)
Fixpoint insert_le {A} (R : relation A) `{HR : RelDecision A A R} (x : A) (l : list A) : list A :=
  match l with
  | [] => [x]
  | y :: l' => if decide (R x y) then x :: y :: l' else y :: insert_le R x l'
  end.

Fixpoint insertion_sort {A} (R : relation A) `{HR : RelDecision A A R} (l : list A) : list A :=
  match l with
  | [] => []
  | x :: l' => insert_le R x (insertion_sort R l')
  end.

Section Insertion.
Context {A : Type} (R : relation A) `{!RelDecision R}.

Lemma insert_le_Permutation x l : insert_le R x l ≡ₚ x :: l.
Proof.
  induction l as [|y l IH]; simpl; [done|]. case_decide; [done|].
  rewrite IH. apply perm_swap.
Qed.

Lemma insertion_sort_Permutation l : insertion_sort R l ≡ₚ l.
Proof.
  induction l as [|x l IH]; simpl; [done|]. by rewrite insert_le_Permutation, IH.
Qed.

Lemma insert_le_Sorted `{!Total R} x l : Sorted R l -> Sorted R (insert_le R x l).
Proof.
  induction l as [|y l IH]; intros Hs; simpl; [by repeat constructor|].
  case_decide as Hxy; [constructor; [done|by constructor]|].
  inversion Hs as [|? ? Hs' Hhd]; subst.
  constructor; [by apply IH|].
  destruct (total R x y) as [|Hyx]; [done|].
  destruct l as [|z l]; simpl; [by constructor|].
  inversion Hhd; subst. case_decide; by constructor.
Qed.

Lemma insertion_sort_Sorted `{!Total R} l : Sorted R (insertion_sort R l).
Proof. induction l as [|x l IH]; simpl; [constructor|]. by apply insert_le_Sorted. Qed.
End Insertion.

Definition insertion_array_sort : ArraySort.
Proof.
  refine {| array_sort A cmp l := insertion_sort (sort_le cmp) l |}.
  - intros A cmp l. apply insertion_sort_Permutation.
  - intros A cmp l Htot Htr. apply Sorted_StronglySorted_on.
    + eapply transitive_on_perm; [apply insertion_sort_Permutation|done].
    + by apply insertion_sort_Sorted.
Defined.

(** ** Line 66 *)

(** [(a, b) => a.number - b.number] *)
Definition by_number (a b : entry) : jsnum := num_sub (number a) (number b).

(** [result.sort(...)]: the array is sorted in place and [sortedResult] is
    the same array, so the model returns the sorted list. *)
Definition sort_rows `{ArraySort} (rows : list entry) : list entry :=
  array_sort by_number rows.

(** ** Lemmas *)

(** A row whose identifier is a Number other than NaN: an integer of
    magnitude at most 2^1024 (the infinities included), which is what
    [parseInt] returns when it does not return NaN. *)
Definition numeric (e : entry) : Prop :=
  match number e with
  | Num z => (Z.abs z <= inf_bits)%Z
  | NaN => False
  end.

Lemma sort_le_by_number a b x y :
  number a = Num x -> number b = Num y -> (Z.abs x <= inf_bits)%Z -> (Z.abs y <= inf_bits)%Z ->
  sort_le by_number a b <-> (x <= y)%Z.
Proof. intros Ha Hb Hx Hy. unfold sort_le, by_number. rewrite Ha, Hb. by apply num_sub_le. Qed.

#[export] Instance by_number_total : Total (sort_le by_number).
Proof.
  intros a b. unfold sort_le, by_number.
  destruct (number a) as [|x], (number b) as [|y]; simpl; try lia. apply num_sub_total.
Qed.

Lemma numeric_Num e : numeric e -> exists z, number e = Num z /\ (Z.abs z <= inf_bits)%Z.
Proof. unfold numeric. destruct (number e); [done|]. by eexists. Qed.

Lemma by_number_trans x y z :
  numeric x -> numeric y -> numeric z ->
  sort_le by_number x y -> sort_le by_number y z -> sort_le by_number x z.
Proof.
  intros (a & Ha & Hra)%numeric_Num (b & Hb & Hrb)%numeric_Num (c & Hc & Hrc)%numeric_Num.
  rewrite !(sort_le_by_number _ _ _ _ Ha Hb), !(sort_le_by_number _ _ _ _ Hb Hc),
    !(sort_le_by_number _ _ _ _ Ha Hc) by done. lia.
Qed.

Lemma sort_rows_sorted `{ArraySort} rows :
  Forall numeric rows -> StronglySorted (sort_le by_number) (sort_rows rows).
Proof.
  intros Hnum. apply array_sort_sorted; [apply _|].
  rewrite Forall_forall in Hnum. intros x y z ???. apply by_number_trans; auto.
Qed.

Lemma StronglySorted_ids (R : relation entry) (P : relation Z) l :
  Forall numeric l ->
  (forall a b x y, numeric a -> numeric b -> number a = Num x -> number b = Num y -> R a b -> P x y) ->
  StronglySorted R l -> StronglySorted P (ids l).
Proof.
  intros Hnum HRP Hs. induction Hs as [|a l Hs IH Hf]; [constructor|].
  apply Forall_cons in Hnum as [Ha Hnum].
  unfold ids. simpl. destruct (number a) as [|x] eqn:Hna; [by unfold numeric in Ha; rewrite Hna in Ha|].
  constructor; [by apply IH|]. apply Forall_forall. intros y (b & Hb & Hy)%list_elem_of_omap.
  rewrite Forall_forall in Hf, Hnum. destruct (number b) eqn:Hnb; simplify_eq.
  apply (HRP a b); auto.
Qed.

Lemma ids_numeric_length rows : Forall numeric rows -> length (ids rows) = length rows.
Proof.
  unfold ids, numeric. induction 1 as [|e rows He _ IH]; [done|]. csimpl.
  destruct (number e); [done|]. csimpl. by rewrite IH.
Qed.

Lemma sort_rows_ids_sorted `{ArraySort} rows :
  Forall numeric rows -> NoDup (ids rows) -> StronglySorted Z.lt (ids (sort_rows rows)).
Proof.
  intros Hnum Hnd. apply StronglySorted_Zle_lt.
  - eapply StronglySorted_ids; [| |by apply sort_rows_sorted].
    + unfold sort_rows. by rewrite array_sort_Permutation.
    + intros a b x y (x' & Ha' & Hx)%numeric_Num (y' & Hb' & Hy)%numeric_Num Ha Hb.
      rewrite Ha in Ha'. rewrite Hb in Hb'. simplify_eq. by rewrite sort_le_by_number.
  - unfold ids, sort_rows. by rewrite array_sort_Permutation.
Qed.

(** A NaN identifier compares as equal to anything: [a - b] is NaN,
    which SortCompare reads as [+0]. *)
Lemma sort_le_NaN_l a b : number a = NaN -> sort_le by_number a b.
Proof. intros Ha. unfold sort_le, by_number. rewrite Ha. simpl. lia. Qed.
Lemma sort_le_NaN_r a b : number b = NaN -> sort_le by_number a b.
Proof. intros Hb. unfold sort_le, by_number. rewrite Hb. destruct (number a); simpl; lia. Qed.

(** ** Properties of line 66 *)

(** C6: whatever algorithm the engine runs, sorting rows whose identifiers
    are numbers and pairwise distinct (what the aggregation gives when no
    line has a NaN identifier) yields a permutation of the rows whose
    identifiers are strictly ascending, one identifier per row. *)
Theorem sort_rows_ascending `{ArraySort} rows :
  Forall numeric rows -> NoDup (ids rows) ->
  sort_rows rows ≡ₚ rows /\ StronglySorted Z.lt (ids (sort_rows rows)) /\
  length (ids (sort_rows rows)) = length rows.
Proof.
  intros Hnum Hnd. pose proof (array_sort_Permutation by_number rows) as Hp.
  split_and!; [done|by apply sort_rows_ids_sorted|].
  unfold sort_rows in *. rewrite ids_numeric_length; [by rewrite Hp|]. by rewrite Hp.
Qed.

Lemma sort_rows_ascending_witness :
  StronglySorted Z.lt (ids (sort_rows [mk_entry (Num 9) ∅; mk_entry (Num 2) ∅])).
Proof.
  refine (proj1 (proj2 (sort_rows_ascending [mk_entry (Num 9) ∅; mk_entry (Num 2) ∅] _ _))).
  - repeat constructor; discriminate.
  - vm_compute. repeat constructor; set_solver.
Defined.

(** C15: equivalence of engines.  On rows with numeric, pairwise distinct
    identifiers, any two implementations of [Array.prototype.sort] return
    the same array: the sorted table does not depend on the engine. *)
Theorem sort_rows_engine_independent (S1 S2 : ArraySort) rows :
  Forall numeric rows -> NoDup (ids rows) ->
  @sort_rows S1 rows = @sort_rows S2 rows.
Proof.
  intros Hnum Hnd. apply (StronglySorted_unique_strong (sort_le by_number)).
  - intros x1 x2 Hx1 Hx2 H12 H21. unfold sort_rows in *.
    rewrite array_sort_Permutation in Hx1. rewrite array_sort_Permutation in Hx2.
    rewrite Forall_forall in Hnum.
    destruct (numeric_Num x1 (Hnum x1 Hx1)) as (a & Ha & Hra).
    destruct (numeric_Num x2 (Hnum x2 Hx2)) as (b & Hb & Hrb).
    rewrite (sort_le_by_number _ _ a b) in H12 by done.
    rewrite (sort_le_by_number _ _ b a) in H21 by done.
    assert (a = b) as <- by lia. by eapply same_number_same_entry.
  - by apply sort_rows_sorted.
  - by apply sort_rows_sorted.
  - unfold sort_rows. by rewrite !array_sort_Permutation.
Qed.

Lemma sort_rows_engine_independent_witness :
  @sort_rows merge_array_sort [mk_entry (Num 9) ∅; mk_entry (Num 2) ∅; mk_entry (Num 5) ∅] =
  @sort_rows insertion_array_sort [mk_entry (Num 9) ∅; mk_entry (Num 2) ∅; mk_entry (Num 5) ∅].
Proof.
  apply sort_rows_engine_independent; [repeat constructor; discriminate|].
  vm_compute. repeat constructor; set_solver.
Defined.

(** C20: with a NaN identifier among the rows the comparator is not
    consistent and the order is the engine's.  For any two rows with
    numeric identifiers [x > y] and a row [e] with a NaN identifier, the
    comparator puts the first row before [e] and [e] before the second,
    but not the first before the second; on [[a; e; b]] the insertion sort
    (and the binary insertion sort engines run on short arrays) leaves
    the numeric rows out of order, while the merge sort returns
    [[b; a; e]]. *)
Theorem sort_rows_NaN_engine_dependent a e b x y :
  number a = Num x -> number b = Num y -> number e = NaN ->
  (Z.abs x <= inf_bits)%Z -> (Z.abs y <= inf_bits)%Z -> (y < x)%Z ->
  (sort_le by_number a e /\ sort_le by_number e b /\ ~ sort_le by_number a b) /\
  @sort_rows insertion_array_sort [a; e; b] = [a; e; b] /\
  @sort_rows merge_array_sort [a; e; b] = [b; a; e].
Proof.
  intros Ha Hb He Hx Hy Hlt.
  assert (Hab : ~ sort_le by_number a b) by (rewrite (sort_le_by_number a b x y) by done; lia).
  assert (Hba : sort_le by_number b a) by (rewrite (sort_le_by_number b a y x) by done; lia).
  pose proof (sort_le_NaN_l e) as Hel. pose proof (sort_le_NaN_r) as Her.
  split_and!; [by apply Her|by apply Hel|done| |].
  - unfold sort_rows. simpl. rewrite decide_True by auto. simpl. by rewrite decide_True by auto.
  - unfold sort_rows. simpl. unfold merge_sort. simpl.
    rewrite decide_True by auto. simpl. by rewrite decide_True.
Qed.

Lemma sort_rows_NaN_engine_dependent_witness :
  (sort_le by_number (mk_entry (Num 2) ∅) (mk_entry NaN ∅) /\
   sort_le by_number (mk_entry NaN ∅) (mk_entry (Num 1) ∅) /\
   ~ sort_le by_number (mk_entry (Num 2) ∅) (mk_entry (Num 1) ∅)) /\
  @sort_rows insertion_array_sort [mk_entry (Num 2) ∅; mk_entry NaN ∅; mk_entry (Num 1) ∅] =
    [mk_entry (Num 2) ∅; mk_entry NaN ∅; mk_entry (Num 1) ∅] /\
  @sort_rows merge_array_sort [mk_entry (Num 2) ∅; mk_entry NaN ∅; mk_entry (Num 1) ∅] =
    [mk_entry (Num 1) ∅; mk_entry (Num 2) ∅; mk_entry NaN ∅].
Proof.
  apply (sort_rows_NaN_engine_dependent _ _ _ 2 1); try reflexivity; vm_compute; congruence.
Defined.

End Sequencer.
