(* ===== verification/Projector.v ===== *)
(** * Projector: [COLUMN_NAMES] and the rows handed to the encoders

    Lines 8-22 freeze the map from a row object's key ([number], [aa],
    [ba], ... [cd]) to an output label.  Lines 73-89 ([handleExportCSV])
    and 98-114 ([handleExportXLSX]) map every row object to a fresh object
    literal with thirteen computed keys, [item.number] first and then
    [item.aa ?? (empty string)] and so on in a fixed order.  An output object is the
    list of its own properties in creation order, which is the order
    [Object.keys] reports them in (none of the labels is an array index).
    Its values are a JS number (the identifier) or a string. *)

From S2P Require Import Prelude JsCore Decoder Aggregator.
Import Aggregator.

Module Projector.

(** Lines 8-22, in declaration order. *)
Definition COLUMN_NAMES : list (string * string) :=
  [("number", "ID");
   ("aa", "Top Left x"); ("ba", "Top Left y"); ("ca", "Top Left z");
   ("ab", "Top Right x"); ("bb", "Top Right y"); ("cb", "Top Right z");
   ("ac", "Bottom Right x"); ("bc", "Bottom Right y"); ("cc", "Bottom Right z");
   ("ad", "Bottom Left x"); ("bd", "Bottom Left y"); ("cd", "Bottom Left z")].

(** [COLUMN_NAMES.k]; as a computed key, a missing property would be the
    string ["undefined"] (ToPropertyKey of [undefined]). *)
Definition column (k : string) : string :=
  default "undefined" (list_to_map (M := gmap string string) COLUMN_NAMES !! k).

(** A property value of the output objects. *)
Inductive out_value := ONum (n : jsnum) | OStr (s : string).

#[export] Instance out_value_eq_dec : EqDecision out_value.
Proof. solve_decision. Defined.

(** [item.k] on a row object: [undefined] when the row has no such own
    property. *)
Definition get (item : entry) (k : string) : value :=
  default Undefined (cells item !! k).

(** [[COLUMN_NAMES.k]: item.k ?? (empty string)] *)
Definition cell (item : entry) (k : string) : string * out_value :=
  (column k, OStr (coalesce (get item k) EmptyString)).

(** Lines 74-88. *)
Definition csv_row (item : entry) : list (string * out_value) :=
  [(column "number", ONum (number item));
   cell item "aa"; cell item "ba"; cell item "ca";
   cell item "ab"; cell item "bb"; cell item "cb";
   cell item "ac"; cell item "bc"; cell item "cc";
   cell item "ad"; cell item "bd"; cell item "cd"].

(** [item.number ?? (empty string)]: the [number] of a row object is always a number
    (line 57 creates it with one), so [??] keeps it. *)
Definition number_or_empty (n : jsnum) : out_value := ONum n.

(** Lines 99-113. *)
Definition xlsx_row (item : entry) : list (string * out_value) :=
  [(column "number", number_or_empty (number item));
   cell item "aa"; cell item "ba"; cell item "ca";
   cell item "ab"; cell item "bb"; cell item "cb";
   cell item "ac"; cell item "bc"; cell item "cc";
   cell item "ad"; cell item "bd"; cell item "cd"].

(** Line 73 and line 98. *)
Definition csvData (parsedData : list entry) : list (list (string * out_value)) :=
  csv_row <$> parsedData.

Definition xlsxData (parsedData : list entry) : list (list (string * out_value)) :=
  xlsx_row <$> parsedData.

(** ** The spec's table of columns *)

(** The corners [a], [b], [c], [d] and their positional names. *)
Inductive corner := CA | CB | CC | CD.

Definition corner_tag (c : corner) : string :=
  match c with CA => "a" | CB => "b" | CC => "c" | CD => "d" end.

Definition corner_name (c : corner) : string :=
  match c with
  | CA => "Top Left" | CB => "Top Right" | CC => "Bottom Right" | CD => "Bottom Left"
  end.

Definition axis_name (a : axis) : string :=
  match a with AX => "x" | AY => "y" | AZ => "z" end.

(** The label the spec gives to axis [a] of corner [c]. *)
Definition spec_label (a : axis) (c : corner) : string :=
  corner_name c +:+ " " +:+ axis_name a.

(** The header of the spec's output boundary A, column by column. *)
Definition spec_header : list string :=
  ["ID"] ++ (c ← [CA; CB; CC; CD]; a ← [AX; AY; AZ]; [spec_label a c]).

(** Looking a label up in an output object. *)
Definition prop (o : list (string * out_value)) (label : string) : option out_value :=
  (fun p : nat * (string * out_value) => p.2.2) <$> list_find (fun kv : string * out_value => kv.1 = label) o.

(** ** Lemmas *)

Lemma csv_row_label item a c :
  prop (csv_row item) (spec_label a c) =
  Some (OStr (coalesce (get item (cell_key a (corner_tag c))) EmptyString)).
Proof. destruct a, c; vm_compute; reflexivity. Qed.

Lemma csv_row_ID item : prop (csv_row item) "ID" = Some (ONum (number item)).
Proof. vm_compute. reflexivity. Qed.

Lemma csv_row_labels item : fst <$> csv_row item = spec_header.
Proof. reflexivity. Qed.

Lemma spec_header_NoDup : NoDup spec_header.
Proof.
  apply NoDup_alt. intros i j x Hi Hj. apply lookup_lt_Some in Hi as Hi'.
  apply lookup_lt_Some in Hj as Hj'. vm_compute in Hi', Hj'.
  do 13 (destruct i as [|i]; [do 13 (destruct j as [|j]; [vm_compute in Hi, Hj; congruence|]); lia|]).
  lia.
Qed.

(** ** Properties *)

End Projector.
