(* ===== verification/Emitters.v ===== *)
(** * Emitters: Papa.unparse and SheetJS, as the component calls them

    These encoders are libraries, not code of this repository; they are
    written here from their documented behaviour, for the one call each
    the component makes.

    - [unparse] is [Papa.unparse(csvData)] (line 91) with the default
      configuration: the header is [Object.keys] of the first object,
      fields are joined with [","], records with ["\r\n"], no newline after
      the last record, and a field is quoted when, after doubling its
      quote characters, it contains a quote, CR, LF or comma, or starts or
      ends with a space (the byte-order mark of Papa's list is not a code
      unit of the strings modelled here).  A number is printed with
      Number::toString: the shortest digits that round back to it, in full
      below 10^21 and with an exponent from there on, or [Infinity].
    - [json_to_sheet] is [XLSX.utils.json_to_sheet(xlsxData)] (line 116):
      a grid whose first row is the keys of the objects in first-seen
      order and whose other rows hold, under each key, the object's value
      (numbers as numeric cells, strings as text cells) or nothing;
      [book_append_sheet] adds it under the name ["Sheet1"] (lines
      117-118).  The zip container written by [XLSX.write] is not
      modelled: the model of the download is the workbook itself.
    - [read_csv] is not a model of code: it is the RFC 4180 reading of a
      CSV text (quoted fields with doubled quotes, records ended by CRLF),
      with fuel [length s + 2], used to state what the exported file holds
      ([export_csv_roundtrip]). *)

From S2P Require Import Prelude JsCore Decoder Aggregator Projector.
From Stdlib Require Import DecimalString.
Import Projector.

Module Emitters.

(** ** Papa.unparse *)

(** The decimal digits of a non-negative integer. *)
Definition decimal (m : Z) : string := NilZero.string_of_int (Z.to_int m).

(** [m / p] rounded to nearest, ties to even. *)
Definition div_round_even (m p : Z) : Z :=
  (let q := m / p in
   let r := m mod p in
   if 2 * r <? p then q
   else if p <? 2 * r then q + 1
   else if Z.even q then q else q + 1)%Z.

(** Number::toString (ECMA-262 6.1.6.1.20) step 5 for a positive integer
    Number [m] with [n] decimal digits: for [k = 1, 2, ...] the [k]-digit
    [s] whose [s * 10^(n-k)] is closest to [m] (ties to even), until that
    value rounds to [m]; a carry to [10^k] is written [10^(k-1)] with one
    more digit before the point.  [k = n] gives [s = m], so [n] turns are
    enough.  The result is [(s, k, n)]. *)
Fixpoint shortest_from (fuel : nat) (k m n : Z) : Z * Z * Z :=
  match fuel with
  | O => (m, n, n)
  | S fuel =>
      let s := div_round_even m (10 ^ (n - k)) in
      let '(s, n') := if (s =? 10 ^ k)%Z then (10 ^ (k - 1), n + 1)%Z else (s, n) in
      if (round_mag (s * 10 ^ (n' - k)) =? m)%Z then (s, k, n')
      else shortest_from fuel (k + 1)%Z m n
  end.

Definition shortest (m : Z) : Z * Z * Z :=
  let n := String.length (decimal m) in
  shortest_from n 1 m (Z.of_nat n).

(** Steps 6 and 10: [s] followed by [n - k] zeros when [n <= 21], else
    the exponent form [d.ddde+x]. *)
Definition positive_to_string (m : Z) : string :=
  let '(s, k, n) := shortest m in
  if (n <=? 21)%Z then decimal s +:+ String.concat EmptyString (repeat "0" (Z.to_nat (n - k)))
  else
    let ds := decimal s in
    let mantissa := match ds with
                    | String d rest => if (k =? 1)%Z then String d EmptyString else String d (String "." rest)
                    | EmptyString => EmptyString
                    end in
    mantissa +:+ "e+" +:+ decimal (n - 1).

(** Number::toString on the Numbers of the model (steps 1-4: NaN, zero,
    a sign, Infinity). *)
Definition number_to_string (n : jsnum) : string :=
  match n with
  | NaN => "NaN"
  | Num z =>
      if (z =? 0)%Z then "0"
      else
        let sign := if (z <? 0)%Z then "-" else EmptyString in
        if is_inf z then sign +:+ "Infinity"
        else sign +:+ positive_to_string (Z.abs z)
  end.

(** [str.toString()] of a property value. *)
Definition to_string (v : out_value) : string :=
  match v with
  | ONum n => number_to_string n
  | OStr s => s
  end.

Definition quote : ascii := "034".
Definition comma : ascii := ",".
Definition cr : ascii := "013".
Definition lf : ascii := "010".
Definition space : ascii := " ".

(** [str.replace(quoteCharRegex, escapedQuote)]: every quote is doubled. *)
Fixpoint escape_quotes (s : string) : string :=
  match s with
  | EmptyString => EmptyString
  | String c s' =>
      if ascii_dec c quote then String quote (String quote (escape_quotes s'))
      else String c (escape_quotes s')
  end.

Definition first_char (s : string) : option ascii :=
  match s with String c _ => Some c | EmptyString => None end.

Fixpoint last_char (s : string) : option ascii :=
  match s with
  | EmptyString => None
  | String c EmptyString => Some c
  | String _ s' => last_char s'
  end.

(** The [needsQuotes] test of [safe], with [quotes: false]. *)
Definition needs_quotes (s : string) : bool :=
  has_char cr s || has_char lf s || has_char quote s || has_char comma s ||
  bool_decide (first_char s = Some space) || bool_decide (last_char s = Some space).

(** [safe(str, col)] *)
Definition safe_string (str : string) : string :=
  let escaped := escape_quotes str in
  if needs_quotes escaped then String quote (escaped +:+ String quote EmptyString)
  else escaped.

Definition safe (v : option out_value) : string :=
  match v with
  | None => EmptyString
  | Some v => safe_string (to_string v)
  end.

Definition newline : string := String cr (String lf EmptyString).

(** One record: [data[row][fields[col]]] for every field. *)
Definition record (fields : list string) (o : list (string * out_value)) : string :=
  concat_with "," ((fun f => safe (prop o f)) <$> fields).

(** [Papa.unparse(data)] on an array of objects. *)
Definition unparse (data : list (list (string * out_value))) : string :=
  match data with
  | [] => EmptyString
  | o0 :: _ =>
      let fields := fst <$> o0 in
      concat_with "," (safe_string <$> fields) +:+ newline +:+
      concat_with newline (record fields <$> data)
  end.

(** ** SheetJS *)

Inductive sheet_cell := CNum (n : jsnum) | CText (s : string) | CBlank.

Definition to_cell (v : option out_value) : sheet_cell :=
  match v with
  | Some (ONum n) => CNum n
  | Some (OStr s) => CText s
  | None => CBlank
  end.

(** The keys of the objects, in first-seen order. *)
Definition sheet_header (data : list (list (string * out_value))) : list string :=
  fold_left (fun hdr o => hdr ++ filter (fun k => k ∉ hdr) (remove_dups (fst <$> o))) data [].

(** [XLSX.utils.json_to_sheet(data)]: the header row, then one row per
    object. *)
Definition json_to_sheet (data : list (list (string * out_value))) : list (list sheet_cell) :=
  let hdr := sheet_header data in
  (CText <$> hdr) :: ((fun o => (fun k => to_cell (prop o k)) <$> hdr) <$> data).

(** [book_new()] then [book_append_sheet(workbook, worksheet, 'Sheet1')]. *)
Definition workbook (data : list (list (string * out_value))) : list (string * list (list sheet_cell)) :=
  [("Sheet1", json_to_sheet data)].

(** Every row object of [xlsxData] has the spec's thirteen keys, so the
    sheet's header is the spec's header. *)
Lemma sheet_header_xlsxData rows : rows <> [] -> sheet_header (xlsxData rows) = spec_header.
Proof.
  destruct rows as [|r rows]; [done|]. intros _. unfold sheet_header, xlsxData.
  rewrite fmap_cons. cbn [fold_left]. change (fst <$> xlsx_row r) with spec_header.
  replace ([] ++ filter _ (remove_dups spec_header)) with spec_header by (vm_compute; reflexivity).
  induction rows as [|r' rows IH]; [done|]. rewrite fmap_cons. cbn [fold_left].
  change (fst <$> xlsx_row r') with spec_header.
  replace (spec_header ++ filter _ (remove_dups spec_header)) with spec_header by (vm_compute; reflexivity).
  exact IH.
Qed.

(** ** Reading the text back (RFC 4180) *)

(** The content of a quoted field, after its opening quote, up to the
    closing quote; a doubled quote stands for one quote. *)
Fixpoint read_quoted (s : string) : option (string * string) :=
  match s with
  | EmptyString => None
  | String c s' =>
      if ascii_dec c quote then
        match s' with
        | String c2 s'' =>
            if ascii_dec c2 quote then
              match read_quoted s'' with
              | Some (f, rest) => Some (String quote f, rest)
              | None => None
              end
            else Some (EmptyString, s')
        | EmptyString => Some (EmptyString, EmptyString)
        end
      else
        match read_quoted s' with
        | Some (f, rest) => Some (String c f, rest)
        | None => None
        end
  end.

(** An unquoted field: up to the next comma or CR. *)
Fixpoint read_unquoted (s : string) : string * string :=
  match s with
  | EmptyString => (EmptyString, EmptyString)
  | String c s' =>
      if ascii_dec c comma then (EmptyString, s)
      else if ascii_dec c cr then (EmptyString, s)
      else let '(f, rest) := read_unquoted s' in (String c f, rest)
  end.

Definition read_field (s : string) : option (string * string) :=
  match s with
  | String c s' => if ascii_dec c quote then read_quoted s' else Some (read_unquoted s)
  | EmptyString => Some (EmptyString, EmptyString)
  end.

(** The fields of one record, up to CRLF or the end of the text. *)
Fixpoint read_record (fuel : nat) (s : string) : option (list string * string) :=
  match fuel with
  | O => None
  | S fuel' =>
      match read_field s with
      | Some (f, String c rest) =>
          if ascii_dec c comma then
            match read_record fuel' rest with
            | Some (fs, rest') => Some (f :: fs, rest')
            | None => None
            end
          else Some ([f], String c rest)
      | Some (f, EmptyString) => Some ([f], EmptyString)
      | None => None
      end
  end.

(** The records of a text. *)
Fixpoint read_records (fuel : nat) (s : string) : option (list (list string)) :=
  match fuel with
  | O => None
  | S fuel' =>
      match read_record fuel' s with
      | Some (fs, EmptyString) => Some [fs]
      | Some (fs, String c (String c2 rest)) =>
          if Ascii.eqb c cr && Ascii.eqb c2 lf then
            match read_records fuel' rest with
            | Some rs => Some (fs :: rs)
            | None => None
            end
          else None
      | _ => None
      end
  end.

Definition read_csv (s : string) : option (list (list string)) :=
  read_records (S (S (String.length s))) s.

(** Number::toString on the values the identifiers take: exact below
    2^53, 2^53 + 1 rounded to 2^53, 2^60 with its shortest digits, the
    exponent form from 10^21 on, the largest double, and an overflow. *)
Example number_to_string_samples :
  (fun z => number_to_string (to_number z)) <$>
    [0; -7; 2 ^ 53 + 1; 2 ^ 60; 10 ^ 21; 2 ^ 70; 2 ^ 1024 - 2 ^ 970 - 1; 10 ^ 309]%Z =
  ["0"; "-7"; "9007199254740992"; "1152921504606847000"; "1e+21"; "1.1805916207174113e+21";
   "1.7976931348623157e+308"; "Infinity"].
Proof. vm_compute. reflexivity. Qed.

(** ** The characters Number::toString prints *)

Definition number_chars : list ascii :=
  ["0"; "1"; "2"; "3"; "4"; "5"; "6"; "7"; "8"; "9"; "-"; "+"; "."; "e";
   "N"; "a"; "I"; "n"; "f"; "i"; "t"; "y"]%char.

Lemma decimal_chars m : chars_in number_chars (decimal m) = true.
Proof.
  assert (Hu : forall u, chars_in number_chars (NilEmpty.string_of_uint u) = true).
  { induction u; cbn [NilEmpty.string_of_uint]; rewrite ?chars_in_cons, ?IHu; reflexivity. }
  unfold decimal, NilZero.string_of_int, NilZero.string_of_uint.
  destruct (Z.to_int m) as [u|u]; [|rewrite chars_in_cons]; destruct u; try reflexivity; apply Hu.
Qed.

Lemma positive_to_string_chars m : chars_in number_chars (positive_to_string m) = true.
Proof.
  unfold positive_to_string. destruct (shortest m) as [[s k] n].
  destruct (n <=? 21)%Z.
  - rewrite chars_in_app, decimal_chars. apply chars_in_concat; [done|].
    apply Forall_forall. intros x Hx%list_elem_of_In%repeat_spec. by subst x.
  - rewrite !chars_in_app, decimal_chars. pose proof (decimal_chars s) as Hs.
    destruct (decimal s) as [|d rest]; [done|]. rewrite chars_in_cons in Hs.
    apply andb_true_iff in Hs as [Hd Hrest].
    destruct (k =? 1)%Z; rewrite !chars_in_cons, Hd; [done|]. by rewrite Hrest.
Qed.

Lemma number_to_string_chars n : chars_in number_chars (number_to_string n) = true.
Proof.
  destruct n as [|z]; [reflexivity|]. unfold number_to_string.
  destruct (z =? 0)%Z; [reflexivity|].
  destruct (is_inf z); rewrite chars_in_app; [destruct (z <? 0)%Z; reflexivity|].
  rewrite positive_to_string_chars. by destruct (z <? 0)%Z.
Qed.

(** ** Lemmas on quoting *)

Lemma escape_no_quote s : has_char quote s = false -> escape_quotes s = s.
Proof.
  induction s as [|c s IH]; [done|]. cbn [has_char escape_quotes].
  destruct (ascii_dec quote c), (ascii_dec c quote); subst; try done.
  intros H. by rewrite IH.
Qed.

Lemma has_char_quote_escape s : has_char quote (escape_quotes s) = has_char quote s.
Proof.
  induction s as [|c s IH]; [done|]. cbn [has_char escape_quotes].
  destruct (ascii_dec c quote) as [->|Hne]; cbn [has_char].
  - by destruct (ascii_dec quote quote).
  - destruct (ascii_dec quote c); [congruence|done].
Qed.

Lemma read_quoted_escape f rest :
  first_char rest <> Some quote ->
  read_quoted (escape_quotes f +:+ String quote rest) = Some (f, rest).
Proof.
  intros Hr. induction f as [|c f IH]; cbn [escape_quotes].
  - rewrite string_app_nil_l. cbn [read_quoted]. destruct (ascii_dec quote quote); [|done].
    destruct rest as [|c2 rest]; [done|]. simpl in Hr.
    destruct (ascii_dec c2 quote); [congruence|done].
  - destruct (ascii_dec c quote) as [->|Hne]; autorewrite with csv_rw; cbn [read_quoted].
    + destruct (ascii_dec quote quote); [|done]. by rewrite IH.
    + destruct (ascii_dec c quote); [done|]. by rewrite IH.
Qed.

Lemma read_unquoted_app f rest :
  has_char comma f = false -> has_char cr f = false ->
  first_char rest = None \/ first_char rest = Some comma \/ first_char rest = Some cr ->
  read_unquoted (f +:+ rest) = (f, rest).
Proof.
  intros Hc Hr Hrest. induction f as [|c f IH].
  - destruct rest as [|c' rest]; [done|]. simpl in Hrest. cbn [read_unquoted].
    destruct Hrest as [?|[[= ->]|[= ->]]]; [done| |]; simpl; [done|].
    by destruct (ascii_dec cr comma).
  - cbn [has_char] in Hc, Hr. rewrite string_app_cons. cbn [read_unquoted].
    destruct (ascii_dec comma c), (ascii_dec cr c); subst; try done.
    destruct (ascii_dec c comma), (ascii_dec c cr); subst; try done.
    by rewrite IH.
Qed.

Lemma read_field_unquoted s : first_char s <> Some quote -> read_field s = Some (read_unquoted s).
Proof. destruct s as [|c s]; [done|]. simpl. intros H. destruct (ascii_dec c quote); congruence. Qed.

(** The text [safe] writes for a field reads back as the field, whatever
    comes next, as long as it is a comma, a CR or the end. *)
Lemma read_field_safe f rest :
  first_char rest = None \/ first_char rest = Some comma \/ first_char rest = Some cr ->
  read_field (safe_string f +:+ rest) = Some (f, rest).
Proof.
  intros Hrest. unfold safe_string. destruct (needs_quotes (escape_quotes f)) eqn:Hq.
  - rewrite string_app_cons, <- string_app_assoc, string_app_cons, string_app_nil_l.
    cbn [read_field]. destruct (ascii_dec quote quote); [|done].
    apply read_quoted_escape. destruct Hrest as [-> | [-> | ->]]; done.
  - unfold needs_quotes in Hq. rewrite !orb_false_iff in Hq.
    destruct Hq as [[[[[Hcr Hlf] Hquote] Hcomma] _] _].
    rewrite has_char_quote_escape in Hquote. rewrite escape_no_quote in Hcr, Hcomma |- * by done.
    rewrite read_field_unquoted, read_unquoted_app; try done.
    destruct f as [|c f].
    + rewrite string_app_nil_l. destruct Hrest as [H | [H | H]]; by rewrite H.
    + rewrite string_app_cons. cbn [has_char first_char] in Hquote |- *.
      destruct (ascii_dec quote c); [done|congruence].
Qed.

(** ** Lemmas on records *)

Lemma read_record_safe fuel fields rest :
  fields <> [] -> length fields <= fuel ->
  first_char rest = None \/ first_char rest = Some cr ->
  read_record fuel (concat_with "," (safe_string <$> fields) +:+ rest) = Some (fields, rest).
Proof.
  revert fuel. induction fields as [|f fs IH]; intros fuel Hne Hlen Hrest; [done|].
  destruct fuel as [|fuel]; [simpl in Hlen; lia|]. cbn [read_record].
  destruct fs as [|f' fs].
  - cbn [fmap list_fmap concat_with]. rewrite read_field_safe by (destruct Hrest; auto).
    destruct rest as [|c rest]; [done|]. destruct Hrest as [?|[= ->]]; [done|].
    by destruct (ascii_dec cr comma).
  - rewrite fmap_cons, concat_with_cons by done.
    rewrite <- !string_app_assoc. autorewrite with csv_rw.
    rewrite read_field_safe by (right; left; reflexivity).
    destruct (ascii_dec comma comma); [|done].
    rewrite IH; [done|done|simpl in *; lia|done].
Qed.

Lemma read_records_safe fuel recs :
  recs <> [] -> Forall (fun r => r <> []) recs ->
  (forall r, r ∈ recs -> length r + length recs <= fuel) ->
  read_records fuel (concat_with newline ((fun r => concat_with "," (safe_string <$> r)) <$> recs)) =
  Some recs.
Proof.
  revert fuel. induction recs as [|r rs IH]; intros fuel Hne Hall Hlen; [done|].
  apply Forall_cons in Hall as [Hr Hrs].
  pose proof (Hlen r ltac:(left)) as Hr_len.
  destruct fuel as [|fuel]; [simpl in Hr_len; lia|]. cbn [read_records].
  destruct rs as [|r' rs].
  - cbn [fmap list_fmap concat_with].
    rewrite <- (string_app_nil_r (concat_with "," _)).
    rewrite read_record_safe; [done|done|simpl in Hr_len; lia|by left].
  - rewrite fmap_cons, concat_with_cons by done.
    rewrite read_record_safe; [|done|simpl in Hr_len; lia|by right].
    unfold newline. autorewrite with csv_rw. cbn [Ascii.eqb andb].
    rewrite !Ascii.eqb_refl. simpl andb.
    rewrite IH; [done|done|done|].
    intros r2 Hr2. pose proof (Hlen r2 ltac:(by right)). simpl in *. lia.
Qed.

Lemma read_csv_safe recs :
  recs <> [] -> Forall (fun r => r <> []) recs ->
  read_csv (concat_with newline ((fun r => concat_with "," (safe_string <$> r)) <$> recs)) =
  Some recs.
Proof.
  intros Hne Hall. apply read_records_safe; [done|done|].
  intros r Hr. rewrite Forall_forall in Hall. specialize (Hall r Hr).
  destruct r as [|f fs]; [done|].
  pose proof (concat_with_length newline _ _
    (list_elem_of_fmap_2 (fun r => concat_with "," (safe_string <$> r)) _ _ Hr)) as H1.
  pose proof (concat_with_length "," (safe_string <$> f :: fs) (safe_string f) ltac:(rewrite fmap_cons; left)) as H2.
  rewrite length_fmap, fmap_cons in H1. rewrite fmap_cons, length_cons, length_fmap in H2. simpl String.length in H1, H2 |- *.
  destruct recs; [done|]. simpl length in *. lia.
Qed.

(** ** The CSV export reads back *)

Lemma record_csv_row fields item :
  fields = spec_header ->
  record fields (csv_row item) = concat_with "," (safe_string <$> ((fun kv => to_string kv.2) <$> csv_row item)).
Proof. intros ->. reflexivity. Qed.

Lemma record_csv_rows (rows : list Aggregator.entry) :
  record spec_header <$> (csv_row <$> rows) =
  (fun r => concat_with "," (safe_string <$> r)) <$>
    ((fun r => (fun kv => to_string kv.2) <$> csv_row r) <$> rows).
Proof.
  induction rows as [|r rows IH]; [done|]. rewrite !fmap_cons, IH.
  by rewrite record_csv_row.
Qed.

(** The text of the CSV export: the header line, then one line per row,
    every field through [safe]. *)
Lemma unparse_csvData rows :
  rows <> [] ->
  unparse (csvData rows) =
  concat_with newline ((fun r => concat_with "," (safe_string <$> r)) <$>
    (spec_header :: ((fun r => (fun kv => to_string kv.2) <$> csv_row r) <$> rows))).
Proof.
  destruct rows as [|r0 rows]; [done|]. intros _. unfold unparse, csvData.
  rewrite fmap_cons. cbn beta iota. rewrite csv_row_labels, <- fmap_cons, record_csv_rows.
  rewrite <- (concat_with_cons newline (concat_with "," (safe_string <$> spec_header)))
    by (by rewrite fmap_cons).
  by rewrite <- (fmap_cons (fun r => concat_with "," (safe_string <$> r))).
Qed.

(** C17: roundtrip.  The text [Papa.unparse] makes of a non-empty table
    reads back, by the RFC 4180 reading of CSV, as the spec's header
    followed by one record per row holding exactly the thirteen projected
    values (the identifier printed by Number::toString, the cells
    verbatim), whatever commas, quotes, line breaks or spaces the cells
    contain. *)
Theorem export_csv_roundtrip rows :
  rows <> [] ->
  read_csv (unparse (csvData rows)) =
  Some (spec_header :: ((fun r => (fun kv => to_string kv.2) <$> csv_row r) <$> rows)).
Proof.
  intros Hne. rewrite unparse_csvData by done. apply read_csv_safe; [done|].
  constructor; [discriminate|]. apply Forall_forall. intros r Hr.
  apply list_elem_of_fmap in Hr as (o & -> & _). discriminate.
Qed.

Lemma export_csv_roundtrip_witness :
  read_csv (unparse (csvData [Aggregator.mk_entry (Num 7)
                               (<["aa" := Str "1,5"]> (<["ba" := Str ("say " +:+ String quote ("hi" +:+ String lf EmptyString))]> ∅))])) =
  Some (spec_header :: ((fun r => (fun kv => to_string kv.2) <$> csv_row r) <$>
          [Aggregator.mk_entry (Num 7) (<["aa" := Str "1,5"]> (<["ba" := Str ("say " +:+ String quote ("hi" +:+ String lf EmptyString))]> ∅))])).
Proof. apply export_csv_roundtrip. discriminate. Defined.

End Emitters.
