(* ===== verification/Component.v ===== *)
(** * Component: [CsvParserExporter] as a state machine (lines 25-141)

    The component keeps one piece of React state, [parsedData] (line 26).
    [handleFileUpload] (lines 28-40) starts [Papa.parse] on the chosen
    file, which calls [complete] or [error] later, asynchronously; the
    model queues in [pending] the callback the parse will run (file
    [PapaParse]: [complete] with the rows Papa reads from the file's text,
    or [error] for a file that cannot be read) and runs a callback as an
    event of its own, so that the callbacks of two uploads can run in
    either order.  [complete] runs [processFile] (lines 42-69): decode and
    merge every row, sort, and [setParsedData]; an exception in it leaves
    the state as it was.  The export buttons (lines 133-138) are disabled
    while [parsedData] is empty; when enabled, [handleExportCSV] (lines
    71-94) and [handleExportXLSX] (lines 96-127) add a download, recorded
    in [downloads] ([saveAs]).  [Array.prototype.sort] is a parameter
    ([ArraySort], file [Sequencer]). *)

From S2P Require Import Prelude JsCore PapaParse Decoder Aggregator Sequencer Projector Emitters.
Import PapaParse Aggregator Sequencer Projector Emitters.

Module Component.

(** The [Blob]s given to [saveAs]. *)
Inductive blob :=
  | CsvBlob (text : string)
  | XlsxBlob (book : list (string * list (list sheet_cell))).

Record download := mk_download { file_name : string; mime : string; contents : blob }.

Record state := mk_state {
  parsedData : list entry;
  pending : list papa_result;
  downloads : list download
}.

(** [useState([])] *)
Definition init : state := mk_state [] [] [].

Inductive event :=
  | FileInput (file : option file)
  | PapaCallback (i : nat)
  | ClickExportCSV
  | ClickExportXLSX.

Section WithSort.
Context `{ArraySort}.

(** Lines 42-66: the rows [processFile] passes to [setParsedData]. *)
Definition processFile (data : list (list string)) : result (list entry) :=
rows <- process_data [] data ;; Ok (sort_rows rows).

(** Lines 28-40: [if (file) Papa.parse(file, ...)]; the callback the parse
  will run is queued. *)
Definition handleFileUpload (file : option file) (st : state) : state :=
match file with
| Some f => mk_state (parsedData st) (pending st ++ [papa_parse_file f]) (downloads st)
| None => st
end.

(** Lines 32-37: [complete] calls [processFile] and line 68 sets the
  state; [error] only logs. *)
Definition papa_callback (r : papa_result) (st : state) : state :=
match r with
| PapaComplete data =>
    match processFile data with
    | Ok rows => mk_state rows (pending st) (downloads st)
    | Throw _ => st
    end
| PapaError _ => st
end.

(** Lines 71-94. *)
Definition handleExportCSV (st : state) : state :=
let csvContent := unparse (csvData (parsedData st)) in
mk_state (parsedData st) (pending st)
  (downloads st ++ [mk_download "output.csv" "text/csv;charset=utf-8;" (CsvBlob csvContent)]).

(** Lines 96-127. *)
Definition handleExportXLSX (st : state) : state :=
mk_state (parsedData st) (pending st)
  (downloads st ++ [mk_download "output.xlsx"
     "application/vnd.openxmlformats-officedocument.spreadsheetml.sheet"
     (XlsxBlob (workbook (xlsxData (parsedData st))))]).

(** Lines 133-138: [disabled={!parsedData.length}]. *)
Definition export_enabled (st : state) : bool := negb (length (parsedData st) =? 0).

(** One event. *)
Definition step (st : state) (ev : event) : state :=
match ev with
| FileInput file => handleFileUpload file st
| PapaCallback i =>
    match pending st !! i with
    | Some r => papa_callback r (mk_state (parsedData st) (delete i (pending st)) (downloads st))
    | None => st
    end
| ClickExportCSV => if export_enabled st then handleExportCSV st else st
| ClickExportXLSX => if export_enabled st then handleExportXLSX st else st
end.

Definition run (evs : list event) : state := fold_left step evs init.

(** The states the component can reach. *)
Inductive reachable : state -> Prop :=
| reachable_init : reachable init
| reachable_step st ev : reachable st -> reachable (step st ev).

(** ** Scenarios *)

(** The user selects [f] and its parse calls back before anything else
  happens. *)
Definition upload_and_complete (st : state) (f : file) : state :=
step (step st (FileInput (Some f))) (PapaCallback (length (pending st))).

(** The pending callbacks all run, in the order their parses started. *)
Definition deliver_all (st : state) : state :=
fold_left step (replicate (length (pending st)) (PapaCallback 0)) st.

(** The table left by running the callbacks [rs] in order from table [t]:
  a successful parse replaces it, a thrown or failed one leaves it. *)
Fixpoint settle (t : list entry) (rs : list papa_result) : list entry :=
match rs with
| [] => t
| PapaComplete data :: rs => settle (result_default t (processFile data)) rs
| PapaError _ :: rs => settle t rs
end.

(** The text of the file a click on "Export as CSV" downloads. *)
Definition exported_csv (st : state) : option string :=
match last (downloads (step st ClickExportCSV)) with
| Some (mk_download _ _ (CsvBlob text)) => Some text
| _ => None
end.

End WithSort.

(** The row the empty last line of a file becomes: [line[0]] is the empty
    string, [parseInt] of it is NaN, its tag is empty and [values[1..3]]
    are undefined, so lines 61-63 write [a], [b] and [c]. *)
Definition empty_line_row : entry :=
  mk_entry NaN (<["c" := Undefined]> (<["b" := Undefined]> (<["a" := Undefined]> ∅))).

(** ** Cells Papa.unparse writes as they are *)

(** Text with no special character of [PapaParse] and no space at either
    end: [safe] leaves it unquoted and Papa.parse reads it back as one
    field. *)
Definition bare_text (s : string) : bool :=
  plain_line s && negb (bool_decide (first_char s = Some space)) &&
  negb (bool_decide (last_char s = Some space)).

(** The text a sheet cell shows: Number::toString of a numeric cell. *)
Definition cell_text (c : sheet_cell) : string :=
  match c with CNum n => number_to_string n | CText s => s | CBlank => EmptyString end.

(** ** The spec's expectation for a cell *)

(** The text the spec expects under axis [a] of corner tag [t] for
    identifier [n]: the last such fragment's coordinate, or the empty
    placeholder. *)
Definition expected_cell (frags : list Decoder.fragment) (n : Z) (a : axis) (t : string) : string :=
  match last_fragment frags n t with
  | Some fr => coalesce (axis_value a fr) EmptyString
  | None => EmptyString
  end.

(** ** Lemmas *)

Section Lemmas.
Context `{ArraySort}.

Lemma decode_all_throws data : (exists e, decode_all data = Throw e) <-> [] ∈ data.
Proof.
induction data as [|line data IH]; simpl.
- split; [by intros [? ?]|by intros ?%elem_of_nil].
- rewrite elem_of_cons. destruct line as [|cell0 rest].
  + split; [by left|by eexists].
  + rewrite Decoder.decode_first_cell. simpl. rewrite <- IH.
    destruct (decode_all data); simpl; naive_solver.
Qed.

Lemma processFile_eq data :
processFile data = (frags <- decode_all data ;; Ok (sort_rows (aggregate frags))).
Proof. unfold processFile. rewrite process_data_decode_all. by destruct (decode_all data). Qed.

Lemma processFile_Ok data rows :
processFile data = Ok rows ->
exists frags, decode_all data = Ok frags /\ rows = sort_rows (aggregate frags).
Proof.
rewrite processFile_eq. destruct (decode_all data) as [frags|]; [|done].
intros [= <-]. by exists frags.
Qed.

Lemma elem_of_sort_rows rows r : r ∈ sort_rows rows <-> r ∈ rows.
Proof. unfold sort_rows. by rewrite array_sort_Permutation. Qed.

Lemma step_parsedData st ev :
parsedData (step st ev) = parsedData st \/
exists data, processFile data = Ok (parsedData (step st ev)).
Proof.
destruct ev as [[r|]|i| |]; simpl; try by left.
- destruct (pending st !! i) as [[data|msg]|]; simpl; try by left.
  destruct (processFile data) eqn:E; simpl; [right; by exists data|by left].
- destruct (export_enabled st); by left.
- destruct (export_enabled st); by left.
Qed.

Lemma table_ok data rows :
processFile data = Ok rows ->
NoDup (ids rows) /\ (Forall numeric rows -> StronglySorted Z.lt (ids rows)).
Proof.
intros (frags & _ & ->)%processFile_Ok.
pose proof (aggregate_ids_NoDup frags) as Hnd.
split.
- unfold ids, sort_rows. by rewrite array_sort_Permutation.
- intros Hnum. apply sort_rows_ids_sorted; [|done].
  unfold sort_rows in Hnum. by rewrite array_sort_Permutation in Hnum.
Qed.

Lemma decode_all_Ok data :
Forall (fun line => line <> []) data -> exists frags, decode_all data = Ok frags.
Proof.
intros Hd. destruct (decode_all data) as [frags|e] eqn:E; [by eexists|].
assert (Hin : [] ∈ data) by (apply decode_all_throws; by exists e).
rewrite Forall_forall in Hd. by destruct (Hd [] Hin).
Qed.

Lemma decode_all_tags data frags :
decode_all data = Ok frags -> Forall (fun fr => String.length (Decoder.type fr) <= 1) frags.
Proof.
revert frags. induction data as [|line data IH]; intros frags; simpl; [by intros [= <-]|].
destruct (Decoder.decode line) as [fr|] eqn:Hfr; simpl; [|done].
destruct (decode_all data) as [frs|]; simpl; [|done]. intros [= <-].
constructor; [by eapply Decoder.decode_type_length|by apply IH].
Qed.

Lemma processFile_papa text : exists rows, processFile (data (papa_parse text)) = Ok rows.
Proof.
destruct (decode_all_Ok _ (papa_parse_rows text)) as [frags Hf].
rewrite processFile_eq, Hf. by eexists.
Qed.

(** [processFile] reads the first cell of every row only. *)
Lemma processFile_first_cells data : processFile data = processFile (take 1 <$> data).
Proof.
rewrite !processFile_eq. f_equal. induction data as [|line data IH]; [done|].
rewrite fmap_cons. cbn [decode_all]. by rewrite <- Decoder.decode_take1, IH.
Qed.

Lemma decode_all_no_slash data :
Forall (fun r => r <> [] /\ has_char "/" (default EmptyString (head r)) = false) data ->
exists frags, decode_all data = Ok frags /\
  Forall (fun fr => Decoder.x fr = Undefined /\ Decoder.y fr = Undefined /\ Decoder.z fr = Undefined) frags.
Proof.
induction 1 as [|[|c rest] data [Hne Hs] _ (frags & Hf & Hu)]; [by exists []|done|].
cbn in Hs. eexists. cbn [decode_all]. rewrite Decoder.decode_no_slash, Hf by done.
split; [done|]. by constructor.
Qed.

Lemma safe_string_bare s : bare_text s = true -> safe_string s = s.
Proof.
unfold bare_text. rewrite !andb_true_iff, !negb_true_iff, !bool_decide_eq_false. intros [[Hp Hf] Hl].
unfold safe_string. rewrite escape_no_quote by (apply (plain_line_char s); [done|special_char]).
unfold needs_quotes. rewrite !(plain_line_char s) by (done || special_char).
by rewrite !bool_decide_eq_false_2.
Qed.

Lemma chars_in_ends a s :
chars_in a s = true -> space ∉ a -> first_char s <> Some space /\ last_char s <> Some space.
Proof.
intros Hs Ha. split.
- destruct s as [|c s]; [done|]. rewrite chars_in_cons in Hs. apply andb_true_iff in Hs as [Hc _].
  apply bool_decide_eq_true in Hc. cbn. intros [= ->]. done.
- induction s as [|c s IH]; [done|]. rewrite chars_in_cons in Hs. apply andb_true_iff in Hs as [Hc Hs].
  destruct s as [|c' s']; [|by apply IH]. apply bool_decide_eq_true in Hc. cbn. intros [= ->]. done.
Qed.

Lemma number_to_string_bare n : bare_text (number_to_string n) = true.
Proof.
pose proof (number_to_string_chars n) as Hn.
destruct (chars_in_ends _ _ Hn) as [Hf Hl]; [apply (bool_decide_unpack _); vm_compute; exact I|].
unfold bare_text. rewrite !bool_decide_eq_false_2 by done. rewrite !andb_true_r.
apply (chars_in_avoids number_chars); [done|]. intros c Hc. revert c Hc. apply Forall_forall.
apply (bool_decide_unpack _). vm_compute. exact I.
Qed.

Lemma get_bare r k :
map_Forall (fun _ v => bare_text (coalesce v EmptyString) = true) (cells r) ->
bare_text (coalesce (get r k) EmptyString) = true.
Proof. intros Hr. unfold get. destruct (cells r !! k) as [v|] eqn:E; [by apply (Hr k)|reflexivity]. Qed.

(** The thirteen texts of a CSV row are bare when the row's cells are. *)
Lemma csv_row_bare r :
map_Forall (fun _ v => bare_text (coalesce v EmptyString) = true) (cells r) ->
Forall (fun x => bare_text x = true) ((fun kv => to_string kv.2) <$> csv_row r).
Proof.
intros Hr. cbn [csv_row fmap list_fmap cell snd to_string].
repeat apply Forall_cons_2; try apply Forall_nil_2; first [apply number_to_string_bare|by apply get_bare].
Qed.

Lemma bare_plain x : bare_text x = true -> plain_line x = true.
Proof. unfold bare_text. by intros [[? _]%andb_true_iff _]%andb_true_iff. Qed.

Lemma safe_strings_bare l : Forall (fun x => bare_text x = true) l -> safe_string <$> l = l.
Proof. induction 1 as [|x l Hx _ IH]; [done|]. by rewrite fmap_cons, safe_string_bare, IH. Qed.

Lemma exported_csv_text st :
parsedData st <> [] -> exported_csv st = Some (unparse (csvData (parsedData st))).
Proof.
intros Hne. unfold exported_csv. cbn [step]. unfold export_enabled.
destruct (length (parsedData st) =? 0) eqn:E; [apply Nat.eqb_eq, length_zero_iff_nil in E; done|].
cbn [negb]. unfold handleExportCSV. cbn [downloads]. by rewrite last_snoc.
Qed.

Lemma number_no_slash n : has_char "/" (number_to_string n) = false.
Proof.
apply (avoids_char ["/"%char]); [|by left]. apply (chars_in_avoids number_chars); [apply number_to_string_chars|].
intros c Hc. revert c Hc. apply Forall_forall. apply (bool_decide_unpack _). vm_compute. exact I.
Qed.

Lemma aggregate_NaN_row frags fr :
fr ∈ frags -> Decoder.number fr = NaN -> exists e, e ∈ aggregate frags /\ number e = NaN.
Proof.
intros Hfr Hn.
assert (Hw : write_cells fr ∅ ∈ nan_rows (aggregate frags)).
{ unfold aggregate. rewrite nan_rows_fold. cbn [nan_rows filter app].
  apply (list_elem_of_fmap_2 (fun fr => write_cells fr ∅)), list_elem_of_filter. by split. }
unfold nan_rows in Hw. apply list_elem_of_fmap in Hw as (e & _ & He).
apply list_elem_of_filter in He as [Hne He]. by exists e.
Qed.

Lemma upload_and_complete_eq st f :
upload_and_complete st f =
papa_callback (papa_parse_file f) (mk_state (parsedData st) (pending st) (downloads st)).
Proof.
unfold upload_and_complete. simpl.
rewrite lookup_app_r, Nat.sub_diag by done. simpl.
by rewrite delete_middle, app_nil_r.
Qed.

Lemma upload_and_complete_table st f :
parsedData (upload_and_complete st f) =
match papa_parse_file f with
| PapaComplete d => result_default (parsedData st) (processFile d)
| PapaError _ => parsedData st
end.
Proof.
rewrite upload_and_complete_eq. destruct (papa_parse_file f) as [d|]; [|done].
simpl. by destruct (processFile d).
Qed.

Lemma step_callback_head st r rs :
pending st = r :: rs ->
step st (PapaCallback 0) = papa_callback r (mk_state (parsedData st) rs (downloads st)).
Proof. intros Hp. simpl. by rewrite Hp. Qed.

Lemma papa_callback_fields r st :
pending (papa_callback r st) = pending st /\ downloads (papa_callback r st) = downloads st /\
parsedData (papa_callback r st) = settle (parsedData st) [r].
Proof. destruct r as [d|]; simpl; [destruct (processFile d)|]; done. Qed.

Lemma sort_rows_singleton r : sort_rows [r] = [r].
Proof. apply Permutation_length_1_inv. unfold sort_rows. by rewrite array_sort_Permutation. Qed.

Lemma step_callback_at st (l1 : list papa_result) r l2 :
  pending st = (l1 ++ r :: l2)%list ->
  step st (PapaCallback (length l1)) = papa_callback r (mk_state (parsedData st) (l1 ++ l2)%list (downloads st)).
Proof. intros Hp. simpl. rewrite Hp, lookup_app_r, Nat.sub_diag by done. simpl. by rewrite delete_middle. Qed.

Lemma papa_callback_complete st text rows :
  processFile (data (papa_parse text)) = Ok rows ->
  papa_callback (papa_parse_file (Readable text)) st = mk_state rows (pending st) (downloads st).
Proof. intros Hr. simpl. by rewrite Hr. Qed.

Lemma find_entry_same fr e rows :
  Decoder.number fr = number e -> Decoder.number fr <> NaN ->
  find_entry (Decoder.number fr) (e :: rows) = Some (0, e).
Proof.
  intros He Hn. unfold find_entry. simpl. rewrite decide_True; [done|]. rewrite He.
  destruct (number e) as [|v]; [by rewrite <- He in Hn|]. by apply strict_eq_Num.
Qed.

End Lemmas.

(** ** Properties of the component *)

Section Properties.
Context `{ArraySort}.

(** C23: [processFile] throws exactly when the file has a row with no cell
  at all ([line[0]] undefined); then the state is left as it was. *)
Theorem processFile_throws data :
(exists e, processFile data = Throw e) <-> [] ∈ data.
Proof.
rewrite processFile_eq, <- decode_all_throws.
destruct (decode_all data); simpl; naive_solver.
Qed.

(** C1: end to end.  When [processFile] succeeds, the table it stores has a
  row for a numeric identifier exactly when some line carries it, and
  the exported cell of that row under the spec's label for axis [a] of
  corner [c] is the coordinate of the last line with that identifier
  and corner tag, verbatim, or the empty string when there is none. *)
Theorem processFile_table data frags rows :
decode_all data = Ok frags -> processFile data = Ok rows ->
(forall n, (exists r, r ∈ rows /\ number r = Num n) <->
           (exists fr, fr ∈ frags /\ Decoder.number fr = Num n)) /\
(forall r n a c, r ∈ rows -> number r = Num n ->
   prop (csv_row r) (spec_label a c) = Some (OStr (expected_cell frags n a (corner_tag c)))).
Proof.
intros Hd Hp. rewrite processFile_eq, Hd in Hp. injection Hp as <-.
pose proof (aggregate_ids_NoDup frags) as Hnd.
split.
- intros n. setoid_rewrite elem_of_sort_rows. rewrite <- abs_is_Some, abs_aggregate.
  unfold spec_aggregate. rewrite spec_fold_is_Some, lookup_empty.
  split; [by intros [[? ?]|?]|by right].
- intros r n a c Hr Hn. rewrite elem_of_sort_rows in Hr. rewrite csv_row_label.
  pose proof (spec_aggregate_cell frags n a (corner_tag c)) as Hc.
  rewrite <- abs_aggregate, (abs_lookup_member _ r n) in Hc by done. simpl in Hc.
  unfold get, expected_cell. rewrite Hc. by destruct (last_fragment frags n (corner_tag c)).
Qed.

(** C7: invariant.  In every reachable state the table holds no two rows
  with the same numeric identifier, and, when no row has a NaN
  identifier, its identifiers are strictly ascending. *)
Theorem reachable_table st :
reachable st ->
NoDup (ids (parsedData st)) /\
(Forall numeric (parsedData st) -> StronglySorted Z.lt (ids (parsedData st))).
Proof.
induction 1 as [|st ev Hr IH].
- split; constructor.
- destruct (step_parsedData st ev) as [->|[data Hp]]; [done|]. by eapply table_ok.
Qed.

(** C24: a Papa.parse error, or a row list on which [processFile] throws,
  leaves the table as it was when its callback runs (through an upload
  only the first can happen, C8). *)
Theorem failed_parse_keeps_table st i r :
pending st !! i = Some r ->
(forall data, r = PapaComplete data -> exists e, processFile data = Throw e) ->
parsedData (step st (PapaCallback i)) = parsedData st.
Proof.
intros Hi Hr. simpl. rewrite Hi. destruct r as [data|msg]; [|done]. simpl.
destruct (Hr data eq_refl) as [e ->]. done.
Qed.

(** C33: safety.  While the table is empty both export buttons are
  disabled: a click changes nothing and downloads nothing. *)
Theorem export_disabled_when_empty st :
parsedData st = [] -> step st ClickExportCSV = st /\ step st ClickExportXLSX = st.
Proof. intros Hp. simpl. unfold export_enabled. by rewrite Hp. Qed.

(** C32: once a table is loaded, the CSV export downloads [output.csv]
  whose text starts with the spec's header line, in the spec's column
  order, followed by CRLF. *)
Theorem export_csv_header st :
parsedData st <> [] ->
exists rest, downloads (step st ClickExportCSV) =
  downloads st ++ [mk_download "output.csv" "text/csv;charset=utf-8;"
    (CsvBlob ("ID,Top Left x,Top Left y,Top Left z,Top Right x,Top Right y,Top Right z,Bottom Right x,Bottom Right y,Bottom Right z,Bottom Left x,Bottom Left y,Bottom Left z" +:+ newline +:+ rest))].
Proof.
intros Hne. simpl. unfold export_enabled.
destruct (parsedData st) as [|r0 rows] eqn:Hp; [done|]. simpl.
eexists. unfold handleExportCSV. rewrite Hp. simpl. reflexivity.
Qed.

(** C8: error.  Papa.parse gives every row at least one field, so the
  TypeError of line 46 cannot happen on an uploaded file: whatever the
  text of a readable file, [processFile] returns, and once the upload's
  callback runs the table is what it returned. *)
Theorem upload_replaces_table st text :
exists rows, processFile (data (papa_parse text)) = Ok rows /\
             parsedData (upload_and_complete st (Readable text)) = rows.
Proof.
destruct (processFile_papa text) as [rows Hrows]. exists rows. split; [done|].
rewrite upload_and_complete_table. simpl. by rewrite Hrows.
Qed.

(** C4: a file of lines [<id><tag>/<x>/<y>/<z>] separated by LF or CRLF
  is read one line per row, and the table is [processFile] of those rows;
  but when the file ends with a line break, as text files usually do,
  Papa.parse delivers one more row holding the empty string, which
  becomes a row with a NaN identifier and the cells [a], [b], [c]
  undefined: the table gets one extra row, exported as [NaN] followed by
  twelve empty cells. *)
Theorem upload_line_file st nl ls :
line_separator nl -> ls <> [] ->
Forall (fun l => plain_line l = true) ls -> Forall (fun l => l <> EmptyString) ls ->
(N.of_nat (String.length (concat_with nl ls +:+ nl)) <= 1048576)%N ->
exists rows,
  processFile ((fun l => [l]) <$> ls) = Ok rows /\
  parsedData (upload_and_complete st (Readable (concat_with nl ls))) = rows /\
  parsedData (upload_and_complete st (Readable (concat_with nl ls +:+ nl))) ≡ₚ rows ++ [empty_line_row] /\
  (fun kv => to_string kv.2) <$> csv_row empty_line_row = "NaN" :: replicate 12 EmptyString.
Proof.
intros Hnl Hne Hplain Hfull Hsize.
destruct (decode_all_Ok ((fun l => [l]) <$> ls)) as [frags Hfrags].
{ apply Forall_fmap, Forall_true. done. }
exists (sort_rows (aggregate frags)).
assert (Hnf : Decoder.decode [EmptyString] = Ok (Decoder.mk_fragment NaN EmptyString Undefined Undefined Undefined))
  by reflexivity.
rewrite !upload_and_complete_table. cbn [papa_parse_file].
rewrite papa_parse_plain_terminated by done.
rewrite papa_parse_plain; [|done|done|done| |].
2: { destruct ls as [|l ls]; [done|]. apply concat_with_not_empty. by inversion Hfull. }
2: { rewrite string_length_append in Hsize. lia. }
cbn [data result_default]. rewrite !processFile_eq, decode_all_app, Hfrags. cbn [decode_all result_bind]. rewrite Hnf. cbn [result_bind result_default app].
split_and!; [done|done| |reflexivity].
rewrite aggregate_snoc_NaN by done. unfold sort_rows. rewrite !array_sort_Permutation. done.
Qed.

(** C28: termination.  The parse an upload starts finishes: for any text,
  the general loop of Papa.parse, run with the line ending and delimiter
  Papa guesses, returns within [length + 1] turns and returns the same
  rows with any larger fuel; and when the text has a quote character (the
  case the loop handles) the callback [handleFileUpload] queues carries
  exactly those rows, never the empty fallback of an exhausted loop. *)
Theorem upload_parse_terminates st text :
exists r,
  parse_slow_go (S (String.length text)) (papa_config text) [] [] [] text = Some r /\
  (forall fuel, String.length text < fuel ->
     parse_slow_go fuel (papa_config text) [] [] [] text = Some r) /\
  (has_char quote_char text = true ->
     pending (handleFileUpload (Some (Readable text)) st) = pending st ++ [PapaComplete (data r)]).
Proof.
destruct (papa_parse_terminates text) as (r & Hr & Hmono). exists r.
split_and!; [done|done|]. intros Hq. simpl. do 3 f_equal.
by rewrite papa_parse_data, parse_quoted, Hr.
Qed.

(** C10: the spec's input boundary (section 6) is a file whose rows are
  the cell [<digits><tag>] followed by three more cells x, y, z, and
  section 4.1 reads the axis values from fields 2-4.  Papa.parse reads
  such a comma-separated file as four-field rows, but [processFile]
  splits the first cell at [/] and reads x, y and z from that split: the
  table is the one the first cells alone give, and every cell of it is
  undefined, so the exported file has the identifiers and nothing else. *)
Theorem spec_input_cells_ignored st nl rows :
line_separator nl -> rows <> [] ->
Forall (fun r => length r = 4 /\ Forall (fun x => plain_line x = true) r) rows ->
Forall (fun r => has_char "/" (default EmptyString (head r)) = false) rows ->
(N.of_nat (String.length (table_text nl rows)) <= 1048576)%N ->
exists out,
  processFile (take 1 <$> rows) = Ok out /\
  parsedData (upload_and_complete st (Readable (table_text nl rows))) = out /\
  Forall (fun e => map_Forall (fun _ v => v = Undefined) (cells e)) out.
Proof.
intros Hnl Hne Hrows Hslash Hsize.
destruct (decode_all_no_slash rows) as (frags & Hf & Hu).
{ apply Forall_and; split; [|done]. apply (rows_not_nil _ 4); [lia|].
  eapply Forall_impl; [exact Hrows|]. by intros r [? _]. }
exists (sort_rows (aggregate frags)).
rewrite <- processFile_first_cells, processFile_eq, Hf.
rewrite upload_and_complete_table. cbn [papa_parse_file]. rewrite (papa_parse_table nl rows 4) by (done || lia).
cbn [data result_default]. rewrite processFile_eq, Hf. cbn [result_bind result_default].
split_and!; [done|done|]. unfold sort_rows. rewrite array_sort_Permutation.
by apply (aggregate_values (fun v => v = Undefined)).
Qed.

(** Papa.parse reads the text of the CSV export back as the header and
    the projected texts of every row. *)
Lemma papa_parse_export rows :
rows <> [] ->
Forall (fun e => map_Forall (fun _ v => bare_text (coalesce v EmptyString) = true) (cells e)) rows ->
(N.of_nat (String.length (unparse (csvData rows))) <= 1048576)%N ->
papa_parse (unparse (csvData rows)) =
mk_result (spec_header :: ((fun r => (fun kv => to_string kv.2) <$> csv_row r) <$> rows)) [].
Proof.
intros Hne Hcells Hsize.
rewrite unparse_csvData in Hsize |- * by done.
set (recs := spec_header :: _) in *.
assert (Hrecs : Forall (fun r => length r = 13 /\ Forall (fun x => bare_text x = true) r) recs).
{ constructor; [split; [reflexivity|apply (bool_decide_unpack _); vm_compute; exact I]|].
  apply Forall_fmap. eapply Forall_impl; [exact Hcells|]. intros r Hr.
  split; [by rewrite length_fmap|by apply csv_row_bare]. }
assert (Hsafe : (fun r => concat_with "," (safe_string <$> r)) <$> recs = concat_with "," <$> recs).
{ clearbody recs. clear -Hrecs. induction Hrecs as [|r rs [_ Hr] _ IH]; [done|].
  by rewrite !fmap_cons, IH, safe_strings_bare. }
rewrite Hsafe in Hsize |- *. change newline with crlf_nl in Hsize |- *.
apply (papa_parse_table crlf_nl recs 13); [by right|discriminate|lia| |done].
eapply Forall_impl; [exact Hrecs|]. intros r [Hl Hr]. split; [done|].
eapply Forall_impl; [exact Hr|]. intros x. apply bare_plain.
Qed.

(** C11: roundtrip.  The CSV file the component exports, read back by
  Papa.parse as a new upload of it would be, gives the spec's header and,
  for every row, its thirteen projected texts, with no parse error: the
  comma is guessed as the delimiter and CRLF as the line ending.  This
  holds when no cell holds a special character of Papa.parse (quote, line
  break, a candidate delimiter) or a space at either end, so that
  Papa.unparse quotes nothing, and the file is below 1 MiB. *)
Theorem export_csv_papa_roundtrip st text :
parsedData st <> [] ->
Forall (fun e => map_Forall (fun _ v => bare_text (coalesce v EmptyString) = true) (cells e)) (parsedData st) ->
exported_csv st = Some text ->
(N.of_nat (String.length text) <= 1048576)%N ->
papa_parse text =
mk_result (spec_header :: ((fun r => (fun kv => to_string kv.2) <$> csv_row r) <$> parsedData st)) [].
Proof.
intros Hne Hcells Htext Hsize.
rewrite exported_csv_text in Htext by done. injection Htext as <-.
by apply papa_parse_export.
Qed.

(** C12: the component cannot read back the CSV file it exports.
  Uploading [output.csv] again (cells without special characters, file
  below 1 MiB) replaces the table by one in which every cell is
  undefined, since the coordinates sit in cells 2-13 while [processFile]
  reads the first cell only, and which has a row with a NaN identifier,
  made from the header line [ID,Top Left x,...]. *)
Theorem export_reupload_loses_cells st :
parsedData st <> [] ->
Forall (fun e => map_Forall (fun _ v => bare_text (coalesce v EmptyString) = true) (cells e)) (parsedData st) ->
(N.of_nat (String.length (unparse (csvData (parsedData st)))) <= 1048576)%N ->
Forall (fun e => map_Forall (fun _ v => v = Undefined) (cells e))
  (parsedData (upload_and_complete st (Readable (unparse (csvData (parsedData st)))))) /\
exists e, e ∈ parsedData (upload_and_complete st (Readable (unparse (csvData (parsedData st))))) /\
  number e = NaN.
Proof.
intros Hne Hcells Hsize.
rewrite upload_and_complete_table. cbn [papa_parse_file]. rewrite papa_parse_export by done. cbn [data].
destruct (decode_all_no_slash (spec_header :: ((fun r => (fun kv => to_string kv.2) <$> csv_row r) <$> parsedData st)))
  as (frags & Hf & Hu).
{ constructor; [split; [discriminate|reflexivity]|]. apply Forall_fmap, Forall_forall. intros r _.
  split; [discriminate|]. apply number_no_slash. }
rewrite processFile_eq, Hf. cbn [result_bind result_default]. split.
- unfold sort_rows. rewrite array_sort_Permutation. by apply (aggregate_values (fun v => v = Undefined)).
- cbn [decode_all] in Hf. unfold spec_header in Hf. cbn [app] in Hf. rewrite (Decoder.decode_no_slash "ID") in Hf by reflexivity. cbn [result_bind] in Hf.
  destruct (decode_all _) as [frs|]; [|done]. injection Hf as <-.
  set (fr0 := Decoder.mk_fragment (parseInt "ID") _ _ _ _).
  destruct (aggregate_NaN_row (fr0 :: frs) fr0) as (e & He & Hn);
    [apply list_elem_of_here|vm_compute; reflexivity|].
  exists e. by rewrite elem_of_sort_rows.
Qed.

(** C13: the spreadsheet export (spec section 6, boundary B): once a table
  is loaded, [handleExportXLSX] downloads [output.xlsx] holding one sheet,
  [Sheet1], whose first row is the spec's header as text cells and whose
  other rows are, in table order, the identifier as a numeric cell and the
  twelve coordinates as text cells (empty when absent); shown as text,
  the sheet holds exactly the lines of the CSV export. *)
Theorem export_xlsx_sheet st :
parsedData st <> [] ->
downloads (step st ClickExportXLSX) = downloads st ++
  [mk_download "output.xlsx" "application/vnd.openxmlformats-officedocument.spreadsheetml.sheet"
    (XlsxBlob [("Sheet1", (CText <$> spec_header) ::
      ((fun r => CNum (number r) :: ((fun k => CText (coalesce (get r k) EmptyString)) <$>
         ["aa"; "ba"; "ca"; "ab"; "bb"; "cb"; "ac"; "bc"; "cc"; "ad"; "bd"; "cd"])) <$> parsedData st))])] /\
(fun row => cell_text <$> row) <$> ((CText <$> spec_header) ::
  ((fun r => CNum (number r) :: ((fun k => CText (coalesce (get r k) EmptyString)) <$>
     ["aa"; "ba"; "ca"; "ab"; "bb"; "cb"; "ac"; "bc"; "cc"; "ad"; "bd"; "cd"])) <$> parsedData st)) =
spec_header :: ((fun r => (fun kv => to_string kv.2) <$> csv_row r) <$> parsedData st).
Proof.
intros Hne. split.
- cbn [step]. unfold export_enabled.
  destruct (length (parsedData st) =? 0) eqn:E; [apply Nat.eqb_eq, length_zero_iff_nil in E; done|].
  cbn [negb]. unfold handleExportXLSX, workbook, json_to_sheet. cbn [downloads].
  rewrite sheet_header_xlsxData by done. unfold xlsxData. rewrite <- list_fmap_compose.
  apply (f_equal (fun x => downloads st ++ [mk_download "output.xlsx" _ (XlsxBlob [("Sheet1", _ :: x)])])).
  by apply list_fmap_ext.
- rewrite fmap_cons, <- !list_fmap_compose. by f_equal.
Qed.

(** C9: equivalence.  Papa.parse reads a text without a quote character
  on its fast path, which splits it at every line ending and then at every
  delimiter.  For every non-empty text, quoted or not, the callback
  [handleFileUpload] queues carries the rows of the general loop run with
  the line ending and delimiter Papa guesses: the fast path is a faithful
  shortcut of the loop. *)
Theorem upload_rows_reference st text :
text <> EmptyString ->
pending (handleFileUpload (Some (Readable text)) st) =
pending st ++ [PapaComplete (data (default no_rows
  (parse_slow_go (S (String.length text)) (papa_config text) [] [] [] text)))].
Proof. intros Hne. cbn [handleFileUpload pending papa_parse_file]. by rewrite papa_parse_reference. Qed.

(** C18: liveness.  From any state, running the pending Papa callbacks in
  the order their parses started leaves no parse pending, downloads
  nothing, and leaves the table of the last parse that succeeded (or the
  table as it was when none did). *)
Theorem callbacks_settle st :
pending (deliver_all st) = [] /\ downloads (deliver_all st) = downloads st /\
parsedData (deliver_all st) = settle (parsedData st) (pending st).
Proof.
unfold deliver_all. remember (pending st) as rs eqn:Hrs. revert st Hrs.
induction rs as [|r rs IH]; intros st Hrs; [done|].
cbn [length replicate fold_left]. rewrite (step_callback_head st r rs) by done.
set (st' := papa_callback r (mk_state (parsedData st) rs (downloads st))).
destruct (papa_callback_fields r (mk_state (parsedData st) rs (downloads st))) as (Hp & Hd & Ht).
fold st' in Hp, Hd, Ht. cbn [pending downloads parsedData] in Hp, Hd, Ht.
destruct (IH _ (eq_sym Hp)) as (H1 & H2 & H3).
rewrite H1, H2, H3, Hd, Ht. split_and!; [done|done|].
by destruct r as [d|]; simpl; [destruct (processFile d)|].
Qed.

(** C19: type invariant.  In every reachable state, every own property of
  every row object other than [number] is [a], [b] or [c] followed by a
  corner tag of at most one character ([slice(-1)] of the first field),
  so a row holds nothing but coordinates. *)
Theorem reachable_rows_wf st : reachable st -> Forall wf_row (parsedData st).
Proof.
induction 1 as [|st ev Hr IH]; [constructor|].
destruct (step_parsedData st ev) as [->|[data Hp]]; [done|].
apply processFile_Ok in Hp as (frags & Hf & ->).
unfold sort_rows. rewrite array_sort_Permutation.
apply aggregate_wf. by eapply decode_all_tags.
Qed.

(** C21: ordering.  Papa.parse calls back asynchronously and nothing ties a
  callback to the latest selection: from any state, when the user picks
  a file [t1] and then a file [t2], the table ends up holding [t2] when
  the parses call back in the order they started, but holds [t1] when
  the parse of [t2] finishes first; the queue of pending callbacks is
  back to what it was either way. *)
Theorem callbacks_out_of_order st t1 t2 :
  exists rows1 rows2,
    processFile (data (papa_parse t1)) = Ok rows1 /\
    processFile (data (papa_parse t2)) = Ok rows2 /\
    fold_left step [FileInput (Some (Readable t1)); FileInput (Some (Readable t2));
                    PapaCallback (S (length (pending st))); PapaCallback (length (pending st))] st =
      mk_state rows1 (pending st) (downloads st) /\
    fold_left step [FileInput (Some (Readable t1)); FileInput (Some (Readable t2));
                    PapaCallback (length (pending st)); PapaCallback (length (pending st))] st =
      mk_state rows2 (pending st) (downloads st).
Proof.
  destruct (processFile_papa t1) as [rows1 H1], (processFile_papa t2) as [rows2 H2].
  exists rows1, rows2. split_and!; [done|done| |]; cbn [fold_left].
  - replace (S (length (pending st))) with (length (pending st ++ [papa_parse_file (Readable t1)]))
      by (rewrite length_app; simpl; lia).
    rewrite (step_callback_at _ (pending st ++ [papa_parse_file (Readable t1)]) _ []) by reflexivity.
    rewrite (papa_callback_complete _ t2 rows2 H2), app_nil_r.
    rewrite (step_callback_at _ (pending st) _ []) by reflexivity.
    rewrite (papa_callback_complete _ t1 rows1 H1), app_nil_r. done.
  - rewrite (step_callback_at (step (step st (FileInput (Some (Readable t1)))) (FileInput (Some (Readable t2))))
               (pending st) _ [papa_parse_file (Readable t2)]) by (simpl; by rewrite <- app_assoc).
    rewrite (papa_callback_complete _ t1 rows1 H1).
    rewrite (step_callback_at _ (pending st) _ []) by reflexivity.
    rewrite (papa_callback_complete _ t2 rows2 H2), app_nil_r. done.
Qed.

(** C22: bounds.  Identifiers are doubles: two lines whose first fields
  have different leading digit runs, whose decimal values [parseInt]
  rounds to the same double (such as 9007199254740993 and
  9007199254740992), get one row: the second line's corner is written on
  the row the first line created, as if the identifiers were equal. *)
Theorem large_identifiers_merge p1 x1 y1 z1 p2 x2 y2 z2 :
  Forall (fun s => has_char "/" s = false) [p1; x1; y1; z1; p2; x2; y2; z2] ->
  Decoder.leading_digits p1 <> EmptyString -> Decoder.hex_prefixed p1 = false ->
  Decoder.leading_digits p2 <> EmptyString -> Decoder.hex_prefixed p2 = false ->
  Decoder.decimal_value (Decoder.leading_digits p1) <> Decoder.decimal_value (Decoder.leading_digits p2) ->
  to_number (Decoder.decimal_value (Decoder.leading_digits p1)) =
    to_number (Decoder.decimal_value (Decoder.leading_digits p2)) ->
  processFile [[join "/" [p1; x1; y1; z1]]; [join "/" [p2; x2; y2; z2]]] =
  Ok [write_entry (Decoder.mk_fragment (parseInt p2) (slice_last p2) (Str x2) (Str y2) (Str z2))
        (write_entry (Decoder.mk_fragment (parseInt p1) (slice_last p1) (Str x1) (Str y1) (Str z1))
           (mk_entry (parseInt p1) ∅))].
Proof.
  intros Hs Hl1 Hh1 Hl2 Hh2 _ Heq.
  repeat (apply Forall_cons in Hs as [? Hs]).
  rewrite processFile_eq. cbn [decode_all]. rewrite !Decoder.decode_fields by done.
  cbn [result_bind]. unfold aggregate. cbn [fold_left].
  rewrite (upsert_new []) by reflexivity. cbn [app].
  erewrite upsert_found.
  2: { apply find_entry_same; cbn.
       - by rewrite !Decoder.parseInt_digits, Heq.
       - rewrite Decoder.parseInt_digits by done.
         destruct (to_number_double (Decoder.decimal_value (Decoder.leading_digits p2))) as (v & Hv & _).
         by rewrite Hv. }
  change (alter ?f 0 [?e]) with [f e]. by rewrite sort_rows_singleton.
Qed.

(** C25: error.  An unclosed quote: for every text [t] with no quote
  character, Papa.parse reads the file [t] preceded by a quote as
  one row with one field holding all of [t], line breaks included, and
  reports [MissingQuotes] and [UndetectableDelimiter]; the [complete]
  callback ignores [result.errors], so whatever the table was, it is
  replaced by a single row, whatever number of lines [t] has, while the
  spec's [UpstreamParseError] policy keeps the previous table. *)
Theorem unclosed_quote_replaces_table st t :
  has_char quote_char t = false ->
  papa_parse (String quote_char t) = mk_result [[t]] [MissingQuotes; UndetectableDelimiter] /\
  exists e, processFile [[t]] = Ok [e] /\
    parsedData (upload_and_complete st (Readable (String quote_char t))) = [e].
Proof.
  intros Ht. pose proof (papa_parse_unclosed t Ht) as Hp. split; [done|].
  rewrite upload_and_complete_table. cbn [papa_parse_file]. rewrite Hp. cbn [data].
  rewrite processFile_eq. cbn [decode_all]. rewrite Decoder.decode_first_cell.
  cbn [result_bind]. unfold aggregate, upsert. cbn. rewrite sort_rows_singleton.
  by eexists.
Qed.

End Properties.

(** ** Witnesses, with the merge sort engine *)

Lemma processFile_table_witness :
  prop (csv_row (default (mk_entry NaN ∅)
          (head (result_default [] (processFile [["1a/10/20/30"]; ["1b/11/21/31"]])))))
       (spec_label AX CB) =
  Some (OStr (expected_cell (result_default [] (decode_all [["1a/10/20/30"]; ["1b/11/21/31"]]))
                            1 AX (corner_tag CB))).
Proof.
  apply (proj2 (processFile_table [["1a/10/20/30"]; ["1b/11/21/31"]]
    (result_default [] (decode_all [["1a/10/20/30"]; ["1b/11/21/31"]]))
    (result_default [] (processFile [["1a/10/20/30"]; ["1b/11/21/31"]]))
    ltac:(vm_compute; reflexivity) ltac:(vm_compute; reflexivity))).
  - vm_compute. by left.
  - vm_compute. reflexivity.
Defined.

Lemma reachable_table_witness :
  NoDup (ids (parsedData (step (step init (FileInput (Some (Readable (concat_with lf_nl ["2a/1/2/3"; "1a/4/5/6"]))))) (PapaCallback 0)))).
Proof.
  apply (reachable_table (step (step init _) _)).
  repeat constructor.
Defined.

Lemma failed_parse_keeps_table_witness :
  parsedData (step (mk_state [] [PapaComplete [[]; ["1a/1/2/3"]]] []) (PapaCallback 0)) =
  parsedData (mk_state [] [PapaComplete [[]; ["1a/1/2/3"]]] []).
Proof.
  apply (failed_parse_keeps_table _ 0 (PapaComplete [[]; ["1a/1/2/3"]])); [reflexivity|].
  intros data [= <-]. by eexists.
Defined.

Lemma export_disabled_when_empty_witness :
  step init ClickExportCSV = init /\ step init ClickExportXLSX = init.
Proof. by apply export_disabled_when_empty. Defined.

Lemma export_csv_header_witness :
  exists rest, downloads (step (mk_state [mk_entry (Num 1) ∅] [] []) ClickExportCSV) =
    [mk_download "output.csv" "text/csv;charset=utf-8;"
      (CsvBlob ("ID,Top Left x,Top Left y,Top Left z,Top Right x,Top Right y,Top Right z,Bottom Right x,Bottom Right y,Bottom Right z,Bottom Left x,Bottom Left y,Bottom Left z" +:+ newline +:+ rest))].
Proof. apply (export_csv_header (mk_state [mk_entry (Num 1) ∅] [] [])). discriminate. Defined.

Lemma spec_input_cells_ignored_witness :
  exists out,
    processFile (take 1 <$> [["1a"; "10"; "20"; "30"]; ["1b"; "11"; "21"; "31"]]) = Ok out /\
    parsedData (upload_and_complete init
      (Readable (table_text crlf_nl [["1a"; "10"; "20"; "30"]; ["1b"; "11"; "21"; "31"]]))) = out /\
    Forall (fun e => map_Forall (fun _ v => v = Undefined) (cells e)) out.
Proof.
  apply (spec_input_cells_ignored init crlf_nl); [by right|discriminate|repeat constructor|repeat constructor|].
  vm_compute. discriminate.
Defined.

Lemma export_csv_papa_roundtrip_witness :
  exported_csv (mk_state [mk_entry (Num 1) (<["aa" := Str "10"]> ∅)] [] []) =
    Some ("ID,Top Left x,Top Left y,Top Left z,Top Right x,Top Right y,Top Right z,Bottom Right x,Bottom Right y,Bottom Right z,Bottom Left x,Bottom Left y,Bottom Left z" +:+ crlf_nl +:+ "1,10,,,,,,,,,,,") /\
  papa_parse ("ID,Top Left x,Top Left y,Top Left z,Top Right x,Top Right y,Top Right z,Bottom Right x,Bottom Right y,Bottom Right z,Bottom Left x,Bottom Left y,Bottom Left z" +:+ crlf_nl +:+ "1,10,,,,,,,,,,,") =
    mk_result (spec_header :: ((fun r => (fun kv => to_string kv.2) <$> csv_row r) <$>
      [mk_entry (Num 1) (<["aa" := Str "10"]> ∅)])) [].
Proof.
  split; [vm_compute; reflexivity|].
  apply (export_csv_papa_roundtrip (mk_state [mk_entry (Num 1) (<["aa" := Str "10"]> ∅)] [] [])).
  - discriminate.
  - repeat constructor. apply map_Forall_insert_2; [reflexivity|apply map_Forall_empty].
  - vm_compute. reflexivity.
  - vm_compute. discriminate.
Defined.

Lemma export_reupload_loses_cells_witness :
  Forall (fun e => map_Forall (fun _ v => v = Undefined) (cells e))
    (parsedData (upload_and_complete (mk_state [mk_entry (Num 1) (<["aa" := Str "10"]> ∅)] [] [])
      (Readable (unparse (csvData [mk_entry (Num 1) (<["aa" := Str "10"]> ∅)]))))) /\
  exists e, e ∈ parsedData (upload_and_complete (mk_state [mk_entry (Num 1) (<["aa" := Str "10"]> ∅)] [] [])
      (Readable (unparse (csvData [mk_entry (Num 1) (<["aa" := Str "10"]> ∅)])))) /\ number e = NaN.
Proof.
  apply (export_reupload_loses_cells (mk_state [mk_entry (Num 1) (<["aa" := Str "10"]> ∅)] [] [])).
  - discriminate.
  - repeat constructor. apply map_Forall_insert_2; [reflexivity|apply map_Forall_empty].
  - vm_compute. discriminate.
Defined.

Lemma export_xlsx_sheet_witness :
  downloads (step (mk_state [mk_entry (Num 1) (<["aa" := Str "10"]> ∅)] [] []) ClickExportXLSX) =
  [mk_download "output.xlsx" "application/vnd.openxmlformats-officedocument.spreadsheetml.sheet"
    (XlsxBlob [("Sheet1", (CText <$> spec_header) ::
                          [CNum (Num 1) :: CText "10" :: replicate 11 (CText EmptyString)])])].
Proof.
  rewrite (proj1 (export_xlsx_sheet (mk_state [mk_entry (Num 1) (<["aa" := Str "10"]> ∅)] [] [])
                    ltac:(discriminate))).
  vm_compute. reflexivity.
Defined.

Lemma upload_rows_reference_witness :
  concat_with crlf_nl ["1a/10/20/30"; "1b/11/21/31"] <> EmptyString /\
  pending (handleFileUpload (Some (Readable (concat_with crlf_nl ["1a/10/20/30"; "1b/11/21/31"]))) init) =
  [PapaComplete [["1a/10/20/30"]; ["1b/11/21/31"]]].
Proof.
  split; [discriminate|].
  rewrite (upload_rows_reference init); [vm_compute; reflexivity|discriminate].
Defined.

Lemma upload_line_file_witness :
  exists rows,
    processFile ((fun l => [l]) <$> ["1a/10/20/30"; "1b/11/21/31"]) = Ok rows /\
    parsedData (upload_and_complete init (Readable (concat_with crlf_nl ["1a/10/20/30"; "1b/11/21/31"]))) = rows /\
    parsedData (upload_and_complete init
      (Readable (concat_with crlf_nl ["1a/10/20/30"; "1b/11/21/31"] +:+ crlf_nl))) ≡ₚ rows ++ [empty_line_row] /\
    (fun kv => to_string kv.2) <$> csv_row empty_line_row = "NaN" :: replicate 12 EmptyString.
Proof.
  apply (upload_line_file init crlf_nl ["1a/10/20/30"; "1b/11/21/31"]).
  - by right.
  - discriminate.
  - repeat constructor.
  - repeat constructor; discriminate.
  - vm_compute. discriminate.
Defined.

Lemma reachable_rows_wf_witness :
  Forall wf_row (parsedData (step (step init (FileInput (Some (Readable "7a/1/2/3")))) (PapaCallback 0))).
Proof. apply reachable_rows_wf. repeat constructor. Defined.

Lemma large_identifiers_merge_witness :
  processFile [[join "/" ["9007199254740993a"; "1"; "2"; "3"]]; [join "/" ["9007199254740992b"; "4"; "5"; "6"]]] =
  Ok [write_entry (Decoder.mk_fragment (parseInt "9007199254740992b") (slice_last "9007199254740992b")
                     (Str "4") (Str "5") (Str "6"))
        (write_entry (Decoder.mk_fragment (parseInt "9007199254740993a") (slice_last "9007199254740993a")
                        (Str "1") (Str "2") (Str "3"))
           (mk_entry (parseInt "9007199254740993a") ∅))].
Proof.
  apply large_identifiers_merge.
  - repeat constructor.
  - discriminate.
  - reflexivity.
  - discriminate.
  - reflexivity.
  - vm_compute. discriminate.
  - vm_compute. reflexivity.
Defined.

Lemma unclosed_quote_replaces_table_witness :
  papa_parse (String quote_char ("1a/10/20/30" +:+ lf_nl +:+ "2a/4/5/6")) =
    mk_result [["1a/10/20/30" +:+ lf_nl +:+ "2a/4/5/6"]] [MissingQuotes; UndetectableDelimiter] /\
  exists e, processFile [["1a/10/20/30" +:+ lf_nl +:+ "2a/4/5/6"]] = Ok [e] /\
    parsedData (upload_and_complete (mk_state [mk_entry (Num 7) ∅] [] [])
      (Readable (String quote_char ("1a/10/20/30" +:+ lf_nl +:+ "2a/4/5/6")))) = [e].
Proof. apply unclosed_quote_replaces_table. reflexivity. Defined.

End Component.
